(* ===== verification/_CoqProject ===== *)
-Q . S2P
Prelude.v
PyBytes.v
Bits.v
Text.v
Image.v
Frame.v
Embed.v
Extract.v
Codec.v
Utils.v
Core.v
Gui.v
Tests.v
