(* ===== verification/Prelude.v ===== *)
(** * Image-Steganography: a verification development

    The program (package [image_steganography], Python) hides a text message
    in the least-significant bits of the red, green and blue channels of an
    image and recovers it.  Its parts, and where each is modelled:

    - [src/src/image_steganography/core.py]
      -- [_to_bits], [_from_bits] (the bit planner): file [Bits].
      -- the payload frame [_HEADER ++ length(4 bytes, big endian) ++ body]
         built inside [_fallback_encode] and parsed inside
         [_fallback_decode]: file [Frame] ([payload]) and file [Extract]
         ([parse_bits]).
      -- the pixel loops of [_fallback_encode] (writer, file [Embed]) and
         [_fallback_decode] (reader, file [Extract]); their composition on
         an opened image, [encode_image] and [decode_image], and the
         theorems that relate the two: file [Codec].
      -- the public functions [encode_message_to_image] and
         [decode_message_from_image], [_fallback_encode] and
         [_fallback_decode] with the files they open and save, and the
         optional [stegano.lsb] backend behind the class [LsbBackend]:
         file [Core].
    - [src/src/image_steganography/utils.py]: [ensure_png],
      [is_lossless_image], [LOSSLESS_EXTS], over a model of [pathlib]'s
      POSIX paths: file [Utils].
    - [src/src/image_steganography/main.py]: the Tk application [App], its
      builders, its five callbacks and [main]: file [Gui].
    - [src/tests/test_core.py]: the two tests, as functions on the file
      system they run in: file [Tests].
    - [gui.py] and [__init__.py] only re-export names; nothing to model.

    The files, in the order they are checked: [Prelude] (this file),
    [PyBytes] ([bytes], [bytearray.append], [int.to_bytes],
    [int.from_bytes]), [Bits], [Text] (the interface [TextCodec] and its
    UTF-8 instance), [Image] (the RGBA canvas of PIL), [Frame], [Embed],
    [Extract], [Codec], [Utils], [Core], [Gui], [Tests].

    ** How the model corresponds to the code

    - Python [int] is unbounded, so integers are [Z] (channel values, bytes,
      bits, code points) and [nat] (lengths, indices, [range]); nothing
      wraps around.  Bit operations are [Z.land], [Z.lor], [Z.lnot],
      [Z.shiftl], [Z.shiftr]: [r & ~1] is [Z.land r (Z.lnot 1)].
    - [bytes] is [list Z] with the range 0..255 as a predicate
      ([PyBytes.is_byte]); [bytearray.append] checks it and raises
      [ValueError] outside.
    - [str] is the list of its code points; [str.encode("utf-8")] and
      [bytes.decode("utf-8")] are reached through the class
      [Text.TextCodec], whose laws are what the codec's theorems use;
      [Text.utf8] implements the class with the UTF-8 algorithm and proves
      the laws.  File names and dialog texts are strings of bytes.
    - An exception is a value of [exn]; a function that can raise returns
      [result A]; [try/except] is a [match].  A [for] loop with an early
      [return] is [for_each] over the list the loop ranges over, its body
      returning [Next] (go on), [Return] (leave the function) or [Fail] (an
      exception escapes).  An iterator ([iter(bits)]) is the list of the
      items it has not yet produced; [next] returns [None] for
      [StopIteration].
    - The image ([PIL.Image] in mode RGBA and the pixel-access object
      [img.load()] that aliases its buffer) is the record [Image.image]:
      width, height and the pixels in row-major order; [pixels[x, y]] reads
      or writes index [y * width + x] and raises [IndexError] out of range.
      The loops thread the image they mutate through their state.
    - A path is [Utils.Path]: its root ([""], ["/"], or ["//"] for exactly
      two leading slashes) and its components, as [pathlib] keeps them.
      Strings are strings of bytes; [Utils.lower] maps the letters A..Z
      only, which is [str.lower] as far as the comparison with the four
      ASCII suffixes can tell.
    - The file system is a finite map from paths to what they name: an
      image, a file that is no image, or a directory ([Core.file]).
      [Path.exists] is true of all three;
      [Image.open(p).convert("RGBA")] reads the canvas stored at [p] and
      raises [FileNotFoundError], [IsADirectoryError] or
      [UnidentifiedImageError] otherwise; [img.save(p)] stores a canvas.
      File formats are not modelled: a stored image is kept exactly, which
      is what the code relies on when it makes the output a PNG with
      [ensure_png].  A call that changes the file system returns the new
      one; a call that raises returns none, because saving is the last
      thing the code does.
    - The backend in use, fixed when [core.py] is imported, is the
      parameter [lsb : option LsbBackend] of the public functions.  The
      class states what the program needs of [stegano.lsb]: what [hide]
      embedded, [reveal] returns.  The library is handed the string of the
      cover path and opens the file itself; in the model it is given the
      opened image.
    - The window is the record [Gui.App] of what [__init__] and the
      builders create (title, size, tabs, labels, variables, text boxes,
      buttons); a callback is a function on [Gui.world] (window, files, the
      dialogs shown, the exceptions Tk reported); the user is a list of
      events.

    ** What the theorems show

    - [Bits]: [_from_bits] inverts [_to_bits]; bits are emitted most
      significant first; on bits [_from_bits] raises nothing, drops an
      incomplete group and is inverted by [_to_bits] on whole groups; on
      any integers it equals the reference [pack_groups], which says when
      [ValueError] is raised.
    - [Frame]: the layout of the payload and the two exceptions of its
      construction; the header reads back.
    - [Embed]: the nested loop with its [StopIteration] exit refines the
      reference definition [embed_bits]; it raises nothing on a well-formed
      image; the capacity check; which bit of the frame goes to which
      channel of the pixel at [(x, y)], in arithmetic; one channel changes
      by one at most.
    - [Extract]: the read loop refines [lsbs] and yields
      [width * height * 3] bits, the low bit of channel [k] of the pixel at
      [(x, y)] at position [3 * (y * width + x) + k]; the parser returns
      the message of a frame, accepts a truncated carrier, maps invalid
      text to the empty string.
    - [Codec]: decoding what was encoded returns the message; encoding
      succeeds exactly within capacity, keeps size, alpha, the seven high
      bits and the pixels past the frame; encoding is idempotent.
    - [Utils]: [ensure_png] yields a [.png] path with the same directories
      and stem, leaves a path alone exactly when its suffix is [.png] in
      some letter case, and fails exactly on a path without a name; the
      string of a path names the path.
    - [Core]: the round trip through the file system for either backend;
      exactly one file is written; which exceptions can leave the two
      functions, and what raises each; a canvas of one colour decodes to
      "no message".
    - [Gui]: an invariant of the window and the files over every sequence
      of user actions, for the main loop as a function ([main]) and as a
      labelled transition system ([step], [run], [reachable]); Encode
      followed by Decode displays the stripped message; a whole session
      from Save As to Decode; what each callback changes on success and on
      failure; an entry left empty names the current directory, so that
      Encode and Decode report an unexpected error, not a missing file.
    - [Tests]: both tests of the repository pass with the fallback codec.

    ** Bounds

    No fuel is used: every loop ranges over a finite list ([range(n)] is
    [seq 0 n]) and is structurally recursive.  Lengths are unbounded except
    for the 4-byte length field, whose bound 2^32 is explicit.  The concrete
    runs use an 8 x 4 image, whose 96 bits are exactly the frame of a
    three-byte message.

    ** Not modelled

    Where the widgets of [main.py] are placed ([grid], [columnconfigure],
    [rowconfigure], padding) and the height and wrapping of its text boxes;
    image file formats, colour conversion and PIL's decoders; the algorithm
    of the third-party [stegano.lsb] (only its contract); errors of the
    operating system other than a missing file or a directory when a file
    is opened, and all of them when one is saved: [img.save] is total, so
    the theorems on a successful encode assume that the directory of the
    output exists and that the output path is no directory; [gui.py] and
    [__init__.py], which only re-export names.

    This file is the prelude: exceptions and the [result] monad, the loop
    combinator [for_each], Python's slicing and [range], shared lemmas on
    lists and on the low bit of an integer, and the development's tactics
    and hint databases. *)

From Stdlib Require Import ZArith Lia ZifyNat.
From stdpp Require Import base tactics option list strings numbers.

#[local] Open Scope Z_scope.

(** ** Exceptions and results *)

(** The exceptions the modelled code raises or lets escape. *)
Inductive exn : Type :=
| SteganographyError (msg : string)
| FileNotFoundError
| IsADirectoryError
| UnidentifiedImageError
| OverflowError
| UnicodeEncodeError
| ValueError
| IndexError
| AssertionError (msg : string).

#[export] Instance exn_eq_dec : EqDecision exn.
Proof. solve_decision. Defined.

(** The outcome of a call: a value or a raised exception. *)
Inductive result (A : Type) : Type :=
| Ok (a : A)
| Raise (e : exn).

Arguments Ok {A} a.
Arguments Raise {A} e.

#[export] Instance result_eq_dec {A} `{EqDecision A} : EqDecision (result A).
Proof. solve_decision. Defined.

#[export] Instance result_ret : MRet result := @Ok.

#[export] Instance result_bind : MBind result := λ A B f m,
  match m with
  | Ok a => f a
  | Raise e => Raise e
  end.

#[export] Instance result_fmap : FMap result := λ A B f m,
  match m with
  | Ok a => Ok (f a)
  | Raise e => Raise e
  end.

(** [except SteganographyError] catches exactly these. *)
Definition is_stego_error (e : exn) : bool :=
  match e with
  | SteganographyError _ => true
  | _ => false
  end.

(** [of_option e o]: the value of [o], or [e] raised. *)
Definition of_option {A} (e : exn) (o : option A) : result A :=
  match o with
  | Some a => Ok a
  | None => Raise e
  end.

(** ** Loops with an early exit *)

(** What one iteration of a loop body does to the loop's state. *)
Inductive flow (S : Type) : Type :=
| Next (s : S)
| Return (s : S)
| Fail (e : exn).

Arguments Next {S} s.
Arguments Return {S} s.
Arguments Fail {S} e.

(** [for x in xs: body], started in state [s]. *)
Fixpoint for_each {X S} (body : X → S → flow S) (xs : list X) (s : S) : flow S :=
  match xs with
  | [] => Next s
  | x :: xs' =>
      match body x s with
      | Next s' => for_each body xs' s'
      | Return s' => Return s'
      | Fail e => Fail e
      end
  end.

(** ** Python sequences *)

(** [range(n)]. *)
Definition range (n : nat) : list nat := seq 0 n.

(** [l[a:b]] for non-negative [a] and [b]: clamped at the end of [l]. *)
Definition slice {A} (a b : nat) (l : list A) : list A := take (b - a) (drop a l).

(** [l.startswith(p)]. *)
Definition startswith `{EqDecision A} (l p : list A) : bool :=
  bool_decide (take (length p) l = p).

(** ** The low bit of an integer *)

Definition is_bit (b : Z) : Prop := b = 0 ∨ b = 1.

#[export] Instance is_bit_dec b : Decision (is_bit b).
Proof. unfold is_bit. apply _. Defined.

Lemma is_bit_range b : is_bit b ↔ 0 ≤ b < 2.
Proof. unfold is_bit. lia. Qed.

(** ** Automation *)

Create HintDb steg discriminated.
Create Rewrite HintDb steg.
Create Rewrite HintDb len.

#[export] Hint Rewrite @length_app @length_take @length_drop @length_insert
  @length_fmap @length_seq @length_replicate @length_nil @length_cons : len.

(** Normalise list lengths, then linear arithmetic. *)
Ltac len := autorewrite with len in *; simpl length in *; try lia.

(** Turn every [is_bit b] of the context into the interval [0 ≤ b < 2], which
    linear arithmetic handles without case splits. *)
Ltac bits_to_range :=
  repeat match goal with
  | H : is_bit _ |- _ => apply is_bit_range in H
  end.

(** Case analysis on the scrutinee of the first [match] of the goal that is a
    [result], an [option] or a [flow]. *)
Ltac case_res :=
  match goal with
  | |- context [match ?m with Ok _ => _ | Raise _ => _ end] => destruct m eqn:?
  | |- context [match ?m with Some _ => _ | None => _ end] => destruct m eqn:?
  | |- context [match ?m with Next _ => _ | Return _ => _ | Fail _ => _ end] =>
      destruct m eqn:?
  end.

(** Unfold the monad operations of [result]. *)
Ltac unfold_result := unfold mbind, mret, fmap, result_bind, result_ret, result_fmap in *.

Section result_lemmas.
Context {A B : Type}.
Implicit Types (m : result A) (f : A → result B).

Lemma bind_Ok (a : A) f : (Ok a ≫= f) = f a.
Proof. reflexivity. Qed.

Lemma bind_Raise e f : (Raise e ≫= f) = Raise e.
Proof. reflexivity. Qed.

Lemma bind_Ok_inv m f (b : B) :
  m ≫= f = Ok b → ∃ a, m = Ok a ∧ f a = Ok b.
Proof. destruct m; [eauto | discriminate]. Qed.

Lemma of_option_Ok e (o : option A) a : of_option e o = Ok a ↔ o = Some a.
Proof. destruct o; simpl; split; congruence. Qed.

End result_lemmas.

#[export] Hint Rewrite @bind_Ok @bind_Raise : steg.

Section for_each_lemmas.
Context {X S : Type}.
Implicit Types (body : X → S → flow S) (xs ys : list X) (s : S).

Lemma for_each_app body xs ys s :
  for_each body (xs ++ ys) s =
  match for_each body xs s with
  | Next s' => for_each body ys s'
  | r => r
  end.
Proof.
  revert s; induction xs as [|x xs IH]; intros s; simpl.
  - by destruct (for_each body ys s).
  - destruct (body x s); auto.
Qed.

(** A loop whose body never leaves is a left fold. *)
Lemma for_each_Next body (step : X → S → S) xs s :
  (∀ x s, body x s = Next (step x s)) →
  for_each body xs s = Next (foldl (λ s x, step x s) s xs).
Proof.
  intros Hb. revert s; induction xs as [|x xs IH]; intros s; simpl; [done|].
  by rewrite Hb, IH.
Qed.

(** Two bodies that agree on the items of the list run the same loop. *)
Lemma for_each_ext body body' xs s :
  (∀ x s, x ∈ xs → body x s = body' x s) →
  for_each body xs s = for_each body' xs s.
Proof.
  revert s; induction xs as [|x xs IH]; intros s Hb; simpl; [done|].
  rewrite Hb by left. destruct (body' x s); auto.
  apply IH. intros; apply Hb; by right.
Qed.

End for_each_lemmas.

(** Induction on a list eight items at a time. *)
Lemma list_ind8 {A} (P : list A → Prop) :
  (∀ l, (length l < 8)%nat → P l) →
  (∀ a0 a1 a2 a3 a4 a5 a6 a7 l, P l →
     P (a0 :: a1 :: a2 :: a3 :: a4 :: a5 :: a6 :: a7 :: l)) →
  ∀ l, P l.
Proof.
  intros Hshort Hstep l.
  remember (length l) as n eqn:Hn. revert l Hn.
  induction (lt_wf n) as [n _ IH]. intros l ->.
  destruct l as [|a0 [|a1 [|a2 [|a3 [|a4 [|a5 [|a6 [|a7 l]]]]]]]];
    try (apply Hshort; simpl; lia).
  apply Hstep. eapply IH; [|done]. simpl. lia.
Qed.

Lemma length_lt8_mod8 {A} (l : list A) :
  (length l < 8)%nat → (length l `mod` 8 = 0)%nat → l = [].
Proof.
  intros Hlt Hm. rewrite Nat.mod_small in Hm by done. by destruct l.
Qed.

Lemma length_cons8_mod8 {A} (a0 a1 a2 a3 a4 a5 a6 a7 : A) l :
  (length (a0 :: a1 :: a2 :: a3 :: a4 :: a5 :: a6 :: a7 :: l) `mod` 8 = 0 →
   length l `mod` 8 = 0)%nat.
Proof.
  change (length (a0 :: a1 :: a2 :: a3 :: a4 :: a5 :: a6 :: a7 :: l)) with (8 + length l)%nat.
  replace (8 + length l)%nat with (length l + 1 * 8)%nat by lia.
  by rewrite Nat.Div0.mod_add.
Qed.

Section slice_lemmas.
Context {A : Type}.
Implicit Types (l k : list A).

Lemma slice_0 b l : slice 0 b l = take b l.
Proof. unfold slice. by rewrite Nat.sub_0_r, drop_0. Qed.

Lemma length_slice a b l : length (slice a b l) = ((b - a) `min` (length l - a))%nat.
Proof. unfold slice. by rewrite length_take, length_drop. Qed.

Lemma slice_app_length l k n : slice (length l) (length l + n) (l ++ k) = take n k.
Proof.
  unfold slice. rewrite drop_app_length. f_equal. lia.
Qed.

Lemma range_S n : range (S n) = range n ++ [n].
Proof. unfold range. by rewrite seq_S. Qed.

Lemma length_range n : length (range n) = n.
Proof. apply length_seq. Qed.

End slice_lemmas.

#[export] Hint Rewrite @length_slice @length_range : len.

Section startswith_lemmas.
Context `{EqDecision A}.
Implicit Types (l p : list A).

Lemma startswith_app p l : startswith (p ++ l) p = true.
Proof. unfold startswith. apply bool_decide_eq_true. apply take_app_length. Qed.

Lemma startswith_true l p : startswith l p = true ↔ ∃ k, l = p ++ k.
Proof.
  unfold startswith. rewrite bool_decide_eq_true. split.
  - intros H. exists (drop (length p) l). by rewrite <- H at 1; rewrite take_drop.
  - intros [k ->]. apply take_app_length.
Qed.

Lemma startswith_short l p : (length l < length p)%nat → startswith l p = false.
Proof.
  intros Hlt. unfold startswith. apply bool_decide_eq_false. intros H.
  apply (f_equal length) in H. rewrite length_take in H. lia.
Qed.

Lemma startswith_cons2 (x y a b : A) l p :
  x ≠ a ∨ y ≠ b → startswith (x :: y :: l) (a :: b :: p) = false.
Proof.
  intros Hne. unfold startswith. apply bool_decide_eq_false.
  cbn [length take]. intros [= ? ? _]. tauto.
Qed.

End startswith_lemmas.

Section low_bit.
Implicit Types (c b : Z).

Lemma land_1_is_bit c : is_bit (Z.land c 1).
Proof.
  unfold is_bit. change (Z.land c 1) with (Z.land c (Z.ones 1)).
  rewrite Z.land_ones, Z.pow_1_r by lia. pose proof (Z.mod_pos_bound c 2). lia.
Qed.

Lemma land_1_mod c : Z.land c 1 = c `mod` 2.
Proof. change 1 with (Z.ones 1). by rewrite Z.land_ones, Z.pow_1_r by lia. Qed.

Lemma is_bit_land_1 b : is_bit b → Z.land b 1 = b.
Proof. by intros [-> | ->]. Qed.

(** Shifting a bit in from the right: [(c << 1) | b]. *)
Lemma lor_shiftl_bit c b : is_bit b → Z.lor (Z.shiftl c 1) b = 2 * c + b.
Proof.
  intros Hb. rewrite Z.shiftl_mul_pow2, Z.pow_1_r, (Z.mul_comm c) by lia.
  rewrite <- Z.lxor_lor, <- Z.add_nocarry_lxor; try done;
    destruct Hb as [-> | ->]; rewrite ?Z.land_0_r; try done;
    change 1 with (Z.ones 1); rewrite Z.land_ones, Z.pow_1_r by lia;
    by rewrite Z.mul_comm, Z.mod_mul.
Qed.

End low_bit.

#[export] Hint Resolve land_1_is_bit : steg.
