(* ===== verification/PyBytes.v ===== *)
(** * Python [bytes] values and the built-ins the program calls on them

    A [bytes] object is the list of its items, each an integer in 0..255
    ([is_byte]); [bytearray.append] enforces the range.  [int.to_bytes] and
    [int.from_bytes] are modelled for the byte order the program uses
    (["big"]), for any width; the program calls them with width 4. *)

From Stdlib Require Import ZArith Lia ZifyNat.
From stdpp Require Import base tactics option list numbers.
From S2P Require Import Prelude.

#[local] Open Scope Z_scope.

(** ** Definitions *)

Definition is_byte (b : Z) : Prop := 0 ≤ b < 256.

#[export] Instance is_byte_dec b : Decision (is_byte b).
Proof. unfold is_byte. apply _. Defined.

(** A well-formed [bytes] value. *)
Definition bytes_ok (bs : list Z) : Prop := Forall is_byte bs.

#[export] Instance bytes_ok_dec bs : Decision (bytes_ok bs).
Proof. unfold bytes_ok. apply _. Defined.

(** [out.append(b)] on a [bytearray]: [ValueError] outside 0..255. *)
Definition bytearray_append (out : list Z) (b : Z) : result (list Z) :=
  if decide (is_byte b) then Ok (out ++ [b]) else Raise ValueError.

(** The [n] low-order bytes of [v], most significant first. *)
Fixpoint be_bytes (n : nat) (v : Z) : list Z :=
  match n with
  | O => []
  | S m => (v / 2 ^ (8 * Z.of_nat m)) `mod` 256 :: be_bytes m v
  end.

(** [v.to_bytes(n, "big")]: [OverflowError] when [v] is negative or does not
    fit in [n] bytes. *)
Definition int_to_bytes (v : Z) (n : nat) : result (list Z) :=
  if decide (0 ≤ v < 2 ^ (8 * Z.of_nat n)) then Ok (be_bytes n v)
  else Raise OverflowError.

(** [int.from_bytes(bs, "big")]. *)
Definition int_from_bytes (bs : list Z) : Z :=
  foldl (λ acc b, acc * 256 + b) 0 bs.

(** ** Lemmas *)

Lemma is_byte_bit b : is_bit b → is_byte b.
Proof. unfold is_bit, is_byte. lia. Qed.

Lemma bytes_ok_app bs cs : bytes_ok (bs ++ cs) ↔ bytes_ok bs ∧ bytes_ok cs.
Proof. apply Forall_app. Qed.

Lemma bytes_ok_take n bs : bytes_ok bs → bytes_ok (take n bs).
Proof. apply Forall_take. Qed.

Lemma bytes_ok_drop n bs : bytes_ok bs → bytes_ok (drop n bs).
Proof. apply Forall_drop. Qed.

Lemma bytearray_append_ok out b :
  is_byte b → bytearray_append out b = Ok (out ++ [b]).
Proof. intros. unfold bytearray_append. by rewrite decide_True. Qed.

Lemma bytearray_append_err out b :
  ¬ is_byte b → bytearray_append out b = Raise ValueError.
Proof. intros. unfold bytearray_append. by rewrite decide_False. Qed.

Lemma length_be_bytes n v : length (be_bytes n v) = n.
Proof. induction n; simpl; congruence. Qed.

Lemma be_bytes_ok n v : bytes_ok (be_bytes n v).
Proof.
  induction n; constructor; [|done].
  unfold is_byte. by apply Z.mod_pos_bound.
Qed.

#[export] Hint Rewrite length_be_bytes : len.
#[export] Hint Resolve be_bytes_ok is_byte_bit : steg.

Lemma int_from_bytes_acc acc bs :
  foldl (λ acc b, acc * 256 + b) acc bs =
  acc * 2 ^ (8 * Z.of_nat (length bs)) + int_from_bytes bs.
Proof.
  unfold int_from_bytes. revert acc.
  induction bs as [|b bs IH]; intros acc; simpl foldl; simpl length.
  - change (2 ^ (8 * Z.of_nat 0)) with 1. lia.
  - rewrite (IH (acc * 256 + b)), (IH (0 * 256 + b)).
    replace (8 * Z.of_nat (S (length bs))) with (8 + 8 * Z.of_nat (length bs)) by lia.
    rewrite Z.pow_add_r by lia. change (2 ^ 8) with 256. lia.
Qed.

Lemma int_from_bytes_cons b bs :
  int_from_bytes (b :: bs) = b * 2 ^ (8 * Z.of_nat (length bs)) + int_from_bytes bs.
Proof.
  unfold int_from_bytes at 1. simpl foldl. rewrite int_from_bytes_acc. lia.
Qed.

Lemma int_from_bytes_range bs :
  bytes_ok bs → 0 ≤ int_from_bytes bs < 2 ^ (8 * Z.of_nat (length bs)).
Proof.
  induction 1 as [|b bs Hb _ IH].
  - by compute.
  - rewrite int_from_bytes_cons. simpl length.
    replace (8 * Z.of_nat (S (length bs))) with (8 + 8 * Z.of_nat (length bs)) by lia.
    rewrite Z.pow_add_r by lia. change (2 ^ 8) with 256.
    unfold is_byte in Hb. nia.
Qed.

(** Reading back what [be_bytes] wrote keeps the [n] low-order bytes. *)
Lemma int_from_be_bytes n v :
  int_from_bytes (be_bytes n v) = v `mod` 2 ^ (8 * Z.of_nat n).
Proof.
  induction n as [|n IH]; simpl be_bytes.
  - change (2 ^ (8 * Z.of_nat 0)) with 1. by rewrite Z.mod_1_r.
  - rewrite int_from_bytes_cons, IH, length_be_bytes.
    replace (8 * Z.of_nat (S n)) with (8 * Z.of_nat n + 8) by lia.
    rewrite Z.pow_add_r by lia. change (2 ^ 8) with 256.
    assert (0 < 2 ^ (8 * Z.of_nat n)) by (apply Z.pow_pos_nonneg; lia).
    rewrite Z.rem_mul_r by lia. lia.
Qed.

(** [be_bytes n] ignores everything above bit [8 * n]. *)
Lemma be_bytes_add_high n m c v :
  (n ≤ m)%nat → be_bytes n (c * 2 ^ (8 * Z.of_nat m) + v) = be_bytes n v.
Proof.
  induction n as [|n IH]; intros Hle; [done|].
  simpl be_bytes. rewrite IH by lia. f_equal.
  replace (8 * Z.of_nat m) with
    (8 * (Z.of_nat m - Z.of_nat n - 1) + 8 + 8 * Z.of_nat n) by lia.
  rewrite !Z.pow_add_r, !Z.mul_assoc by lia. change (2 ^ 8) with 256.
  rewrite Z.div_add_l by (apply Z.pow_nonzero; lia).
  by rewrite Z.add_comm, Z.mod_add.
Qed.

(** Writing back what [int_from_bytes] read gives the same bytes. *)
Lemma be_bytes_int_from bs :
  bytes_ok bs → be_bytes (length bs) (int_from_bytes bs) = bs.
Proof.
  induction 1 as [|b bs Hb Hbs IH]; [done|].
  simpl length. simpl be_bytes. rewrite int_from_bytes_cons.
  pose proof (int_from_bytes_range bs Hbs) as Hr.
  rewrite be_bytes_add_high, IH by lia. f_equal.
  rewrite Z.div_add_l, (Z.div_small (int_from_bytes bs)) by lia.
  rewrite Z.add_0_r. apply Z.mod_small, Hb.
Qed.

Lemma int_to_bytes_ok v n :
  0 ≤ v < 2 ^ (8 * Z.of_nat n) → int_to_bytes v n = Ok (be_bytes n v).
Proof. intros. unfold int_to_bytes. by rewrite decide_True. Qed.

Lemma int_to_bytes_overflow v n :
  2 ^ (8 * Z.of_nat n) ≤ v → int_to_bytes v n = Raise OverflowError.
Proof. intros. unfold int_to_bytes. rewrite decide_False; [done|lia]. Qed.

Lemma int_to_bytes_inv v n bs :
  int_to_bytes v n = Ok bs →
  0 ≤ v < 2 ^ (8 * Z.of_nat n) ∧ bs = be_bytes n v.
Proof. unfold int_to_bytes. destruct (decide _); intros [= <-]; done. Qed.
