(* ===== verification/Bits.v ===== *)
(** * The bit planner: [_to_bits] and [_from_bits] of core.py

    [_to_bits] is a generator that the program consumes at once with
    [list(...)]; it is modelled by the list of the bits it yields.
    [_from_bits] is modelled with its loop state [(b, out)] and the index
    that [enumerate(bits, start=1)] supplies.  [pack_bits] is the reference
    definition of what [_from_bits] computes on bits: groups of eight, most
    significant bit first, a trailing partial group dropped.  [pack_groups]
    is the reference on lists of any integers, where a group can leave
    0..255 and [bytearray.append] raise. *)

From Stdlib Require Import ZArith Lia ZifyNat.
From stdpp Require Import base tactics option list numbers.
From S2P Require Import Prelude PyBytes.

#[local] Open Scope Z_scope.

(** ** Definitions *)

(** The inner loop of [_to_bits]: [(byte >> (7 - i)) & 1] for [i] in
    [range(8)]. *)
Definition byte_bits (byte : Z) : list Z :=
  (λ i : nat, Z.land (Z.shiftr byte (7 - Z.of_nat i)) 1) <$> range 8.

(** [list(_to_bits(data))]. *)
Definition _to_bits (data : list Z) : list Z := data ≫= byte_bits.

(** [enumerate(l, start)]. *)
Fixpoint enumerate {A} (start : nat) (l : list A) : list (nat * A) :=
  match l with
  | [] => []
  | x :: l' => (start, x) :: enumerate (S start) l'
  end.

(** One iteration of the loop of [_from_bits], on the state [(b, out)]. *)
Definition from_bits_body (item : nat * Z) (s : Z * list Z) : flow (Z * list Z) :=
  let '(i, bit) := item in
  let '(b, out) := s in
  let b := Z.lor (Z.shiftl b 1) bit in
  if decide (i `mod` 8 = 0)%nat then
    match bytearray_append out b with
    | Ok out => Next (0, out)
    | Raise e => Fail e
    end
  else Next (b, out).

(** [_from_bits(bits)]. *)
Definition _from_bits (bits : list Z) : result (list Z) :=
  match for_each from_bits_body (enumerate 1 bits) (0, []) with
  | Next (_, out) | Return (_, out) => Ok out
  | Fail e => Raise e
  end.

(** Reference: the bytes of a bit sequence, eight bits each, most significant
    first; fewer than eight trailing bits are dropped. *)
Fixpoint pack_bits (bits : list Z) : list Z :=
  match bits with
  | b7 :: b6 :: b5 :: b4 :: b3 :: b2 :: b1 :: b0 :: rest =>
      (128 * b7 + 64 * b6 + 32 * b5 + 16 * b4 + 8 * b3 + 4 * b2 + 2 * b1 + b0)
      :: pack_bits rest
  | _ => []
  end.

(** The value [_from_bits] accumulates over a group, from zero: each bit is
    shifted in on the right. *)
Definition group_value (group : list Z) : Z :=
  foldl (λ b bit, Z.lor (Z.shiftl b 1) bit) 0 group.

(** Reference for lists of any integers: one byte per group of eight, each
    group valued on its own; the first group whose value is no byte raises
    [ValueError]; fewer than eight trailing items are dropped. *)
Fixpoint pack_groups (bits : list Z) : result (list Z) :=
  match bits with
  | b7 :: b6 :: b5 :: b4 :: b3 :: b2 :: b1 :: b0 :: rest =>
      let v := group_value [b7; b6; b5; b4; b3; b2; b1; b0] in
      if decide (is_byte v) then cons v <$> pack_groups rest else Raise ValueError
  | _ => Ok []
  end.

(** ** [_to_bits] *)

Lemma byte_bits_unfold byte :
  byte_bits byte =
  [Z.land (Z.shiftr byte 7) 1; Z.land (Z.shiftr byte 6) 1;
   Z.land (Z.shiftr byte 5) 1; Z.land (Z.shiftr byte 4) 1;
   Z.land (Z.shiftr byte 3) 1; Z.land (Z.shiftr byte 2) 1;
   Z.land (Z.shiftr byte 1) 1; Z.land (Z.shiftr byte 0) 1].
Proof. reflexivity. Qed.

Lemma length_byte_bits byte : length (byte_bits byte) = 8%nat.
Proof. reflexivity. Qed.

Lemma byte_bits_are_bits byte : Forall is_bit (byte_bits byte).
Proof.
  rewrite byte_bits_unfold.
  repeat (apply Forall_cons; [apply land_1_is_bit|]). apply Forall_nil.
Qed.

Lemma to_bits_nil : _to_bits [] = [].
Proof. reflexivity. Qed.

Lemma to_bits_cons byte data : _to_bits (byte :: data) = byte_bits byte ++ _to_bits data.
Proof. reflexivity. Qed.

Lemma to_bits_app data1 data2 : _to_bits (data1 ++ data2) = _to_bits data1 ++ _to_bits data2.
Proof. unfold _to_bits. apply bind_app. Qed.

Lemma length_to_bits data : length (_to_bits data) = (length data * 8)%nat.
Proof.
  induction data as [|byte data IH]; [done|].
  rewrite to_bits_cons, length_app, length_byte_bits, IH. simpl. lia.
Qed.

Lemma to_bits_are_bits data : Forall is_bit (_to_bits data).
Proof.
  induction data as [|byte data IH]; [constructor|].
  rewrite to_bits_cons. apply Forall_app; split; [apply byte_bits_are_bits|done].
Qed.

#[export] Hint Rewrite length_to_bits length_byte_bits : len.
#[export] Hint Resolve to_bits_are_bits byte_bits_are_bits : steg.

(** The bit of weight [2^k] of a byte, as arithmetic. *)
Lemma land_shiftr_1 byte k : 0 ≤ k → Z.land (Z.shiftr byte k) 1 = (byte / 2 ^ k) `mod` 2.
Proof.
  intros. change 1 with (Z.ones 1) at 1.
  by rewrite Z.land_ones, Z.shiftr_div_pow2, Z.pow_1_r by lia.
Qed.

(** Packing the bits of a byte gives the byte back. *)
Lemma pack_byte_bits byte rest :
  is_byte byte → pack_bits (byte_bits byte ++ rest) = byte :: pack_bits rest.
Proof.
  intros Hb. rewrite byte_bits_unfold. cbn [app pack_bits]. f_equal.
  rewrite !land_shiftr_1 by lia. unfold is_byte in Hb.
  change (2 ^ 0) with 1; change (2 ^ 1) with 2; change (2 ^ 2) with 4;
  change (2 ^ 3) with 8; change (2 ^ 4) with 16; change (2 ^ 5) with 32;
  change (2 ^ 6) with 64; change (2 ^ 7) with 128.
  lia.
Qed.

Lemma pack_to_bits data : bytes_ok data → pack_bits (_to_bits data) = data.
Proof.
  induction 1 as [|byte data Hb _ IH]; [done|].
  by rewrite to_bits_cons, pack_byte_bits, IH.
Qed.

(** ** [pack_bits] *)

Lemma pack_bits_short bits : (length bits < 8)%nat → pack_bits bits = [].
Proof.
  destruct bits as [|? [|? [|? [|? [|? [|? [|? [|? ?]]]]]]]]; simpl; (done || lia).
Qed.

Lemma pack_bits_app bits1 bits2 :
  (length bits1 `mod` 8 = 0)%nat →
  pack_bits (bits1 ++ bits2) = pack_bits bits1 ++ pack_bits bits2.
Proof.
  induction bits1 as [l Hl|a0 a1 a2 a3 a4 a5 a6 a7 l IH] using list_ind8; intros Hm.
  - by rewrite (length_lt8_mod8 l).
  - cbn [app pack_bits]. rewrite IH; [done|]. by eapply length_cons8_mod8.
Qed.

Lemma length_pack_bits bits : length (pack_bits bits) = (length bits / 8)%nat.
Proof.
  induction bits as [l Hl|a0 a1 a2 a3 a4 a5 a6 a7 l IH] using list_ind8.
  - by rewrite pack_bits_short, Nat.div_small.
  - cbn [pack_bits length]. rewrite IH.
    replace (S (S (S (S (S (S (S (S (length l))))))))) with (length l + 1 * 8)%nat by lia.
    rewrite Nat.div_add by done. lia.
Qed.

Lemma pack_bits_ok bits : Forall is_bit bits → bytes_ok (pack_bits bits).
Proof.
  induction bits as [l Hl|a0 a1 a2 a3 a4 a5 a6 a7 l IH] using list_ind8; intros Hbits.
  - rewrite pack_bits_short by done. constructor.
  - do 8 (apply Forall_cons_1 in Hbits as [? Hbits]).
    cbn [pack_bits]. constructor; [|by apply IH].
    bits_to_range. unfold is_byte. lia.
Qed.

(** The bits of a byte assembled from eight bits are those bits. *)
Lemma byte_bits_of_bits a0 a1 a2 a3 a4 a5 a6 a7 :
  is_bit a0 → is_bit a1 → is_bit a2 → is_bit a3 →
  is_bit a4 → is_bit a5 → is_bit a6 → is_bit a7 →
  byte_bits (128 * a0 + 64 * a1 + 32 * a2 + 16 * a3 + 8 * a4 + 4 * a5 + 2 * a6 + a7)
  = [a0; a1; a2; a3; a4; a5; a6; a7].
Proof.
  intros. bits_to_range. rewrite byte_bits_unfold, !land_shiftr_1 by lia.
  change (2 ^ 0) with 1; change (2 ^ 1) with 2; change (2 ^ 2) with 4;
  change (2 ^ 3) with 8; change (2 ^ 4) with 16; change (2 ^ 5) with 32;
  change (2 ^ 6) with 64; change (2 ^ 7) with 128.
  repeat f_equal; lia.
Qed.

(** On a whole number of bytes, [_to_bits] inverts [pack_bits]. *)
Lemma to_bits_pack bits :
  Forall is_bit bits → (length bits `mod` 8 = 0)%nat → _to_bits (pack_bits bits) = bits.
Proof.
  induction bits as [l Hl|a0 a1 a2 a3 a4 a5 a6 a7 l IH] using list_ind8;
    intros Hbits Hm.
  - by rewrite (length_lt8_mod8 l).
  - do 8 (apply Forall_cons_1 in Hbits as [? Hbits]).
    cbn [pack_bits]. rewrite to_bits_cons, IH by (done || by eapply length_cons8_mod8).
    by rewrite byte_bits_of_bits.
Qed.

#[export] Hint Rewrite length_pack_bits : len.
#[export] Hint Resolve pack_bits_ok : steg.

(** ** [_from_bits] *)

Lemma enumerate_app {A} (l1 l2 : list A) i :
  enumerate i (l1 ++ l2) = enumerate i l1 ++ enumerate (i + length l1) l2.
Proof.
  revert i; induction l1 as [|x l1 IH]; intros i; simpl.
  - by rewrite Nat.add_0_r.
  - rewrite IH. do 3 f_equal. lia.
Qed.

Lemma length_enumerate {A} (l : list A) i : length (enumerate i l) = length l.
Proof. revert i; induction l; intros; simpl; auto. Qed.

(** Off a multiple of eight, an iteration only shifts the bit in. *)
Lemma from_bits_body_shift i bit b out :
  (i `mod` 8 ≠ 0)%nat →
  from_bits_body (i, bit) (b, out) = Next (Z.lor (Z.shiftl b 1) bit, out).
Proof. intros. unfold from_bits_body. by rewrite decide_False. Qed.

(** On a multiple of eight, it appends the byte and resets [b]. *)
Lemma from_bits_body_emit i bit b out :
  (i `mod` 8 = 0)%nat →
  from_bits_body (i, bit) (b, out) =
  match bytearray_append out (Z.lor (Z.shiftl b 1) bit) with
  | Ok out => Next (0, out)
  | Raise e => Fail e
  end.
Proof. intros. unfold from_bits_body. by rewrite decide_True. Qed.

(** A stretch of the loop that crosses no multiple of eight. *)
Lemma from_bits_no_emit bits i b out :
  (∀ j, i ≤ j < i + length bits → j `mod` 8 ≠ 0)%nat →
  for_each from_bits_body (enumerate i bits) (b, out) =
  Next (foldl (λ b bit, Z.lor (Z.shiftl b 1) bit) b bits, out).
Proof.
  revert i b; induction bits as [|bit bits IH]; intros i b Hj; [done|].
  cbn [enumerate for_each foldl].
  rewrite from_bits_body_shift by (apply Hj; simpl; lia).
  apply IH. intros j ?. apply Hj. simpl. lia.
Qed.

Lemma pack_groups_short bits : (length bits < 8)%nat → pack_groups bits = Ok [].
Proof.
  destruct bits as [|? [|? [|? [|? [|? [|? [|? [|? ?]]]]]]]]; simpl; (done || lia).
Qed.

(** The loop from the start of a group, on any integers: it fails at the
    first group whose value is no byte, and otherwise appends one byte per
    group. *)
Lemma from_bits_loop_groups bits : ∀ k out,
  match pack_groups bits with
  | Ok bytes =>
      ∃ b, for_each from_bits_body (enumerate (8 * k + 1) bits) (0, out) =
           Next (b, out ++ bytes)
  | Raise e => for_each from_bits_body (enumerate (8 * k + 1) bits) (0, out) = Fail e
  end.
Proof.
  induction bits as [l Hl|a0 a1 a2 a3 a4 a5 a6 a7 l IH] using list_ind8; intros k out.
  - rewrite pack_groups_short, from_bits_no_emit, app_nil_r by lia. eauto.
  - change (a0 :: a1 :: a2 :: a3 :: a4 :: a5 :: a6 :: a7 :: l)
      with ([a0; a1; a2; a3; a4; a5; a6] ++ a7 :: l) at 2 3.
    rewrite !enumerate_app, !for_each_app, !from_bits_no_emit by (cbn [length]; lia).
    cbn [enumerate for_each length pack_groups].
    rewrite !from_bits_body_emit by lia.
    change (Z.lor _ a7) with (group_value [a0; a1; a2; a3; a4; a5; a6; a7]).
    set (v := group_value _). destruct (decide (is_byte v)) as [Hv|Hv].
    + rewrite bytearray_append_ok by done.
      replace (S (8 * k + 1 + 7)) with (8 * S k + 1)%nat by lia.
      specialize (IH (S k) (out ++ [v])). destruct (pack_groups l) as [bytes|e]; cbn.
      * by rewrite <- app_assoc in IH.
      * done.
    + by rewrite bytearray_append_err.
Qed.

(** Eight bits shifted in, most significant first. *)
Lemma group_value_bits a0 a1 a2 a3 a4 a5 a6 a7 :
  is_bit a0 → is_bit a1 → is_bit a2 → is_bit a3 →
  is_bit a4 → is_bit a5 → is_bit a6 → is_bit a7 →
  group_value [a0; a1; a2; a3; a4; a5; a6; a7] =
  128 * a0 + 64 * a1 + 32 * a2 + 16 * a3 + 8 * a4 + 4 * a5 + 2 * a6 + a7.
Proof. intros. unfold group_value. cbn [foldl]. rewrite !lor_shiftl_bit by done. lia. Qed.

(** On bits the two references agree: no group leaves 0..255. *)
Lemma pack_groups_bits bits : Forall is_bit bits → pack_groups bits = Ok (pack_bits bits).
Proof.
  induction bits as [l Hl|a0 a1 a2 a3 a4 a5 a6 a7 l IH] using list_ind8; intros Hbits.
  - by rewrite pack_groups_short, pack_bits_short.
  - do 8 (apply Forall_cons_1 in Hbits as [? Hbits]).
    cbn [pack_groups pack_bits]. rewrite group_value_bits, IH by done.
    rewrite decide_True; [done|]. bits_to_range. unfold is_byte. lia.
Qed.

(** [_from_bits] computes [pack_bits] and does not fail on bits. *)
Lemma from_bits_pack bits : Forall is_bit bits → _from_bits bits = Ok (pack_bits bits).
Proof.
  intros Hbits. unfold _from_bits. pose proof (from_bits_loop_groups bits 0 []) as Hloop.
  rewrite pack_groups_bits in Hloop by done. destruct Hloop as [b Hb].
  change (8 * 0 + 1)%nat with 1%nat in Hb. by rewrite Hb.
Qed.

(** ** The bit planner's contract *)

Lemma byte_bits_lookup byte i :
  (i < 8)%nat →
  byte_bits byte !! i = Some (Z.land (Z.shiftr byte (7 - Z.of_nat i)) 1).
Proof. intros Hi. do 8 (destruct i as [|i]; [done|]). lia. Qed.

(** C4: [_from_bits] inverts [_to_bits]: regrouping the bits of a well-formed
    [bytes] value returns that value, without raising. *)
Theorem from_bits_to_bits data : bytes_ok data → _from_bits (_to_bits data) = Ok data.
Proof.
  intros Hd. rewrite from_bits_pack by apply to_bits_are_bits.
  by rewrite pack_to_bits.
Qed.

(** C25: on bits [_from_bits] raises nothing; it returns one byte in 0..255
    for each full group of eight bits and drops an incomplete last group. *)
Theorem from_bits_total bits :
  Forall is_bit bits →
  ∃ out, _from_bits bits = Ok out ∧ bytes_ok out
         ∧ length out = (length bits / 8)%nat
         ∧ _to_bits out = take (8 * (length bits / 8)) bits.
Proof.
  intros Hbits. exists (pack_bits bits). split_and!; auto using from_bits_pack with steg.
  { apply length_pack_bits. }
  rewrite <- (take_drop (8 * (length bits / 8)) bits) at 1.
  rewrite pack_bits_app, (pack_bits_short (drop _ _)), app_nil_r
    by (rewrite ?length_take, ?length_drop; lia).
  apply to_bits_pack; [by apply Forall_take|]. rewrite length_take. lia.
Qed.

(** C26: [_to_bits] yields the bits of each byte most significant first: bit
    [i] of the output is bit [7 - i mod 8] of byte [i / 8]. *)
Theorem to_bits_msb_first data i :
  _to_bits data !! i =
  (λ byte, Z.land (Z.shiftr byte (7 - Z.of_nat (i `mod` 8))) 1) <$> data !! (i / 8)%nat.
Proof.
  revert i; induction data as [|byte data IH]; intros i; [done|].
  rewrite to_bits_cons. destruct (decide (i < 8)%nat) as [Hi|Hi].
  - rewrite lookup_app_l, byte_bits_lookup by (rewrite ?length_byte_bits; lia).
    by rewrite Nat.div_small, Nat.mod_small by done.
  - rewrite lookup_app_r, length_byte_bits, IH by (rewrite ?length_byte_bits; lia).
    replace (i / 8)%nat with (S ((i - 8) / 8)) by lia.
    by replace ((i - 8) `mod` 8)%nat with (i `mod` 8)%nat by lia.
Qed.

(** C15: on any list of integers, bits or not, [_from_bits] is the
    reference [pack_groups]: the items are taken in groups of eight from the
    left, each group is valued from zero with its first item most
    significant, the first group whose value is not in 0..255 raises
    [ValueError], and fewer than eight trailing items are dropped. *)
Theorem from_bits_groups bits : _from_bits bits = pack_groups bits.
Proof.
  unfold _from_bits. pose proof (from_bits_loop_groups bits 0 []) as Hloop.
  change (8 * 0 + 1)%nat with 1%nat in Hloop.
  destruct (pack_groups bits) as [bytes|e]; [|by rewrite Hloop].
  destruct Hloop as [b ->]. done.
Qed.

(** ** Concrete runs *)

Lemma from_bits_to_bits_witness :
  _from_bits (_to_bits [73; 77; 83; 71; 0]) = Ok [73; 77; 83; 71; 0].
Proof. apply from_bits_to_bits. compute_done. Defined.

Lemma from_bits_total_witness :
  ∃ out, _from_bits [0;1;0;0;1;0;0;1; 1;0;1] = Ok out ∧ bytes_ok out
         ∧ length out = 1%nat ∧ _to_bits out = [0;1;0;0;1;0;0;1].
Proof. apply (from_bits_total [0;1;0;0;1;0;0;1; 1;0;1]). compute_done. Defined.

(** What [_from_bits] does with integers that are not bits: a group of value
    256 raises, also when earlier groups were bytes; an item 2 in the last
    place is taken for a low bit pair; a negative item makes the group
    negative. *)
Example from_bits_groups_runs :
  _from_bits [0; 0; 0; 0; 0; 0; 0; 256; 1] = Raise ValueError
  ∧ _from_bits [0;1;0;0;1;0;0;1; 1;0;0;0;0;0;0;0;0] = Ok [73; 128]
  ∧ _from_bits [0;1;0;0;1;0;0;1; 2;0;0;0;0;0;0;0] = Raise ValueError
  ∧ _from_bits [0; 0; 0; 0; 0; 0; 0; 2] = Ok [2]
  ∧ _from_bits [0; 0; 0; 0; 0; 0; 0; -1] = Raise ValueError.
Proof. by vm_compute. Qed.
