(* ===== verification/Text.v ===== *)
(** * Text: [str], and the codec between [str] and [bytes]

    A Python [str] is the list of its code points.  The program converts
    between [str] and [bytes] with [message.encode("utf-8")] and
    [msg_bytes.decode("utf-8")]; both belong to the interpreter, so the
    components that call them are verified against the interface
    [TextCodec], which states what they rely on.  The second half of the
    file implements the interface with the UTF-8 algorithm in its strict
    form (surrogates refused, shortest form required) and proves the laws. *)

From Stdlib Require Import ZArith Lia ZifyNat.
From stdpp Require Import base tactics option list numbers.
From S2P Require Import Prelude PyBytes.

#[local] Open Scope Z_scope.

(** ** The interface *)

(** [str_encode s] is [s.encode("utf-8")], [None] for [UnicodeEncodeError];
    [bytes_decode b] is [b.decode("utf-8")], [None] for
    [UnicodeDecodeError]. *)
Class TextCodec := {
  str_encode : list Z → option (list Z);
  bytes_decode : list Z → option (list Z);
  str_encode_bytes_ok s b : str_encode s = Some b → bytes_ok b;
  bytes_decode_encode s b : str_encode s = Some b → bytes_decode b = Some s;
  str_encode_nil : str_encode [] = Some [];
  bytes_decode_nil : bytes_decode [] = Some [];
}.

(** ** UTF-8 *)

(** A Unicode scalar value: a code point that is not a surrogate. *)
Definition is_scalar (c : Z) : Prop :=
  0 ≤ c < 0xD800 ∨ 0xE000 ≤ c < 0x110000.

#[export] Instance is_scalar_dec c : Decision (is_scalar c).
Proof. unfold is_scalar. apply _. Defined.

(** The bytes of one code point. *)
Definition utf8_encode_cp (c : Z) : option (list Z) :=
  if c <? 0 then None
  else if c <? 0x80 then Some [c]
  else if c <? 0x800 then Some [0xC0 + c / 64; 0x80 + c `mod` 64]
  else if c <? 0x10000 then
    if (0xD800 <=? c) && (c <=? 0xDFFF) then None
    else Some [0xE0 + c / 4096; 0x80 + (c / 64) `mod` 64; 0x80 + c `mod` 64]
  else if c <? 0x110000 then
    Some [0xF0 + c / 262144; 0x80 + (c / 4096) `mod` 64;
          0x80 + (c / 64) `mod` 64; 0x80 + c `mod` 64]
  else None.

Fixpoint utf8_encode (s : list Z) : option (list Z) :=
  match s with
  | [] => Some []
  | c :: s' =>
      match utf8_encode_cp c, utf8_encode s' with
      | Some b, Some bs => Some (b ++ bs)
      | _, _ => None
      end
  end.

(** A continuation byte, 10xxxxxx. *)
Definition is_cont (b : Z) : bool := (0x80 <=? b) && (b <? 0xC0).

(** The strict decoder: a lead byte, its continuation bytes, and the checks
    that the sequence is the shortest form of a scalar value. *)
Fixpoint utf8_decode (bs : list Z) : option (list Z) :=
  match bs with
  | [] => Some []
  | b0 :: r0 =>
      if (0 <=? b0) && (b0 <? 0x80) then cons b0 <$> utf8_decode r0
      else if (0xC2 <=? b0) && (b0 <? 0xE0) then
        match r0 with
        | b1 :: r1 =>
            if is_cont b1
            then cons ((b0 - 0xC0) * 64 + (b1 - 0x80)) <$> utf8_decode r1
            else None
        | _ => None
        end
      else if (0xE0 <=? b0) && (b0 <? 0xF0) then
        match r0 with
        | b1 :: b2 :: r2 =>
            let c := (b0 - 0xE0) * 4096 + (b1 - 0x80) * 64 + (b2 - 0x80) in
            if is_cont b1 && is_cont b2 && (0x800 <=? c)
               && negb ((0xD800 <=? c) && (c <=? 0xDFFF))
            then cons c <$> utf8_decode r2
            else None
        | _ => None
        end
      else if (0xF0 <=? b0) && (b0 <? 0xF5) then
        match r0 with
        | b1 :: b2 :: b3 :: r3 =>
            let c := (b0 - 0xF0) * 262144 + (b1 - 0x80) * 4096
                     + (b2 - 0x80) * 64 + (b3 - 0x80) in
            if is_cont b1 && is_cont b2 && is_cont b3
               && (0x10000 <=? c) && (c <? 0x110000)
            then cons c <$> utf8_decode r3
            else None
        | _ => None
        end
      else None
  end.

(** ** Lemmas on UTF-8 *)

(** Decide the boolean comparisons of the goal by linear arithmetic. *)
Ltac bool_lia :=
  repeat match goal with
  | |- context [?a <? ?b] =>
      first [ rewrite (proj2 (Z.ltb_lt a b)) by lia
            | rewrite (proj2 (Z.ltb_ge a b)) by lia ]
  | |- context [?a <=? ?b] =>
      first [ rewrite (proj2 (Z.leb_le a b)) by lia
            | rewrite (proj2 (Z.leb_gt a b)) by lia ]
  end.

Lemma utf8_encode_cp_Some c : is_scalar c ↔ is_Some (utf8_encode_cp c).
Proof.
  unfold is_scalar, utf8_encode_cp. split.
  - intros Hc. repeat case_match; try done; lia.
  - intros [b Hb]. repeat case_match; try done; lia.
Qed.

Lemma utf8_encode_cp_bytes_ok c b : utf8_encode_cp c = Some b → bytes_ok b.
Proof.
  unfold utf8_encode_cp, bytes_ok. intros Hb.
  repeat case_match; simplify_eq; repeat constructor; unfold is_byte; lia.
Qed.

Lemma utf8_encode_cp_nonempty c b : utf8_encode_cp c = Some b → b ≠ [].
Proof. unfold utf8_encode_cp. intros Hb. repeat case_match; by simplify_eq. Qed.

(** One code point, encoded and followed by more bytes, decodes to that code
    point followed by the decoding of the rest. *)
Lemma utf8_decode_encode_cp c b rest :
  utf8_encode_cp c = Some b →
  utf8_decode (b ++ rest) = cons c <$> utf8_decode rest.
Proof.
  unfold utf8_encode_cp. intros Hb.
  repeat case_match; simplify_eq; cbn [app utf8_decode]; unfold is_cont;
    bool_lia; cbn [andb negb]; try (do 2 f_equal; lia).
  match goal with |- context [cons ?e <$> _] => replace e with c by lia end.
  match goal with H : _ && _ = false |- _ => by rewrite H end.
Qed.

Lemma utf8_encode_bytes_ok s b : utf8_encode s = Some b → bytes_ok b.
Proof.
  revert b; induction s as [|c s IH]; intros b Hb; simpl in Hb.
  - simplify_eq. constructor.
  - repeat case_match; simplify_eq.
    apply bytes_ok_app; eauto using utf8_encode_cp_bytes_ok.
Qed.

Lemma utf8_decode_encode s b : utf8_encode s = Some b → utf8_decode b = Some s.
Proof.
  revert b; induction s as [|c s IH]; intros b Hb; simpl in Hb.
  - by simplify_eq.
  - repeat case_match; simplify_eq.
    erewrite utf8_decode_encode_cp, IH by done. done.
Qed.

Lemma utf8_encode_Some s : Forall is_scalar s ↔ is_Some (utf8_encode s).
Proof.
  induction s as [|c s IH]; simpl.
  - split; [by eexists | constructor].
  - split.
    + intros [Hc Hs]%Forall_cons_1.
      apply utf8_encode_cp_Some in Hc as [b ->]. apply IH in Hs as [bs ->].
      by eexists.
    + intros [x Hx]. repeat case_match; simplify_eq.
      constructor; [apply utf8_encode_cp_Some | apply IH]; unfold is_Some; eauto.
Qed.

(** Python's codec as an instance of the interface. *)
#[export] Instance utf8 : TextCodec := {|
  str_encode := utf8_encode;
  bytes_decode := utf8_decode;
  str_encode_bytes_ok := utf8_encode_bytes_ok;
  bytes_decode_encode := utf8_decode_encode;
  str_encode_nil := eq_refl;
  bytes_decode_nil := eq_refl;
|}.

(** "A", e-acute, the euro sign and U+1F98A, encoded and decoded. *)
Lemma utf8_examples :
  utf8_encode [0x41; 0xE9; 0x20AC; 0x1F98A]
    = Some [0x41; 0xC3; 0xA9; 0xE2; 0x82; 0xAC; 0xF0; 0x9F; 0xA6; 0x8A]
  ∧ utf8_decode [0x41; 0xC3; 0xA9; 0xE2; 0x82; 0xAC; 0xF0; 0x9F; 0xA6; 0x8A]
    = Some [0x41; 0xE9; 0x20AC; 0x1F98A]
  ∧ utf8_encode [0xD800] = None
  ∧ utf8_decode [0xC0; 0x80] = None
  ∧ utf8_decode [0xED; 0xA0; 0x80] = None
  ∧ utf8_decode [0xE2; 0x82] = None.
Proof. repeat split; reflexivity. Qed.
