(* ===== verification/Image.v ===== *)
(** * The image canvas

    What [Image.open(path).convert("RGBA")] returns and what
    [pixels = img.load()] aliases: one object with a size and a buffer of
    RGBA pixels in row-major order.  [pixels[x, y]] is [getpixel] and
    [pixels[x, y] = p] is [putpixel]; both raise [IndexError] outside the
    image, as PIL does. *)

From Stdlib Require Import ZArith Lia ZifyNat.
From stdpp Require Import base tactics option list numbers.
From S2P Require Import Prelude PyBytes.

#[local] Open Scope Z_scope.

(** ** Definitions *)

(** The tuple [(r, g, b, a)]. *)
Record pixel : Type := RGBA { red : Z; green : Z; blue : Z; alpha : Z }.

#[export] Instance pixel_eq_dec : EqDecision pixel.
Proof. solve_decision. Defined.

(** An RGBA image: [img.size] and the pixel buffer. *)
Record image : Type := Image { width : nat; height : nat; data : list pixel }.

#[export] Instance image_eq_dec : EqDecision image.
Proof. solve_decision. Defined.

(** The buffer holds exactly [width * height] pixels. *)
Definition image_wf (img : image) : Prop :=
  length (data img) = (height img * width img)%nat.

#[export] Instance image_wf_dec img : Decision (image_wf img).
Proof. unfold image_wf. apply _. Defined.

(** Every channel is an 8-bit value. *)
Definition pixel_ok (p : pixel) : Prop :=
  is_byte (red p) ∧ is_byte (green p) ∧ is_byte (blue p) ∧ is_byte (alpha p).

#[export] Instance pixel_ok_dec p : Decision (pixel_ok p).
Proof. unfold pixel_ok. apply _. Defined.

Definition image_ok (img : image) : Prop :=
  image_wf img ∧ Forall pixel_ok (data img).

#[export] Instance image_ok_dec img : Decision (image_ok img).
Proof. unfold image_ok. apply _. Defined.

(** Position of pixel [(x, y)] in the buffer. *)
Definition offset (img : image) (x y : nat) : nat := (y * width img + x)%nat.

Definition in_bounds (img : image) (x y : nat) : Prop :=
  (x < width img ∧ y < height img)%nat.

#[export] Instance in_bounds_dec img x y : Decision (in_bounds img x y).
Proof. unfold in_bounds. apply _. Defined.

(** [pixels[x, y]]. *)
Definition getpixel (img : image) (x y : nat) : result pixel :=
  if decide (in_bounds img x y)
  then of_option IndexError (data img !! offset img x y)
  else Raise IndexError.

(** [pixels[x, y] = p]. *)
Definition putpixel (img : image) (x y : nat) (p : pixel) : result image :=
  if decide (in_bounds img x y)
  then Ok (Image (width img) (height img) (<[offset img x y := p]> (data img)))
  else Raise IndexError.

(** [Image.new("RGBA", (w, h), p)]: every pixel equal to [p]. *)
Definition new_image (w h : nat) (p : pixel) : image :=
  Image w h (replicate (h * w) p).

(** ** Lemmas *)

Section image_lemmas.
Implicit Types (img : image) (p : pixel) (x y : nat).

Lemma offset_lt img x y :
  image_wf img → in_bounds img x y → (offset img x y < length (data img))%nat.
Proof. unfold image_wf, in_bounds, offset. intros -> [??]. nia. Qed.

Lemma getpixel_Ok img x y p :
  getpixel img x y = Ok p ↔ in_bounds img x y ∧ data img !! offset img x y = Some p.
Proof.
  unfold getpixel. destruct (decide _); [|by split; [|intros [??]]].
  rewrite of_option_Ok. by split; [|intros [??]].
Qed.

(** Inside a well-formed image, reading a pixel does not fail. *)
Lemma getpixel_in_bounds img x y :
  image_wf img → in_bounds img x y → ∃ p, getpixel img x y = Ok p.
Proof.
  intros Hwf Hin. destruct (lookup_lt_is_Some_2 (data img) (offset img x y)) as [p Hp].
  { by apply offset_lt. }
  exists p. by apply getpixel_Ok.
Qed.

Lemma getpixel_out_of_bounds img x y :
  ¬ in_bounds img x y → getpixel img x y = Raise IndexError.
Proof. intros. unfold getpixel. by rewrite decide_False. Qed.

Lemma putpixel_in_bounds img x y p :
  in_bounds img x y →
  putpixel img x y p = Ok (Image (width img) (height img) (<[offset img x y := p]> (data img))).
Proof. intros. unfold putpixel. by rewrite decide_True. Qed.

Lemma putpixel_out_of_bounds img x y p :
  ¬ in_bounds img x y → putpixel img x y p = Raise IndexError.
Proof. intros. unfold putpixel. by rewrite decide_False. Qed.

Lemma putpixel_wf img img' x y p :
  putpixel img x y p = Ok img' → image_wf img → image_wf img'.
Proof.
  unfold putpixel, image_wf. destruct (decide _); intros [= <-]; simpl.
  by rewrite length_insert.
Qed.

(** Reading back the pixel just written. *)
Lemma getpixel_putpixel img img' x y p :
  image_wf img → putpixel img x y p = Ok img' → getpixel img' x y = Ok p.
Proof.
  intros Hwf Hput. unfold putpixel in Hput.
  destruct (decide _) as [Hin|]; [|done]. injection Hput as <-.
  apply getpixel_Ok; split; [done|]. simpl.
  apply list_lookup_insert_eq. by apply offset_lt.
Qed.

(** Two positions inside an image share an offset only if they are equal. *)
Lemma offset_inj img x y x' y' :
  in_bounds img x y → in_bounds img x' y' →
  offset img x y = offset img x' y' → x = x' ∧ y = y'.
Proof.
  unfold in_bounds, offset. intros [??] [??] Heq.
  assert (y = y') as ->; [|lia].
  destruct (Nat.lt_trichotomy y y') as [Hlt|[?|Hlt]]; [|done|]; exfalso;
    apply (Nat.mul_le_mono_r _ _ (width img)) in Hlt; lia.
Qed.

(** Writing a pixel leaves the others as they were. *)
Lemma getpixel_putpixel_ne img img' x y x' y' p :
  putpixel img x y p = Ok img' → (x', y') ≠ (x, y) →
  getpixel img' x' y' = getpixel img x' y'.
Proof.
  intros Hput Hne. unfold putpixel in Hput.
  destruct (decide _) as [Hin|]; [|done]. injection Hput as <-.
  unfold getpixel. change (in_bounds (Image _ _ _) x' y') with (in_bounds img x' y').
  destruct (decide (in_bounds img x' y')) as [Hin'|Hout]; [|done].
  f_equal. apply list_lookup_insert_ne.
  intros Heq. destruct (offset_inj img x y x' y') as [-> ->]; done.
Qed.

Lemma new_image_ok w h p : pixel_ok p → image_ok (new_image w h p).
Proof.
  intros Hp. split.
  - unfold image_wf. simpl. by rewrite length_replicate.
  - simpl. by apply Forall_replicate.
Qed.

End image_lemmas.
