(* ===== verification/Frame.v ===== *)
(** * The payload frame

    [_fallback_encode] builds the payload
    [_HEADER + len(body).to_bytes(4, "big") + body], where [body] is the
    message in UTF-8.  This file holds the marker, the construction with the
    two exceptions it can raise, and the layout facts the decoder relies
    on.  The text codec is a section variable: the lemmas hold for any
    implementation of [TextCodec]. *)

From Stdlib Require Import ZArith Lia ZifyNat.
From stdpp Require Import base tactics option list numbers.
From S2P Require Import Prelude PyBytes Bits Text.

#[local] Open Scope Z_scope.

(** ** Definitions *)

(** [b"IMSG\x00"]. *)
Definition _HEADER : list Z := [73; 77; 83; 71; 0].

(** [(len(_HEADER) + 4) * 8]. *)
Definition header_len_bits : nat := (length _HEADER + 4) * 8.

Section with_codec.
Context `{!TextCodec}.
Implicit Types (message body : list Z).

(** The payload of a message.  The operands are evaluated left to right: the
    first [encode] can raise [UnicodeEncodeError], then [to_bytes] can raise
    [OverflowError]. *)
Definition payload message : result (list Z) :=
  body ← of_option UnicodeEncodeError (str_encode message);
  len ← int_to_bytes (Z.of_nat (length body)) 4;
  Ok (_HEADER ++ len ++ body).

(** ** Lemmas *)

Lemma payload_inv message pl :
  payload message = Ok pl →
  ∃ body, str_encode message = Some body
          ∧ Z.of_nat (length body) < 2 ^ 32
          ∧ pl = _HEADER ++ be_bytes 4 (Z.of_nat (length body)) ++ body.
Proof.
  unfold payload. intros Hpl.
  apply bind_Ok_inv in Hpl as (body & Hbody%of_option_Ok & Hpl).
  apply bind_Ok_inv in Hpl as (len & [Hlen ->]%int_to_bytes_inv & [= <-]).
  exists body. split_and!; [done|apply Hlen|done].
Qed.

Lemma payload_Ok message body :
  str_encode message = Some body → Z.of_nat (length body) < 2 ^ 32 →
  payload message = Ok (_HEADER ++ be_bytes 4 (Z.of_nat (length body)) ++ body).
Proof.
  intros Hbody Hlen. unfold payload. rewrite Hbody. simpl.
  rewrite int_to_bytes_ok by (change (2 ^ (8 * Z.of_nat 4)) with (2 ^ 32); lia).
  done.
Qed.

Lemma payload_encode_error message :
  str_encode message = None → payload message = Raise UnicodeEncodeError.
Proof. intros Hbody. unfold payload. by rewrite Hbody. Qed.

Lemma payload_overflow message body :
  str_encode message = Some body → 2 ^ 32 ≤ Z.of_nat (length body) →
  payload message = Raise OverflowError.
Proof.
  intros Hbody Hlen. unfold payload. rewrite Hbody. simpl.
  by rewrite int_to_bytes_overflow.
Qed.

Lemma payload_bytes_ok message pl : payload message = Ok pl → bytes_ok pl.
Proof.
  intros (body & Hbody & _ & ->)%payload_inv.
  repeat (apply bytes_ok_app; split).
  - compute_done.
  - apply be_bytes_ok.
  - by eapply str_encode_bytes_ok.
Qed.

Lemma length_payload message pl body :
  payload message = Ok pl → str_encode message = Some body →
  length pl = (9 + length body)%nat.
Proof.
  intros (body' & Hbody & _ & ->)%payload_inv ?. simplify_eq.
  by rewrite !length_app, length_be_bytes.
Qed.

(** ** The framer's contract *)

(** C27: the payload of a message is the marker, the length of the UTF-8
    body as four bytes, most significant first, and the body; it exists
    exactly when the message can be encoded and the body is shorter than
    [2^32] bytes. *)
Theorem payload_layout message pl :
  payload message = Ok pl ↔
  ∃ body, str_encode message = Some body
          ∧ Z.of_nat (length body) < 2 ^ 32
          ∧ pl = _HEADER ++ be_bytes 4 (Z.of_nat (length body)) ++ body.
Proof.
  split; [apply payload_inv|]. intros (body & Hbody & Hlen & ->).
  by apply payload_Ok.
Qed.

(** C28: framing raises [UnicodeEncodeError] when the message cannot be
    encoded, [OverflowError] when the body has [2^32] bytes or more, and
    nothing else. *)
Theorem payload_raises message e :
  payload message = Raise e →
  (e = UnicodeEncodeError ∧ str_encode message = None)
  ∨ (e = OverflowError
     ∧ ∃ body, str_encode message = Some body ∧ 2 ^ 32 ≤ Z.of_nat (length body)).
Proof.
  destruct (str_encode message) as [body|] eqn:Hbody.
  - destruct (decide (Z.of_nat (length body) < 2 ^ 32)).
    + by erewrite payload_Ok.
    + erewrite payload_overflow by (done || lia). intros [= <-]. right.
      split; [done|]. exists body. split; [done|lia].
  - rewrite payload_encode_error by done. intros [= <-]. by left.
Qed.

(** A frame is nine bytes longer than the body, so its bits are the 72
    header bits and eight bits for each byte of the body. *)
Theorem payload_length message pl body :
  payload message = Ok pl → str_encode message = Some body →
  length pl = (9 + length body)%nat
  ∧ length (_to_bits pl) = (header_len_bits + 8 * length body)%nat.
Proof.
  intros Hpl Hbody. rewrite length_to_bits, (length_payload _ _ _ Hpl Hbody).
  change header_len_bits with 72%nat. lia.
Qed.

End with_codec.

(** The first nine bytes of a frame start with the marker, and the four
    bytes after the marker read back as the length the frame was built
    with. *)
Theorem frame_prefix n body :
  0 ≤ n < 2 ^ 32 →
  let pl := _HEADER ++ be_bytes 4 n ++ body in
  startswith (take 9 pl) _HEADER = true
  ∧ int_from_bytes (slice (length _HEADER) (length _HEADER + 4) (take 9 pl)) = n.
Proof.
  intros Hn pl. subst pl. split.
  - rewrite take_app_ge by (simpl; lia). apply startswith_app.
  - rewrite (app_assoc _HEADER), take_app_length'
      by (by rewrite length_app, length_be_bytes).
    rewrite slice_app_length, take_ge by (rewrite length_be_bytes; lia).
    rewrite int_from_be_bytes. apply Z.mod_small.
    by change (2 ^ (8 * Z.of_nat 4)) with (2 ^ 32).
Qed.

(** ** Concrete runs, with UTF-8 *)

Lemma payload_raises_witness :
  (UnicodeEncodeError = UnicodeEncodeError ∧ str_encode [55296] = None)
  ∨ (UnicodeEncodeError = OverflowError
     ∧ ∃ body, str_encode [55296] = Some body ∧ 2 ^ 32 ≤ Z.of_nat (length body)).
Proof. apply (payload_raises [55296] UnicodeEncodeError). reflexivity. Defined.

Lemma payload_length_witness :
  length (_HEADER ++ [0; 0; 0; 2; 195; 169]) = 11%nat
  ∧ length (_to_bits (_HEADER ++ [0; 0; 0; 2; 195; 169])) = (header_len_bits + 8 * 2)%nat.
Proof. apply (payload_length [233] _ [195; 169]); reflexivity. Defined.

Lemma frame_prefix_witness :
  let pl := _HEADER ++ be_bytes 4 258 ++ [104; 105] in
  startswith (take 9 pl) _HEADER = true
  ∧ int_from_bytes (slice (length _HEADER) (length _HEADER + 4) (take 9 pl)) = 258.
Proof. apply (frame_prefix 258 [104; 105]). lia. Defined.
