(* ===== verification/Embed.v ===== *)
(** * The pixel channel writer: the loop of [_fallback_encode]

    The loop walks the pixels row by row, [for y in range(height)] outside
    and [for x in range(width)] inside, and overwrites the low bit of red,
    green and blue with the next three bits of the iterator [it].  When the
    iterator runs dry inside the [try] block, [StopIteration] is caught: the
    pixel is written back with the channels changed so far and the function
    returns.  The loop state is the image (mutated in place through
    [pixels]) and the iterator.

    [embed_bits] is the reference definition on the pixel list;
    [encode_loop_spec] shows that the loop computes it.  [written_pixel]
    says in arithmetic what a pixel holds afterwards. *)

From Stdlib Require Import ZArith Lia ZifyNat.
From stdpp Require Import base tactics option list strings numbers.
From S2P Require Import Prelude PyBytes Bits Image.

#[local] Open Scope Z_scope.

(** ** Definitions *)

(** [next(it)]: [None] stands for [StopIteration]. *)
Definition next {A} (it : list A) : option (A * list A) :=
  match it with
  | [] => None
  | x :: it' => Some (x, it')
  end.

(** [(c & ~1) | bit]. *)
Definition set_lsb (c bit : Z) : Z := Z.lor (Z.land c (Z.lnot 1)) bit.

(** The [try] block on one pixel: the channel values when the block ends
    or when [next] raises, the iterator, and whether [StopIteration] was
    raised. *)
Definition embed_channels (p : pixel) (it : list Z) : pixel * list Z * bool :=
  match next it with
  | None => (p, it, true)
  | Some (bit, it) =>
      let r := set_lsb (red p) bit in
      match next it with
      | None => (RGBA r (green p) (blue p) (alpha p), it, true)
      | Some (bit, it) =>
          let g := set_lsb (green p) bit in
          match next it with
          | None => (RGBA r g (blue p) (alpha p), it, true)
          | Some (bit, it) =>
              let b := set_lsb (blue p) bit in
              (RGBA r g b (alpha p), it, false)
          end
      end
  end.

(** The body of the inner loop at [(x, y)]: read the pixel, run the [try]
    block, write the pixel back, and leave the function if the iterator ran
    dry. *)
Definition encode_pixel (x y : nat) (s : image * list Z) : flow (image * list Z) :=
  let '(img, it) := s in
  match getpixel img x y with
  | Raise e => Fail e
  | Ok p =>
      let '(p', it', stop) := embed_channels p it in
      match putpixel img x y p' with
      | Raise e => Fail e
      | Ok img' => if stop then Return (img', it') else Next (img', it')
      end
  end.

(** The two nested loops, over the size read before they start. *)
Definition encode_loop (img : image) (bits : list Z) : flow (image * list Z) :=
  let w := width img in
  let h := height img in
  for_each (λ y, for_each (λ x, encode_pixel x y) (range w)) (range h) (img, bits).

(** [width * height * 3]. *)
Definition capacity (img : image) : nat := width img * height img * 3.

Definition too_large : exn :=
  SteganographyError "Message is too large for this image in fallback mode.".

(** [_fallback_encode] from the bit list on: the capacity check, then the
    loop; the image that [img.save] writes is the same on both exits. *)
Definition embed_payload (img : image) (payload : list Z) : result image :=
  let bits := _to_bits payload in
  if decide (capacity img < length bits)%nat then Raise too_large
  else
    match encode_loop img bits with
    | Next (img', _) | Return (img', _) => Ok img'
    | Fail e => Raise e
    end.

(** Reference: the pixel list with the bits embedded, three per pixel. *)
Fixpoint embed_bits (ps : list pixel) (bits : list Z) : list pixel :=
  match ps with
  | [] => []
  | p :: ps' => (embed_channels p bits).1.1 :: embed_bits ps' (drop 3 bits)
  end.

(** Reference, in arithmetic: a channel after a bit was written to its
    lowest place, or left alone when the bits had run out. *)
Definition written (c : Z) (bit : option Z) : Z :=
  match bit with
  | Some bit => 2 * (c / 2) + bit
  | None => c
  end.

(** A pixel after up to three bits were written to red, green and blue. *)
Definition written_pixel (b0 b1 b2 : option Z) (p : pixel) : pixel :=
  RGBA (written (red p) b0) (written (green p) b1) (written (blue p) b2) (alpha p).

(** How a loop over [n] pixels ends: normally if the iterator held three
    bits for each, by the early return otherwise. *)
Definition loop_exit {S} (n : nat) (it : list Z) (s : S) : flow S :=
  if decide (3 * n ≤ length it)%nat then Next s else Return s.

(** Two pixels that differ at most in the low bit of red, green and blue. *)
Definition same_but_lsb (p q : pixel) : Prop :=
  red q / 2 = red p / 2 ∧ green q / 2 = green p / 2 ∧ blue q / 2 = blue p / 2
  ∧ alpha q = alpha p.

#[export] Instance same_but_lsb_dec p q : Decision (same_but_lsb p q).
Proof. unfold same_but_lsb. apply _. Defined.

(** An image of two pixels in one row, for the concrete runs. *)
Definition two_pixels : image := Image 2 1 [RGBA 255 254 0 7; RGBA 1 2 3 4].

(** Three pixels in one row: room for one byte and one bit. *)
Definition three_pixels : image :=
  Image 3 1 [RGBA 255 254 0 7; RGBA 1 2 3 4; RGBA 10 11 12 13].

(** ** One channel *)

Section set_lsb_lemmas.
Implicit Types (c bit : Z).

Lemma set_lsb_spec c bit : is_bit bit → set_lsb c bit = 2 * (c / 2) + bit.
Proof.
  intros Hb. unfold set_lsb.
  rewrite <- Z.ldiff_land. change (Z.ldiff c 1) with (Z.ldiff c (Z.ones 1)).
  rewrite Z.ldiff_ones_r by lia.
  rewrite lor_shiftl_bit by done.
  by rewrite Z.shiftr_div_pow2, Z.pow_1_r by lia.
Qed.

(** The bit that was written is the bit that is read. *)
Lemma set_lsb_land_1 c bit : is_bit bit → Z.land (set_lsb c bit) 1 = bit.
Proof.
  intros Hb. rewrite set_lsb_spec by done. apply is_bit_range in Hb.
  change 1 with (Z.ones 1) at 1. rewrite Z.land_ones, Z.pow_1_r by lia. lia.
Qed.

(** Only the low bit changes. *)
Lemma set_lsb_div2 c bit : is_bit bit → set_lsb c bit / 2 = c / 2.
Proof. intros Hb. rewrite set_lsb_spec by done. apply is_bit_range in Hb. lia. Qed.

Lemma set_lsb_is_byte c bit : is_bit bit → is_byte c → is_byte (set_lsb c bit).
Proof.
  intros Hb. rewrite set_lsb_spec by done. apply is_bit_range in Hb.
  unfold is_byte. lia.
Qed.

Lemma set_lsb_close c bit : is_bit bit → Z.abs (set_lsb c bit - c) ≤ 1.
Proof. intros Hb. rewrite set_lsb_spec by done. apply is_bit_range in Hb. lia. Qed.

(** Writing the bit a channel already has changes nothing. *)
Lemma set_lsb_same c : set_lsb c (Z.land c 1) = c.
Proof.
  rewrite set_lsb_spec by apply land_1_is_bit.
  change 1 with (Z.ones 1). rewrite Z.land_ones, Z.pow_1_r by lia. lia.
Qed.

End set_lsb_lemmas.

(** ** One pixel *)

Section embed_channels_lemmas.
Implicit Types (p : pixel) (it bits : list Z).

(** The iterator loses three items, or all it has; [StopIteration] is raised
    exactly when it held fewer than three. *)
Lemma embed_channels_spec p it :
  embed_channels p it =
  ((embed_channels p it).1.1, drop 3 it, bool_decide (length it < 3)%nat).
Proof. by destruct it as [|? [|? [|? ?]]]. Qed.

(** Only the first three bits matter to a pixel. *)
Lemma embed_channels_take3 p it :
  (embed_channels p it).1.1 = (embed_channels p (take 3 it)).1.1.
Proof. by destruct it as [|? [|? [|? ?]]]. Qed.

Lemma embed_channels_nil p : embed_channels p [] = (p, [], true).
Proof. reflexivity. Qed.

Lemma embed_channels_alpha p it : alpha (embed_channels p it).1.1 = alpha p.
Proof. by destruct it as [|? [|? [|? ?]]]. Qed.

Lemma embed_channels_ok p it :
  Forall is_bit it → pixel_ok p → pixel_ok (embed_channels p it).1.1.
Proof.
  intros Hit (?&?&?&?).
  destruct it as [|b1 [|b2 [|b3 ?]]]; simpl; unfold pixel_ok; simpl;
    repeat (apply Forall_cons_1 in Hit as [? Hit]);
    split_and!; auto using set_lsb_is_byte.
Qed.

End embed_channels_lemmas.

(** ** The reference definition *)

Section embed_bits_lemmas.
Implicit Types (p : pixel) (ps qs : list pixel) (bits : list Z).

Lemma embed_bits_nil ps : embed_bits ps [] = ps.
Proof. induction ps as [|p ps IH]; simpl; [done|]. by rewrite IH. Qed.

Lemma length_embed_bits ps bits : length (embed_bits ps bits) = length ps.
Proof. revert bits; induction ps; intros; simpl; auto. Qed.

Lemma embed_bits_app ps qs bits :
  embed_bits (ps ++ qs) bits =
  embed_bits ps bits ++ embed_bits qs (drop (3 * length ps) bits).
Proof.
  revert bits; induction ps as [|p ps IH]; intros bits; [done|].
  cbn [embed_bits app length]. rewrite IH, drop_drop.
  by replace (3 * S (length ps))%nat with (3 + 3 * length ps)%nat by lia.
Qed.

(** Pixels past the payload are untouched. *)
Lemma embed_bits_short ps qs bits :
  (length bits ≤ 3 * length ps)%nat →
  embed_bits (ps ++ qs) bits = embed_bits ps bits ++ qs.
Proof. intros. by rewrite embed_bits_app, drop_ge, embed_bits_nil. Qed.

Lemma embed_bits_alpha ps bits : alpha <$> embed_bits ps bits = alpha <$> ps.
Proof.
  revert bits; induction ps as [|p ps IH]; intros bits; simpl; [done|].
  by rewrite embed_channels_alpha, IH.
Qed.

Lemma embed_bits_ok ps bits :
  Forall is_bit bits → Forall pixel_ok ps → Forall pixel_ok (embed_bits ps bits).
Proof.
  intros Hbits Hps. revert bits Hbits.
  induction Hps as [|p ps Hp _ IH]; intros bits Hbits; simpl; constructor.
  - by apply embed_channels_ok.
  - by apply IH, Forall_drop.
Qed.

(** The image with the bits embedded is as well-formed as the image was. *)
Lemma embed_bits_wf img bits :
  image_wf img →
  image_wf (Image (width img) (height img) (embed_bits (data img) bits)).
Proof. unfold image_wf. cbn. by rewrite length_embed_bits. Qed.

(** The [try] block in arithmetic: the bits go to red, green and blue in
    this order, and a channel without a bit is left alone. *)
Lemma embed_channels_written p it :
  Forall is_bit it →
  (embed_channels p it).1.1 = written_pixel (it !! 0%nat) (it !! 1%nat) (it !! 2%nat) p.
Proof.
  intros Hit. destruct p as [r g b a].
  destruct it as [|b0 [|b1 [|b2 ?]]]; repeat (apply Forall_cons_1 in Hit as [? Hit]);
    unfold written_pixel; cbn; by rewrite ?set_lsb_spec by done.
Qed.

(** Pixel [i] receives the bits [3 * i], [3 * i + 1] and [3 * i + 2]. *)
Lemma embed_bits_lookup ps bits i :
  Forall is_bit bits →
  embed_bits ps bits !! i =
  written_pixel (bits !! (3 * i)%nat) (bits !! (3 * i + 1)%nat) (bits !! (3 * i + 2)%nat)
    <$> ps !! i.
Proof.
  revert bits i; induction ps as [|p ps IH]; intros bits i Hbits; [done|].
  destruct i as [|i]; cbn [embed_bits lookup list_lookup fmap option_fmap option_map].
  - by rewrite embed_channels_written.
  - rewrite IH, !lookup_drop by by apply Forall_drop.
    by replace (3 + 3 * i)%nat with (3 * S i)%nat by lia;
       replace (3 + (3 * i + 1))%nat with (3 * S i + 1)%nat by lia;
       replace (3 + (3 * i + 2))%nat with (3 * S i + 2)%nat by lia.
Qed.

End embed_bits_lemmas.

#[export] Hint Rewrite length_embed_bits : len.
#[export] Hint Resolve embed_bits_wf : steg.

(** ** The loop computes the reference definition *)

Section encode_loop_lemmas.
Context (w h : nat).
Implicit Types (p : pixel) (pre mid post : list pixel) (it : list Z) (x y : nat).

Lemma loop_exit_0 {S} it (s : S) : loop_exit 0 it s = Next s.
Proof. unfold loop_exit. by rewrite decide_True by lia. Qed.

(** One iteration, with the buffer split at the pixel it works on. *)
Lemma encode_pixel_at x y pre p post it :
  length pre = (y * w + x)%nat → (x < w)%nat → (y < h)%nat →
  encode_pixel x y (Image w h (pre ++ p :: post), it) =
  loop_exit 1 it (Image w h (pre ++ (embed_channels p it).1.1 :: post), drop 3 it).
Proof.
  intros Hpre Hx Hy. unfold encode_pixel, getpixel, putpixel, offset, in_bounds.
  cbn [width height data]. rewrite !decide_True by done.
  rewrite list_lookup_middle by done. cbn [of_option].
  rewrite (embed_channels_spec p it), <- Hpre.
  replace (length pre) with (length pre + 0)%nat by lia.
  rewrite insert_app_r. cbn [insert list_insert].
  unfold loop_exit. repeat case_decide; rewrite ?bool_decide_eq_true_2,
    ?bool_decide_eq_false_2 by lia; (done || lia).
Qed.

(** The inner loop over a stretch [mid] of row [y] that starts at column
    [x0]. *)
Lemma encode_row_from y mid : ∀ x0 pre post it,
  length pre = (y * w + x0)%nat → (x0 + length mid ≤ w)%nat → (y < h)%nat →
  for_each (λ x, encode_pixel x y) (seq x0 (length mid))
    (Image w h (pre ++ mid ++ post), it) =
  loop_exit (length mid) it
    (Image w h (pre ++ embed_bits mid it ++ post), drop (3 * length mid) it).
Proof.
  induction mid as [|p mid IH]; intros x0 pre post it Hpre Hx Hy.
  { by rewrite loop_exit_0. }
  cbn [length seq for_each app embed_bits] in *.
  rewrite encode_pixel_at by (done || lia). unfold loop_exit at 1.
  destruct (decide (3 * 1 ≤ length it)%nat) as [Hit|Hit].
  - rewrite (cons_middle _ pre), app_assoc, IH by (rewrite ?length_app; simpl; lia).
    rewrite <- app_assoc, drop_drop. unfold loop_exit. rewrite length_drop.
    replace (3 + 3 * length mid)%nat with (3 * S (length mid))%nat by lia.
    repeat case_decide; (done || lia).
  - rewrite (drop_ge it 3), embed_bits_nil, (drop_ge it) by lia.
    unfold loop_exit. by rewrite decide_False by lia.
Qed.

(** The outer loop over [m] rows from row [y0]. *)
Lemma encode_rows_from m : ∀ y0 mid pre post it,
  length pre = (y0 * w)%nat → length mid = (m * w)%nat → (y0 + m ≤ h)%nat →
  for_each (λ y, for_each (λ x, encode_pixel x y) (range w)) (seq y0 m)
    (Image w h (pre ++ mid ++ post), it) =
  loop_exit (length mid) it
    (Image w h (pre ++ embed_bits mid it ++ post), drop (3 * length mid) it).
Proof.
  induction m as [|m IH]; intros y0 mid pre post it Hpre Hmid Hy.
  { destruct mid; [|done]. by rewrite loop_exit_0. }
  cbn [seq for_each].
  rewrite <- (take_drop w mid) at 1 2 3.
  assert (length (take w mid) = w) as Hrow by (rewrite length_take; lia).
  assert (length (drop w mid) = (m * w)%nat) as Hrest by (rewrite length_drop; lia).
  unfold range. rewrite <- Hrow at 1.
  rewrite <- (app_assoc (take w mid)), encode_row_from by lia.
  rewrite embed_bits_app, length_app, Hrow. unfold loop_exit at 1.
  destruct (decide (3 * w ≤ length it)%nat) as [Hit|Hit].
  - rewrite (app_assoc pre), IH by (rewrite ?length_app, ?length_embed_bits; lia).
    rewrite <- !app_assoc, drop_drop, Hrest. unfold loop_exit. rewrite length_drop.
    replace (3 * w + 3 * (m * w))%nat with (3 * (w + m * w))%nat by lia.
    replace (length mid) with (w + m * w)%nat by lia.
    repeat case_decide; (done || lia).
  - rewrite (drop_ge it (3 * w)), embed_bits_nil, (drop_ge it (3 * length mid)),
      <- app_assoc by lia.
    replace (length mid) with (w + m * w)%nat by lia.
    unfold loop_exit. by rewrite decide_False by lia.
Qed.

End encode_loop_lemmas.

(** The loop embeds the bits as [embed_bits] does, and ends by the early
    return exactly when the bits run out before the pixels do. *)
Lemma encode_loop_spec img bits :
  image_wf img →
  encode_loop img bits =
  loop_exit (length (data img)) bits
    (Image (width img) (height img) (embed_bits (data img) bits),
     drop (3 * length (data img)) bits).
Proof.
  intros Hwf. destruct img as [w h ps]. unfold image_wf in Hwf. cbn in *.
  unfold encode_loop, range. cbn [width height].
  pose proof (encode_rows_from w h h 0 ps [] [] bits) as Hloop.
  rewrite !app_nil_r in Hloop. apply Hloop; (done || lia).
Qed.

(** ** What embedding changes and what it keeps *)

Lemma same_but_lsb_refl p : same_but_lsb p p.
Proof. by unfold same_but_lsb. Qed.

Lemma embed_channels_same_but_lsb p it :
  Forall is_bit it → same_but_lsb p (embed_channels p it).1.1.
Proof.
  intros Hit. destruct it as [|b1 [|b2 [|b3 ?]]]; unfold same_but_lsb; simpl;
    repeat (apply Forall_cons_1 in Hit as [? Hit]);
    rewrite ?set_lsb_div2 by done; done.
Qed.

Lemma embed_bits_same_but_lsb ps bits :
  Forall is_bit bits → Forall2 same_but_lsb ps (embed_bits ps bits).
Proof.
  revert bits; induction ps as [|p ps IH]; intros bits Hbits; simpl; constructor.
  - by apply embed_channels_same_but_lsb.
  - by apply IH, Forall_drop.
Qed.

(** ** [embed_payload] *)

Section embed_payload_lemmas.
Implicit Types (img : image) (pl : list Z).

(** More bits than [capacity]: the error is raised before the loop runs. *)
Lemma embed_payload_too_large img pl :
  (capacity img < length (_to_bits pl))%nat → embed_payload img pl = Raise too_large.
Proof. intros. unfold embed_payload. by rewrite decide_True. Qed.

(** At most [capacity] bits: the result is the image with the bits
    embedded; no exception escapes the loop. *)
Lemma embed_payload_fits img pl :
  image_wf img → (length (_to_bits pl) ≤ capacity img)%nat →
  embed_payload img pl =
  Ok (Image (width img) (height img) (embed_bits (data img) (_to_bits pl))).
Proof.
  intros Hwf Hfit. unfold embed_payload. rewrite decide_False by lia.
  rewrite encode_loop_spec by done. unfold loop_exit. by case_decide.
Qed.

Lemma embed_payload_inv img pl img' :
  image_wf img → embed_payload img pl = Ok img' →
  (length (_to_bits pl) ≤ capacity img)%nat
  ∧ img' = Image (width img) (height img) (embed_bits (data img) (_to_bits pl)).
Proof.
  intros Hwf Hemb.
  destruct (decide (capacity img < length (_to_bits pl))%nat) as [Hlt|Hge].
  - by rewrite embed_payload_too_large in Hemb.
  - rewrite embed_payload_fits in Hemb by (done || lia). split; [lia|congruence].
Qed.

End embed_payload_lemmas.

(** ** The writer's contract *)

Section writer_theorems.
Implicit Types (img : image) (pl bits : list Z) (c bit : Z).

(** C5: from the frame on, [_fallback_encode] raises the capacity error when
    the frame has more than [width * height * 3] bits and otherwise leaves
    the image whose pixels are those of [embed_bits]; no other exception
    leaves the loop. *)
Theorem embed_payload_spec img pl :
  image_wf img →
  embed_payload img pl =
  if decide (capacity img < length pl * 8)%nat then Raise too_large
  else Ok (Image (width img) (height img) (embed_bits (data img) (_to_bits pl))).
Proof.
  intros Hwf. destruct (decide _) as [Hbig|Hfit].
  - apply embed_payload_too_large. by rewrite length_to_bits.
  - apply embed_payload_fits; [done|]. rewrite length_to_bits. lia.
Qed.

(** C23: the nested loop raises nothing: every pixel it reads and writes is
    inside the image.  It ends by the early return exactly when the bits run
    out before the pixels do, and has then consumed all of them. *)
Theorem encode_loop_safe img bits :
  image_wf img →
  ∃ img', image_wf img' ∧
    encode_loop img bits =
    if decide (capacity img ≤ length bits)%nat
    then Next (img', drop (capacity img) bits) else Return (img', []).
Proof.
  intros Hwf. exists (Image (width img) (height img) (embed_bits (data img) bits)).
  split; [by apply embed_bits_wf|]. rewrite encode_loop_spec by done.
  unfold loop_exit, capacity.
  replace (width img * height img * 3)%nat with (3 * length (data img))%nat
    by (rewrite Hwf; lia).
  destruct (decide _); [done|]. by rewrite drop_ge by lia.
Qed.

(** C24: [(c & ~1) | bit] on a channel value in 0..255 and a bit stays in
    0..255, has [bit] as its low bit, keeps the seven high bits and differs
    from [c] by one at most. *)
Theorem set_lsb_byte c bit :
  is_byte c → is_bit bit →
  is_byte (set_lsb c bit) ∧ Z.land (set_lsb c bit) 1 = bit
  ∧ set_lsb c bit / 2 = c / 2 ∧ Z.abs (set_lsb c bit - c) ≤ 1.
Proof.
  intros Hc Hbit.
  auto using set_lsb_is_byte, set_lsb_land_1, set_lsb_div2, set_lsb_close.
Qed.

(** C14: the pixel at [(x, y)] of the encoded image is the cover's pixel with
    bit [3 * (y * width + x)] of the frame in the lowest place of red, the
    next bit in that of green and the one after in that of blue; the other
    seven bits of each channel and alpha are as they were, and a channel for
    which the frame has no bit is unchanged. *)
Theorem embed_payload_getpixel img pl img' x y p :
  image_wf img → embed_payload img pl = Ok img' → getpixel img x y = Ok p →
  getpixel img' x y =
  Ok (written_pixel (_to_bits pl !! (3 * (y * width img + x))%nat)
                    (_to_bits pl !! (3 * (y * width img + x) + 1)%nat)
                    (_to_bits pl !! (3 * (y * width img + x) + 2)%nat) p).
Proof.
  intros Hwf [_ ->]%embed_payload_inv [Hin Hp]%getpixel_Ok; [|done].
  apply getpixel_Ok. split; [done|]. unfold offset in *. cbn [data width].
  by rewrite embed_bits_lookup, Hp by apply to_bits_are_bits.
Qed.

End writer_theorems.

(** ** Concrete runs *)

Lemma embed_payload_spec_witness :
  embed_payload two_pixels [] = Ok two_pixels
  ∧ embed_payload two_pixels [170] = Raise too_large.
Proof.
  split; [apply (embed_payload_spec two_pixels [])
         |apply (embed_payload_spec two_pixels [170])]; reflexivity.
Defined.

Lemma encode_loop_safe_witness :
  ∃ img', image_wf img' ∧
    encode_loop two_pixels [0; 1; 1; 0] =
    if decide (capacity two_pixels ≤ length [0; 1; 1; 0])%nat
    then Next (img', drop (capacity two_pixels) [0; 1; 1; 0]) else Return (img', []).
Proof. apply (encode_loop_safe two_pixels). reflexivity. Defined.

Lemma set_lsb_byte_witness :
  is_byte (set_lsb 255 0) ∧ Z.land (set_lsb 255 0) 1 = 0
  ∧ set_lsb 255 0 / 2 = 255 / 2 ∧ Z.abs (set_lsb 255 0 - 255) ≤ 1.
Proof. apply set_lsb_byte; compute_done. Defined.

(** The byte 170 is 1, 0, 1, 0, 1, 0, 1, 0: the third pixel receives 1 and 0
    in red and green and keeps its blue. *)
Lemma embed_payload_getpixel_witness :
  getpixel (Image 3 1 [RGBA 255 254 1 7; RGBA 0 3 2 4; RGBA 11 10 12 13]) 2 0 =
  Ok (written_pixel (_to_bits [170] !! 6%nat) (_to_bits [170] !! 7%nat)
                    (_to_bits [170] !! 8%nat) (RGBA 10 11 12 13))
  ∧ written_pixel (_to_bits [170] !! 6%nat) (_to_bits [170] !! 7%nat)
                  (_to_bits [170] !! 8%nat) (RGBA 10 11 12 13) = RGBA 11 10 12 13.
Proof.
  split; [|reflexivity].
  apply (embed_payload_getpixel three_pixels [170] _ 2 0); reflexivity.
Defined.
