(* ===== verification/Extract.v ===== *)
(** * The pixel channel reader and the frame parser: [_fallback_decode]

    [read_bits] is the first loop of [_fallback_decode]: it walks the pixels
    in the order the writer used and appends the low bit of red, green and
    blue to the list [bits].  [parse_bits] is the rest of the function: it
    regroups the first 72 bits into nine bytes, checks the marker, reads the
    length, regroups the message bits and decodes them.  The function
    returns [""] (the empty [str]) both when the marker is absent and when
    the bytes are not valid UTF-8.

    [lsbs] is the reference definition of what the reader yields;
    [channel] names the channel a bit position belongs to. *)

From Stdlib Require Import ZArith Lia ZifyNat.
From stdpp Require Import base tactics option list numbers.
From S2P Require Import Prelude PyBytes Bits Text Image Frame.

#[local] Open Scope Z_scope.

(** ** Definitions *)

(** [[r & 1, g & 1, b & 1]]. *)
Definition pixel_lsbs (p : pixel) : list Z :=
  [Z.land (red p) 1; Z.land (green p) 1; Z.land (blue p) 1].

(** The body of the inner loop at [(x, y)]: [bits.extend(...)]. *)
Definition decode_pixel (img : image) (x y : nat) (bits : list Z) : flow (list Z) :=
  match getpixel img x y with
  | Raise e => Fail e
  | Ok p => Next (bits ++ pixel_lsbs p)
  end.

(** The two nested loops, started with [bits = []]. *)
Definition read_bits (img : image) : result (list Z) :=
  let w := width img in
  let h := height img in
  match for_each (λ y, for_each (λ x, decode_pixel img x y) (range w)) (range h) [] with
  | Next bits | Return bits => Ok bits
  | Fail e => Raise e
  end.

(** Reference: the low bits of a pixel list, three per pixel. *)
Definition lsbs (ps : list pixel) : list Z := ps ≫= pixel_lsbs.

(** The channel a bit position belongs to: red, green, blue in turn. *)
Definition channel (k : nat) (p : pixel) : Z :=
  match k with
  | 0%nat => red p
  | 1%nat => green p
  | _ => blue p
  end.

(** An image of two pixels in one row, for the concrete runs. *)
Definition two_by_one : image := Image 2 1 [RGBA 255 254 0 7; RGBA 1 2 3 4].

Section with_codec.
Context `{!TextCodec}.

(** [_fallback_decode] from the bit list on. *)
Definition parse_bits (bits : list Z) : result (list Z) :=
  header_bytes ← _from_bits (slice 0 header_len_bits bits);
  if negb (startswith header_bytes _HEADER) then Ok []
  else
    let msg_len :=
      int_from_bytes (slice (length _HEADER) (length _HEADER + 4) header_bytes) in
    let msg_bits :=
      slice header_len_bits (header_len_bits + Z.to_nat msg_len * 8) bits in
    msg_bytes ← _from_bits msg_bits;
    match bytes_decode msg_bytes with
    | Some s => Ok s
    | None => Ok []
    end.

(** The text that [parse_bits] returns for the message bytes [bs]: their
    decoding, or [""] when they are not valid. *)
Definition text_of (bs : list Z) : list Z := default [] (bytes_decode bs).

(** [_fallback_decode] on an opened image. *)
Definition decode_image (img : image) : result (list Z) :=
  read_bits img ≫= parse_bits.

End with_codec.

(** ** The reader *)

Section reader_lemmas.
Implicit Types (p : pixel) (ps qs : list pixel) (img : image).

Lemma lsbs_app ps qs : lsbs (ps ++ qs) = lsbs ps ++ lsbs qs.
Proof. apply bind_app. Qed.

Lemma lsbs_cons p ps : lsbs (p :: ps) = pixel_lsbs p ++ lsbs ps.
Proof. reflexivity. Qed.

Lemma length_lsbs ps : length (lsbs ps) = (3 * length ps)%nat.
Proof.
  induction ps as [|p ps IH]; [done|].
  rewrite lsbs_cons, length_app, IH. simpl. lia.
Qed.

Lemma lsbs_are_bits ps : Forall is_bit (lsbs ps).
Proof.
  induction ps as [|p ps IH]; [constructor|].
  rewrite lsbs_cons. apply Forall_app. split; [|done].
  repeat (constructor; [apply land_1_is_bit|]). constructor.
Qed.

Lemma pixel_lsbs_lookup p k :
  (k < 3)%nat → pixel_lsbs p !! k = Some (channel k p `mod` 2).
Proof.
  intros Hk. do 3 (destruct k as [|k]; [cbn; f_equal; apply land_1_mod|]). lia.
Qed.

(** Bit [j] is the low bit of channel [j mod 3] of pixel [j / 3]. *)
Lemma lsbs_lookup ps j :
  lsbs ps !! j = (λ p, channel (j `mod` 3) p `mod` 2) <$> ps !! (j / 3)%nat.
Proof.
  revert j; induction ps as [|p ps IH]; intros j; [done|].
  rewrite lsbs_cons. destruct (decide (j < 3)%nat) as [Hj|Hj].
  - rewrite lookup_app_l, pixel_lsbs_lookup by (simpl; lia).
    by rewrite Nat.div_small, Nat.mod_small by done.
  - rewrite lookup_app_r, IH by (simpl; lia). cbn [length pixel_lsbs].
    replace (j / 3)%nat with (S ((j - 3) / 3)) by lia.
    by replace ((j - 3) `mod` 3)%nat with (j `mod` 3)%nat by lia.
Qed.

(** The inner loop over [n] pixels of row [y] from column [x0]. *)
Lemma decode_row_from img y n : ∀ x0 acc,
  image_wf img → (x0 + n ≤ width img)%nat → (y < height img)%nat →
  for_each (λ x, decode_pixel img x y) (seq x0 n) acc =
  Next (acc ++ lsbs (take n (drop (offset img x0 y) (data img)))).
Proof.
  induction n as [|n IH]; intros x0 acc Hwf Hx Hy.
  { by rewrite app_nil_r. }
  destruct (getpixel_in_bounds img x0 y) as [p Hp]; [done|split; lia|].
  cbn [seq for_each]. unfold decode_pixel at 1. rewrite Hp.
  apply getpixel_Ok in Hp as [_ Hp].
  rewrite IH, (drop_S _ _ _ Hp) by (done || lia).
  replace (offset img (S x0) y) with (S (offset img x0 y)) by (unfold offset; lia).
  cbn [take]. by rewrite lsbs_cons, app_assoc.
Qed.

(** The outer loop over [m] rows from row [y0]. *)
Lemma decode_rows_from img m : ∀ y0 acc,
  image_wf img → (y0 + m ≤ height img)%nat →
  for_each (λ y, for_each (λ x, decode_pixel img x y) (range (width img)))
    (seq y0 m) acc =
  Next (acc ++ lsbs (take (m * width img) (drop (y0 * width img) (data img)))).
Proof.
  induction m as [|m IH]; intros y0 acc Hwf Hy.
  { by rewrite app_nil_r. }
  cbn [seq for_each]. unfold range at 1.
  rewrite decode_row_from, IH by (done || lia). unfold offset.
  rewrite <- app_assoc, <- lsbs_app. do 3 f_equal.
  rewrite Nat.add_0_r, <- (take_take_drop _ (width img) (m * width img)), drop_drop.
  do 3 f_equal. lia.
Qed.

(** The reader yields the low bits of all the pixels, in buffer order, and
    does not fail on a well-formed image. *)
Lemma read_bits_spec img : image_wf img → read_bits img = Ok (lsbs (data img)).
Proof.
  intros Hwf. unfold read_bits, range.
  rewrite decode_rows_from by (done || lia).
  rewrite drop_0, take_ge; [done|]. rewrite Hwf. lia.
Qed.

End reader_lemmas.

#[export] Hint Rewrite length_lsbs : len.
#[export] Hint Resolve lsbs_are_bits : steg.

(** ** The parser *)

Section parser_lemmas.
Context `{!TextCodec}.
Implicit Types (bits tail rest : list Z) (body message : list Z).

(** The bits of a nine-byte header that carries the marker and the length
    [n], followed by any [tail]: the parser regroups the first [n * 8] bits
    of the tail, however many the tail really has. *)
Lemma parse_bits_header n tail :
  0 ≤ n < 2 ^ 32 → Forall is_bit (take (Z.to_nat n * 8) tail) →
  parse_bits (_to_bits (_HEADER ++ be_bytes 4 n) ++ tail) =
  Ok (text_of (pack_bits (take (Z.to_nat n * 8) tail))).
Proof.
  intros Hn Htail. unfold parse_bits.
  rewrite slice_0, take_app_length' by done.
  rewrite from_bits_pack, pack_to_bits
    by first [apply to_bits_are_bits
             |apply bytes_ok_app; split; [compute_done|apply be_bytes_ok]].
  cbn [mbind result_bind]. rewrite startswith_app. cbn [negb].
  rewrite slice_app_length, take_ge by (by rewrite length_be_bytes).
  rewrite int_from_be_bytes, Z.mod_small by done.
  change header_len_bits with (length (_to_bits (_HEADER ++ be_bytes 4 n))).
  rewrite slice_app_length, from_bits_pack by done.
  cbn [mbind result_bind]. unfold text_of. by destruct (bytes_decode _).
Qed.

(** A frame followed by anything parses to its message. *)
Lemma parse_bits_payload message pl rest :
  payload message = Ok pl → parse_bits (_to_bits pl ++ rest) = Ok message.
Proof.
  intros (body & Hbody & Hlen & ->)%payload_inv.
  rewrite app_assoc, to_bits_app, <- app_assoc.
  assert (take (Z.to_nat (Z.of_nat (length body)) * 8) (_to_bits body ++ rest)
          = _to_bits body) as Htake.
  { apply take_app_length'. rewrite length_to_bits. lia. }
  rewrite parse_bits_header, Htake by (rewrite ?Htake; auto with steg; lia).
  rewrite pack_to_bits by (by eapply str_encode_bytes_ok).
  unfold text_of. by erewrite bytes_decode_encode.
Qed.

(** C29: a header that declares more bytes than the carrier holds is not
    rejected: the bytes that are there are decoded and returned. *)
Theorem parse_bits_truncated n body :
  0 ≤ n < 2 ^ 32 → bytes_ok body → Z.of_nat (length body) ≤ n →
  parse_bits (_to_bits (_HEADER ++ be_bytes 4 n ++ body)) = Ok (text_of body).
Proof.
  intros Hn Hbody Hlen. rewrite app_assoc, to_bits_app.
  assert (take (Z.to_nat n * 8) (_to_bits body) = _to_bits body) as Htake.
  { apply take_ge. rewrite length_to_bits. lia. }
  rewrite parse_bits_header, Htake by (rewrite ?Htake; auto with steg).
  by rewrite pack_to_bits.
Qed.

(** On bits, the parser raises nothing. *)
Lemma parse_bits_total bits : Forall is_bit bits → ∃ s, parse_bits bits = Ok s.
Proof.
  intros Hbits. unfold parse_bits, slice.
  rewrite from_bits_pack by auto using Forall_take, Forall_drop.
  cbn [mbind result_bind]. destruct (negb _); [by eexists|].
  rewrite from_bits_pack by auto using Forall_take, Forall_drop.
  cbn [mbind result_bind]. destruct (bytes_decode _); by eexists.
Qed.

(** Without the marker in the first five bytes the result is [""]. *)
Lemma parse_bits_no_marker bits :
  Forall is_bit bits →
  startswith (pack_bits (take header_len_bits bits)) _HEADER = false →
  parse_bits bits = Ok [].
Proof.
  intros Hbits Hno. unfold parse_bits.
  rewrite slice_0, from_bits_pack by by apply Forall_take.
  cbn [mbind result_bind]. by rewrite Hno.
Qed.

(** A carrier of fewer than forty bits cannot hold the marker: the
    parser returns the empty string and raises nothing. *)
Theorem parse_bits_short bits :
  Forall is_bit bits → (length bits < 40)%nat → parse_bits bits = Ok [].
Proof.
  intros Hbits Hlen. apply parse_bits_no_marker; [done|].
  apply startswith_short. rewrite length_pack_bits, length_take.
  change (length _HEADER) with 5%nat. lia.
Qed.

End parser_lemmas.

(** ** A canvas of one colour *)

Section uniform_lemmas.
Implicit Types (p : pixel) (n : nat).

Lemma lsbs_replicate_S n p :
  lsbs (replicate (S n) p) = pixel_lsbs p ++ lsbs (replicate n p).
Proof. done. Qed.

(** The low bits of a one-colour canvas repeat with period three; the
    marker's first two bytes, [01001001 01001101], do not. *)
Lemma uniform_no_marker n p :
  startswith (pack_bits (take header_len_bits (lsbs (replicate n p)))) _HEADER = false.
Proof.
  change header_len_bits with 72%nat. destruct (decide (n < 6)%nat) as [Hn|Hn].
  { apply startswith_short.
    rewrite length_pack_bits, length_take, length_lsbs, length_replicate.
    change (length _HEADER) with 5%nat. lia. }
  do 6 (destruct n as [|n]; [lia|]). rewrite !lsbs_replicate_S. unfold pixel_lsbs.
  generalize (lsbs (replicate n p)).
  generalize (land_1_is_bit (red p)), (land_1_is_bit (green p)), (land_1_is_bit (blue p)).
  generalize (Z.land (red p) 1), (Z.land (green p) 1), (Z.land (blue p) 1).
  intros a b c Ha Hb Hc rest. bits_to_range.
  cbn [app take pack_bits]. apply startswith_cons2. lia.
Qed.

End uniform_lemmas.

(** ** The whole decoder on an image *)

Section decode_image_lemmas.
Context `{!TextCodec}.
Implicit Types (img : image).

Lemma decode_image_spec img :
  image_wf img → decode_image img = parse_bits (lsbs (data img)).
Proof. intros Hwf. unfold decode_image. by rewrite read_bits_spec. Qed.

(** Decoding a well-formed image raises nothing. *)
Lemma decode_image_total img : image_wf img → ∃ s, decode_image img = Ok s.
Proof.
  intros Hwf. rewrite decode_image_spec by done.
  apply parse_bits_total, lsbs_are_bits.
Qed.

(** An image of one colour carries no message: whatever its size and
    colour, decoding raises nothing and returns the empty string. *)
Lemma decode_image_uniform w h p : decode_image (new_image w h p) = Ok [].
Proof.
  rewrite decode_image_spec by (unfold image_wf; cbn; by rewrite length_replicate).
  apply parse_bits_no_marker; [apply lsbs_are_bits|]. apply uniform_no_marker.
Qed.

End decode_image_lemmas.

(** ** The reader's and the parser's contract *)

Section extract_theorems.
Context `{!TextCodec}.
Implicit Types (img : image) (bits body : list Z).

(** C8: the read loop raises nothing on a well-formed image and yields the
    low bits of red, green and blue of every pixel in row-major order,
    [width * height * 3] bits in all. *)
Theorem read_bits_capacity img :
  image_wf img →
  read_bits img = Ok (lsbs (data img))
  ∧ length (lsbs (data img)) = (width img * height img * 3)%nat
  ∧ Forall is_bit (lsbs (data img)).
Proof.
  intros Hwf. split_and!; [by apply read_bits_spec| |apply lsbs_are_bits].
  rewrite length_lsbs, Hwf. lia.
Qed.

(** C30: a frame whose body is not valid text decodes to the empty string,
    the value that also stands for a carrier without the marker. *)
Theorem parse_bits_invalid_text body rest :
  bytes_ok body → Z.of_nat (length body) < 2 ^ 32 → bytes_decode body = None →
  parse_bits (_to_bits (_HEADER ++ be_bytes 4 (Z.of_nat (length body)) ++ body) ++ rest)
  = Ok [].
Proof.
  intros Hbody Hlen Hdec. rewrite app_assoc, to_bits_app, <- app_assoc.
  assert (take (Z.to_nat (Z.of_nat (length body)) * 8) (_to_bits body ++ rest)
          = _to_bits body) as Htake.
  { apply take_app_length'. rewrite length_to_bits. lia. }
  rewrite parse_bits_header, Htake by (rewrite ?Htake; auto with steg; lia).
  rewrite pack_to_bits by done. unfold text_of. by rewrite Hdec.
Qed.

(** The low bit of channel [k] (red, green, blue) of the pixel at
    [(x, y)] is bit [3 * (y * width + x) + k] of what the read loop yields. *)
Theorem read_bits_getpixel img bits x y p k :
  image_wf img → read_bits img = Ok bits → getpixel img x y = Ok p → (k < 3)%nat →
  bits !! (3 * (y * width img + x) + k)%nat = Some (channel k p `mod` 2).
Proof.
  intros Hwf Hbits [_ Hp]%getpixel_Ok Hk. rewrite read_bits_spec in Hbits by done.
  injection Hbits as <-. unfold offset in Hp. rewrite lsbs_lookup.
  replace ((3 * (y * width img + x) + k) / 3)%nat with (y * width img + x)%nat by lia.
  replace ((3 * (y * width img + x) + k) `mod` 3)%nat with k by lia.
  by rewrite Hp.
Qed.

End extract_theorems.

(** ** Concrete runs, with UTF-8 *)

Lemma read_bits_capacity_witness :
  read_bits two_by_one = Ok [1; 0; 0; 1; 0; 1]
  ∧ length (lsbs (data two_by_one)) = 6%nat
  ∧ Forall is_bit (lsbs (data two_by_one)).
Proof. apply (read_bits_capacity two_by_one). reflexivity. Defined.

Lemma parse_bits_truncated_witness :
  parse_bits (_to_bits (_HEADER ++ be_bytes 4 5 ++ [104; 105])) = Ok (text_of [104; 105])
  ∧ text_of [104; 105] = [104; 105].
Proof.
  split; [|by vm_compute].
  apply (parse_bits_truncated 5 [104; 105]); [lia | compute_done | simpl; lia].
Defined.

Lemma parse_bits_invalid_text_witness :
  parse_bits (_to_bits (_HEADER ++ be_bytes 4 1 ++ [255]) ++ [1; 1; 0]) = Ok [].
Proof.
  apply (parse_bits_invalid_text [255] [1; 1; 0]); [compute_done | simpl; lia | reflexivity].
Defined.

Lemma parse_bits_short_witness : parse_bits [0; 1; 0; 0; 1; 0; 0; 1] = Ok [].
Proof. apply parse_bits_short; [compute_done | simpl; lia]. Defined.

Lemma read_bits_getpixel_witness :
  [1; 0; 0; 1; 0; 1] !! (3 * (0 * width two_by_one + 1) + 2)%nat
  = Some (channel 2 (RGBA 1 2 3 4) `mod` 2).
Proof. apply (read_bits_getpixel two_by_one _ 1 0); [reflexivity..|lia]. Defined.
