(* ===== verification/Codec.v ===== *)
(** * The codec: [_fallback_encode] and [_fallback_decode] on an image

    [encode_image] is [_fallback_encode] between [Image.open] and
    [img.save]: build the payload, check the capacity, run the writer.
    [Extract.decode_image] is [_fallback_decode] after [Image.open].  This
    file relates the two: what the reader sees after the writer ran, and
    the round trip of a message through an image. *)

From Stdlib Require Import ZArith Lia ZifyNat.
From stdpp Require Import base tactics option list strings numbers.
From S2P Require Import Prelude PyBytes Bits Text Image Frame Embed Extract.

#[local] Open Scope Z_scope.

(** ** Definitions *)

Section with_codec.
Context `{!TextCodec}.

(** [_fallback_encode] on an opened image; the result is what [img.save]
    receives. *)
Definition encode_image (img : image) (message : list Z) : result image :=
  payload message ≫= embed_payload img.

End with_codec.

(** *** Data for the concrete runs *)

(** An 8 x 4 cover of one colour: 96 bits of capacity, exactly the frame of
    a three-byte message. *)
Definition cover_8x4 : image := new_image 8 4 (RGBA 20 40 60 255).

(** ["abc"]. *)
Definition abc : list Z := [97; 98; 99].

(** The cover with the frame of ["abc"] embedded. *)
Definition stego_8x4 : image :=
  Image 8 4 (embed_bits (data cover_8x4) (_to_bits (_HEADER ++ [0; 0; 0; 3] ++ abc))).

(** A 6 x 5 cover: 90 bits of capacity. *)
Definition cover_6x5 : image := new_image 6 5 (RGBA 21 40 61 255).

(** ** Reading after writing *)

Section read_after_write.
Implicit Types (p : pixel) (ps : list pixel) (bits : list Z).

Lemma pixel_lsbs_embed_channels p bits :
  Forall is_bit bits →
  pixel_lsbs (embed_channels p bits).1.1 =
  take 3 bits ++ drop (length bits) (pixel_lsbs p).
Proof.
  intros Hbits. destruct bits as [|b1 [|b2 [|b3 ?]]];
    repeat (apply Forall_cons_1 in Hbits as [? Hbits]);
    unfold pixel_lsbs; cbn -[set_lsb Z.land];
    by rewrite ?set_lsb_land_1, ?drop_nil by done.
Qed.

(** The reader gets back the bits the writer embedded, then the low bits the
    pixels already had. *)
Lemma lsbs_embed_bits ps bits :
  Forall is_bit bits →
  lsbs (embed_bits ps bits) =
  take (3 * length ps) bits ++ drop (length bits) (lsbs ps).
Proof.
  revert bits; induction ps as [|p ps IH]; intros bits Hbits.
  { change (lsbs []) with (@nil Z). by rewrite drop_nil. }
  cbn [embed_bits]. rewrite !lsbs_cons, pixel_lsbs_embed_channels, IH
    by auto using Forall_drop.
  rewrite length_drop. cbn [length].
  destruct (decide (3 ≤ length bits)%nat) as [Hge|Hlt].
  - rewrite (drop_ge (pixel_lsbs p)), drop_app_ge by (simpl; lia).
    replace (3 * S (length ps))%nat with (3 + 3 * length ps)%nat by lia.
    rewrite <- take_take_drop, app_nil_r, <- app_assoc. done.
  - rewrite (drop_ge bits 3), take_nil, drop_app_le by (simpl; lia).
    rewrite !take_ge by lia.
    replace (length bits - 3)%nat with 0%nat by lia.
    by rewrite drop_0, <- app_assoc.
Qed.

(** The first [length bits] bits read are the bits written. *)
Lemma lsbs_embed_bits_prefix ps bits :
  Forall is_bit bits → (length bits ≤ 3 * length ps)%nat →
  lsbs (embed_bits ps bits) = bits ++ drop (length bits) (lsbs ps).
Proof. intros. by rewrite lsbs_embed_bits, take_ge. Qed.

Lemma embed_channels_lsbs p n :
  (embed_channels p (take n (pixel_lsbs p))).1.1 = p.
Proof.
  destruct p as [r g b a].
  destruct n as [|[|[|n]]]; unfold pixel_lsbs; cbn -[set_lsb Z.land];
    by rewrite ?set_lsb_same.
Qed.

(** Embedding a prefix of the bits an image already carries changes
    nothing. *)
Lemma embed_bits_lsbs ps n : embed_bits ps (take n (lsbs ps)) = ps.
Proof.
  revert n; induction ps as [|p ps IH]; intros n; [done|].
  cbn [embed_bits]. rewrite lsbs_cons, skipn_firstn_comm, drop_app_length', IH by done.
  f_equal. rewrite embed_channels_take3, take_take, take_app_le
    by (change (length (pixel_lsbs p)) with 3%nat; lia).
  apply embed_channels_lsbs.
Qed.

End read_after_write.

(** ** Encoding an image *)

Section encode_image_lemmas.
Context `{!TextCodec}.
Implicit Types (img : image) (message pl : list Z).

Lemma capacity_wf img : image_wf img → capacity img = (3 * length (data img))%nat.
Proof. unfold capacity, image_wf. intros ->. lia. Qed.

(** What a successful call returns. *)
Lemma encode_image_inv img message img' :
  image_wf img → encode_image img message = Ok img' →
  ∃ pl, payload message = Ok pl
        ∧ (length pl * 8 ≤ capacity img)%nat
        ∧ img' = Image (width img) (height img)
                   (embed_bits (data img) (_to_bits pl)).
Proof.
  intros Hwf (pl & Hpl & Hemb)%bind_Ok_inv.
  apply embed_payload_inv in Hemb as [Hfit ->]; [|done].
  rewrite length_to_bits in Hfit. eauto.
Qed.

(** A payload of at most [capacity] bits is embedded. *)
Lemma encode_image_fits img message pl :
  image_wf img → payload message = Ok pl → (length pl * 8 ≤ capacity img)%nat →
  encode_image img message =
  Ok (Image (width img) (height img) (embed_bits (data img) (_to_bits pl))).
Proof.
  intros Hwf Hpl Hfit. unfold encode_image. rewrite Hpl. cbn [mbind result_bind].
  apply embed_payload_fits; [done|]. by rewrite length_to_bits.
Qed.

(** A payload of more than [capacity] bits is refused. *)
Lemma encode_image_too_large img message pl :
  payload message = Ok pl → (capacity img < length pl * 8)%nat →
  encode_image img message = Raise too_large.
Proof.
  intros Hpl Hbig. unfold encode_image. rewrite Hpl. cbn [mbind result_bind].
  apply embed_payload_too_large. by rewrite length_to_bits.
Qed.

(** The exceptions that can leave [encode_image]; [IndexError] is not among
    them. *)
Lemma encode_image_raises img message e :
  image_wf img → encode_image img message = Raise e →
  e = UnicodeEncodeError ∨ e = OverflowError ∨ e = too_large.
Proof.
  intros Hwf. unfold encode_image, payload.
  destruct (str_encode message) as [body|]; cbn; [|intros [= <-]; auto].
  unfold int_to_bytes. destruct (decide _); cbn; [|intros [= <-]; auto].
  unfold embed_payload. destruct (decide _); [intros [= <-]; auto|].
  rewrite encode_loop_spec by done. unfold loop_exit. by destruct (decide _).
Qed.

(** The result is well formed. *)
Lemma encode_image_wf img message img' :
  image_wf img → encode_image img message = Ok img' → image_wf img'.
Proof.
  intros Hwf (pl & _ & _ & ->)%encode_image_inv; [|done]. by apply embed_bits_wf.
Qed.

(** The result is well formed and its channels are in 0..255. *)
Lemma encode_image_ok img message img' :
  image_ok img → encode_image img message = Ok img' → image_ok img'.
Proof.
  intros [Hwf Hpx] (pl & Hpl & Hfit & ->)%encode_image_inv; [|done].
  split; [by apply embed_bits_wf|]. apply embed_bits_ok; auto with steg.
Qed.

(** The low bits of the result: the frame, then the low bits the cover had
    from there on. *)
Lemma lsbs_embed_payload img pl :
  image_wf img → (length pl * 8 ≤ capacity img)%nat →
  lsbs (embed_bits (data img) (_to_bits pl)) =
  _to_bits pl ++ drop (length pl * 8) (lsbs (data img)).
Proof.
  intros Hwf Hfit. rewrite capacity_wf in Hfit by done.
  rewrite lsbs_embed_bits, length_to_bits by auto with steg.
  by rewrite take_ge by (rewrite length_to_bits; lia).
Qed.

(** Decoding an image in which a frame was embedded returns the message of
    the frame. *)
Lemma decode_image_embed img message pl :
  image_wf img → payload message = Ok pl → (length pl * 8 ≤ capacity img)%nat →
  decode_image (Image (width img) (height img) (embed_bits (data img) (_to_bits pl)))
  = Ok message.
Proof.
  intros Hwf Hpl Hfit. rewrite decode_image_spec by by apply embed_bits_wf.
  cbn [data]. rewrite lsbs_embed_payload by done. by apply parse_bits_payload.
Qed.

End encode_image_lemmas.

(** ** The round trip *)

Section codec_theorems.
Context `{!TextCodec}.
Implicit Types (img : image) (message : list Z).

(** C2: the message that [_fallback_encode] embedded in an image is the
    message that [_fallback_decode] returns for the resulting image, for
    every well-formed image and every message for which encoding succeeds. *)
Theorem decode_encode_image img message img' :
  image_wf img → encode_image img message = Ok img' →
  decode_image img' = Ok message.
Proof.
  intros Hwf (pl & Hpl & Hfit & ->)%encode_image_inv; [|done].
  by apply decode_image_embed.
Qed.

(** C3: encoding succeeds exactly when the message can be framed and the
    frame has at most [width * height * 3] bits: at the boundary it
    succeeds, one bit more and it fails. *)
Theorem encode_image_Ok_iff img message :
  image_wf img →
  (∃ img', encode_image img message = Ok img') ↔
  (∃ pl, payload message = Ok pl ∧ (length pl * 8 ≤ capacity img)%nat).
Proof.
  intros Hwf. split.
  - intros [img' (pl & ? & ? & _)%encode_image_inv]; eauto.
  - intros (pl & Hpl & Hfit). eexists. by apply encode_image_fits.
Qed.

(** C6: encoding keeps the size of the image, the validity of every channel
    and the alpha channel, and changes red, green and blue in the low bit
    at most. *)
Theorem encode_image_preserves img message img' :
  image_ok img → encode_image img message = Ok img' →
  image_ok img' ∧ width img' = width img ∧ height img' = height img
  ∧ Forall2 same_but_lsb (data img) (data img').
Proof.
  intros Hok Henc. split; [by eapply encode_image_ok|].
  destruct Hok as [Hwf _].
  apply encode_image_inv in Henc as (pl & Hpl & Hfit & ->); [|done].
  cbn [width height data]. split_and!; [done..|].
  apply embed_bits_same_but_lsb; auto with steg.
Qed.

(** C21: the pixels after the last one that received a bit are unchanged. *)
Theorem encode_image_untouched img message img' pl k :
  image_wf img → encode_image img message = Ok img' →
  payload message = Ok pl → (length pl * 8 ≤ 3 * k)%nat →
  drop k (data img') = drop k (data img).
Proof.
  intros Hwf (pl' & Hpl & Hfit & ->)%encode_image_inv Hpl' Hk; [|done].
  assert (pl' = pl) as -> by congruence. cbn [data].
  rewrite <- (take_drop k (data img)) at 1.
  destruct (decide (k ≤ length (data img))%nat).
  - rewrite embed_bits_short by (rewrite length_to_bits, length_take; lia).
    rewrite drop_app_length'; [done|]. rewrite length_embed_bits, length_take. lia.
  - rewrite !drop_ge; [done|lia|]. rewrite length_embed_bits, take_drop. lia.
Qed.

(** C20: the low bits of the encoded image, read in pixel order, are the bits
    of the frame followed by the low bits the cover had at those places. *)
Theorem encode_image_lsbs img message img' pl :
  image_wf img → encode_image img message = Ok img' → payload message = Ok pl →
  lsbs (data img') = _to_bits pl ++ drop (length pl * 8) (lsbs (data img)).
Proof.
  intros Hwf (pl' & Hpl & Hfit & ->)%encode_image_inv Hpl'; [|done].
  assert (pl' = pl) as -> by congruence. by apply lsbs_embed_payload.
Qed.

(** C22: encoding into an image the message it already carries returns the
    same image. *)
Theorem encode_image_idempotent img message img' :
  image_wf img → encode_image img message = Ok img' →
  encode_image img' message = Ok img'.
Proof.
  intros Hwf (pl & Hpl & Hfit & ->)%encode_image_inv; [|done].
  erewrite encode_image_fits; [|by apply embed_bits_wf|done|done].
  cbn [width height data]. do 2 f_equal.
  etransitivity; [|apply (embed_bits_lsbs _ (length (_to_bits pl)))].
  by rewrite lsbs_embed_payload, take_app_length.
Qed.

End codec_theorems.

(** ** Concrete runs *)

Lemma decode_encode_image_witness :
  encode_image cover_8x4 abc = Ok stego_8x4 ∧ decode_image stego_8x4 = Ok abc.
Proof.
  split; [by vm_compute|].
  apply (decode_encode_image cover_8x4); [compute_done | by vm_compute].
Defined.

Lemma encode_image_Ok_iff_witness :
  (∃ img', encode_image cover_8x4 abc = Ok img') ↔
  (∃ pl, payload abc = Ok pl ∧ (length pl * 8 ≤ capacity cover_8x4)%nat).
Proof. apply encode_image_Ok_iff. compute_done. Defined.

Lemma encode_image_preserves_witness :
  image_ok stego_8x4 ∧ width stego_8x4 = width cover_8x4
  ∧ height stego_8x4 = height cover_8x4
  ∧ Forall2 same_but_lsb (data cover_8x4) (data stego_8x4).
Proof.
  apply (encode_image_preserves cover_8x4 abc); [compute_done | by vm_compute].
Defined.

Lemma encode_image_untouched_witness :
  ∃ img', encode_image cover_8x4 [97] = Ok img'
          ∧ drop 27 (data img') = drop 27 (data cover_8x4).
Proof.
  eexists. split; [by vm_compute|].
  apply (encode_image_untouched cover_8x4 [97] _ (_HEADER ++ [0; 0; 0; 1; 97]));
    [compute_done | by vm_compute | by vm_compute | compute_done].
Defined.

Lemma encode_image_lsbs_witness :
  lsbs (data stego_8x4) =
  _to_bits (_HEADER ++ [0; 0; 0; 3] ++ abc) ++ drop (12 * 8) (lsbs (data cover_8x4)).
Proof.
  apply (encode_image_lsbs cover_8x4 abc stego_8x4);
    [compute_done | by vm_compute | by vm_compute].
Defined.

Lemma encode_image_idempotent_witness : encode_image stego_8x4 abc = Ok stego_8x4.
Proof.
  apply (encode_image_idempotent cover_8x4 abc); [compute_done | by vm_compute].
Defined.

(** One byte more than the cover can hold is refused before any pixel is
    written. *)
Lemma encode_image_one_byte_more :
  encode_image cover_8x4 [97; 98; 99; 100] = Raise too_large.
Proof. by vm_compute. Qed.
