(* ===== verification/Utils.v ===== *)
(** * utils.py: [ensure_png], [is_lossless_image], [LOSSLESS_EXTS]

    The two functions work on [pathlib.Path] values.  A path is modelled as
    pathlib keeps it: its root ([""], ["/"] or ["//"]) and its components.
    [name],
    [suffix], [stem], [with_name] and [with_suffix] follow pathlib's POSIX
    flavour; [Path_of_str] is the constructor [Path(s)] and [Path_str] is
    [str(p)].  Strings are strings of bytes and [lower] is [str.lower]
    restricted to ASCII letters. *)

From Stdlib Require Import ZArith Lia ZifyNat Ascii String.
From stdpp Require Import base tactics option list strings numbers countable gmap.
From S2P Require Import Prelude.

#[local] Open Scope string_scope.

(** ** Strings *)

(** [c.lower()] on one ASCII character. *)
Definition lower_ascii (c : ascii) : ascii :=
  let n := nat_of_ascii c in
  if decide (65 ≤ n ≤ 90)%nat then ascii_of_nat (n + 32) else c.

(** [s.lower()]. *)
Fixpoint lower (s : string) : string :=
  match s with
  | "" => ""
  | String c s' => String (lower_ascii c) (lower s')
  end.

(** [(s[:i], s[i:])] for [i = s.rfind(".")], [None] when [s] holds no dot. *)
Fixpoint rsplit_dot (s : string) : option (string * string) :=
  match s with
  | "" => None
  | String c s' =>
      match rsplit_dot s' with
      | Some (pre, suf) => Some (String c pre, suf)
      | None => if decide (c = "."%char) then Some ("", s) else None
      end
  end.

(** [s.split("/")]. *)
Fixpoint split_slash (s : string) : list string :=
  match s with
  | "" => [""]
  | String c s' =>
      if decide (c = "/"%char) then "" :: split_slash s'
      else
        match split_slash s' with
        | w :: ws => String c w :: ws
        | [] => [String c ""]
        end
  end.

(** ["/".join(parts)]. *)
Fixpoint join_slash (parts : list string) : string :=
  match parts with
  | [] => ""
  | [w] => w
  | w :: ws => w +:+ "/" +:+ join_slash ws
  end.

(** ** Paths *)

Record Path : Type := MkPath { root : string; parts : list string }.

#[export] Instance Path_eq_dec : EqDecision Path.
Proof. solve_decision. Defined.

#[export] Instance Path_countable : Countable Path.
Proof.
  apply (inj_countable' (λ p, (root p, parts p)) (λ '(r, ps), MkPath r ps)).
  by intros [].
Defined.

(** [s[:1] == "/"]. *)
Definition starts_slash (s : string) : bool :=
  match s with
  | String c _ => bool_decide (c = "/"%char)
  | "" => false
  end.

(** [s[1:]]. *)
Definition tail_str (s : string) : string :=
  match s with
  | String _ s' => s'
  | "" => ""
  end.

(** The root of the path [s] names: ["/"] when [s] starts with a slash,
    except that exactly two leading slashes are kept as ["//"]. *)
Definition root_of (s : string) : string :=
  if negb (starts_slash s) then ""
  else if negb (starts_slash (tail_str s)) || starts_slash (tail_str (tail_str s))
  then "/"
  else "//".

(** [Path(s)]: empty components and ["."] are dropped. *)
Definition Path_of_str (s : string) : Path :=
  MkPath (root_of s) (filter (λ w, w ≠ "" ∧ w ≠ ".") (split_slash s)).

(** [str(p)]. *)
Definition Path_str (p : Path) : string :=
  if decide (root p = "") then
    match parts p with
    | [] => "."
    | _ => join_slash (parts p)
    end
  else root p +:+ join_slash (parts p).

(** An argument of type [str | Path]. *)
Inductive pathlike : Type :=
| PStr (s : string)
| PPath (p : Path).

(** [Path(x)] for such an argument. *)
Definition to_Path (x : pathlike) : Path :=
  match x with
  | PStr s => Path_of_str s
  | PPath p => p
  end.

(** [p.name]: the last component, [""] if there is none. *)
Definition name (p : Path) : string := default "" (last (parts p)).

(** The dot of [nm] that starts its suffix splits it in two, if there is such
    a dot: it is the last one, it is not the first character and not the
    last. *)
Definition split_suffix (nm : string) : option (string * string) :=
  match rsplit_dot nm with
  | Some (pre, suf) =>
      if decide (pre ≠ "" ∧ 1 < String.length suf)%nat then Some (pre, suf)
      else None
  | None => None
  end.

(** [p.suffix]. *)
Definition suffix (p : Path) : string :=
  match split_suffix (name p) with
  | Some (_, suf) => suf
  | None => ""
  end.

(** [p.stem]. *)
Definition stem (p : Path) : string :=
  match split_suffix (name p) with
  | Some (pre, _) => pre
  | None => name p
  end.

(** [p.with_name(nm)] for a valid [nm]; [ValueError] if [p] has no name. *)
Definition with_name (p : Path) (nm : string) : result Path :=
  if decide (name p = "") then Raise ValueError
  else Ok (MkPath (root p) (removelast (parts p) ++ [nm])).

(** [p.with_suffix(sfx)] for a valid [sfx]. *)
Definition with_suffix (p : Path) (sfx : string) : result Path :=
  with_name p (stem p +:+ sfx).

(** ** The module *)

(** [{".png", ".bmp", ".tiff", ".tif"}]. *)
Definition LOSSLESS_EXTS : gset string := {[ ".png"; ".bmp"; ".tiff"; ".tif" ]}.

Definition ensure_png (path : pathlike) : result Path :=
  let p := to_Path path in
  if decide (lower (suffix p) ≠ ".png") then with_suffix p ".png"
  else Ok p.

Definition is_lossless_image (path : pathlike) : bool :=
  bool_decide (lower (suffix (to_Path path)) ∈ LOSSLESS_EXTS).

(** A path as pathlib builds it: the root is one of the three, and no
    component is empty, is ["."] or contains a slash. *)
Definition component_ok (w : string) : Prop :=
  w ≠ "" ∧ w ≠ "." ∧ split_slash w = [w].

Definition root_ok (r : string) : Prop := r = "" ∨ r = "/" ∨ r = "//".

Definition Path_ok (p : Path) : Prop :=
  root_ok (root p) ∧ Forall component_ok (parts p).

(** ** Lemmas on strings *)

Lemma app_String c s t : String c s +:+ t = String c (s +:+ t).
Proof. reflexivity. Qed.

Lemma app_empty_l s : "" +:+ s = s.
Proof. reflexivity. Qed.

Lemma app_eq_empty s t : s +:+ t = "" → s = "" ∧ t = "".
Proof. destruct s; [done|]. by rewrite app_String. Qed.

(** The last dot of [st ++ ".png"] is the one before [png]. *)
Lemma rsplit_dot_png st : rsplit_dot (st +:+ ".png") = Some (st, ".png").
Proof.
  induction st as [|c st IH]; [done|].
  rewrite app_String. cbn [rsplit_dot]. by rewrite IH.
Qed.

Lemma rsplit_dot_app s pre suf : rsplit_dot s = Some (pre, suf) → s = pre +:+ suf.
Proof.
  revert pre suf; induction s as [|c s IH]; intros pre suf; cbn [rsplit_dot]; [done|].
  destruct (rsplit_dot s) as [[pre' suf']|].
  - intros [= <- <-]. rewrite app_String. f_equal. by apply IH.
  - destruct (decide _); [|done]. by intros [= <- <-].
Qed.

Lemma split_suffix_png st : st ≠ "" → split_suffix (st +:+ ".png") = Some (st, ".png").
Proof.
  intros Hst. unfold split_suffix. rewrite rsplit_dot_png.
  rewrite decide_True; [done|]. split; [done|]. simpl. lia.
Qed.

Lemma split_suffix_pre nm pre suf : split_suffix nm = Some (pre, suf) → pre ≠ "".
Proof.
  unfold split_suffix. destruct (rsplit_dot nm) as [[pre' suf']|]; [|done].
  destruct (decide _) as [[? ?]|]; [|done]. by intros [= <- <-].
Qed.

(** ** Splitting and joining *)

Section split_lemmas.
Implicit Types (s w : string) (ws : list string) (c : ascii).

Lemma split_slash_nonempty s : split_slash s ≠ [].
Proof.
  destruct s as [|c s]; [done|]. cbn [split_slash].
  destruct (decide _); [done|]. by destruct (split_slash s).
Qed.

(** A string is one component when it holds no slash. *)
Lemma split_slash_singleton c s :
  split_slash (String c s) = [String c s] ↔ c ≠ "/"%char ∧ split_slash s = [s].
Proof.
  cbn [split_slash]. pose proof (split_slash_nonempty s) as Hne.
  destruct (decide (c = "/"%char)) as [->|Hc].
  - split; [by intros [=]|by intros [? _]].
  - destruct (split_slash s) as [|w ws]; [done|]. split.
    + by intros [= -> ->].
    + by intros [_ [= -> ->]].
Qed.

Lemma split_slash_app s w :
  split_slash (s +:+ w) = [s +:+ w] ↔ split_slash s = [s] ∧ split_slash w = [w].
Proof.
  induction s as [|c s IH]; [by intuition|].
  rewrite app_String, !split_slash_singleton, IH. tauto.
Qed.

(** Splitting after a first component. *)
Lemma split_slash_cons w s :
  split_slash w = [w] → split_slash (w +:+ "/" +:+ s) = w :: split_slash s.
Proof.
  induction w as [|c w IH]; [done|].
  intros [Hc Hw]%split_slash_singleton. rewrite app_String. cbn [split_slash].
  by rewrite decide_False, IH by done.
Qed.

Lemma split_join_slash ws :
  Forall (λ w, split_slash w = [w]) ws → ws ≠ [] → split_slash (join_slash ws) = ws.
Proof.
  induction 1 as [|w ws Hw Hws IH]; [done|]. intros _.
  destruct ws as [|w' ws]; [done|].
  change (join_slash (w :: w' :: ws)) with (w +:+ "/" +:+ join_slash (w' :: ws)).
  by rewrite split_slash_cons, IH.
Qed.

(** The components that [split_slash] returns hold no slash. *)
Lemma split_slash_components s : Forall (λ w, split_slash w = [w]) (split_slash s).
Proof.
  induction s as [|c s IH]; [by repeat constructor|]. cbn [split_slash].
  destruct (decide _) as [|Hc]; [by constructor|].
  destruct (split_slash s) as [|w ws].
  { repeat constructor. by apply split_slash_singleton. }
  apply Forall_cons_1 in IH as [Hw Hws]. constructor; [|done].
  by apply split_slash_singleton.
Qed.

End split_lemmas.

(** ** Lemmas on paths *)

Section path_lemmas.
Implicit Types (p q : Path) (x : pathlike) (nm : string).

Lemma name_snoc r ws nm : name (MkPath r (ws ++ [nm])) = nm.
Proof. unfold name. cbn [parts]. by rewrite last_snoc. Qed.

Lemma stem_nonempty p : name p ≠ "" → stem p ≠ "".
Proof.
  intros Hnm. unfold stem. destruct (split_suffix (name p)) as [[pre suf]|] eqn:Hs; [|done].
  by eapply split_suffix_pre.
Qed.

Lemma with_name_Ok p nm q :
  with_name p nm = Ok q ↔
  name p ≠ "" ∧ q = MkPath (root p) (removelast (parts p) ++ [nm]).
Proof.
  unfold with_name. destruct (decide _); [by split; [|intros [??]]|].
  split; [by intros [= <-]|by intros [_ ->]].
Qed.

Lemma with_suffix_png p q :
  with_suffix p ".png" = Ok q → suffix q = ".png" ∧ stem q = stem p.
Proof.
  unfold with_suffix. intros [Hnm ->]%with_name_Ok.
  pose proof (split_suffix_png (stem p) (stem_nonempty p Hnm)) as Hs.
  rewrite <- (name_snoc (root p) (removelast (parts p)) (stem p +:+ ".png")) in Hs at 1.
  split; [unfold suffix|unfold stem at 1]; by rewrite Hs.
Qed.

(** *** Paths and their strings *)

Lemma filter_component_ok ws :
  Forall component_ok ws → filter (λ w, w ≠ "" ∧ w ≠ ".") ws = ws.
Proof.
  induction 1 as [|w ws (Hne & Hdot & _) _ IH]; [done|].
  by rewrite filter_cons_True, IH.
Qed.

Lemma component_ok_no_slash ws :
  Forall component_ok ws → Forall (λ w, split_slash w = [w]) ws.
Proof. intros Hws. eapply Forall_impl; [done|]. by intros w (_ & _ & ?). Qed.

Lemma root_of_ok s : root_ok (root_of s).
Proof. unfold root_ok, root_of. repeat case_match; auto. Qed.

(** Pathlib builds well-formed paths. *)
Lemma Path_of_str_ok s : Path_ok (Path_of_str s).
Proof.
  split; [apply root_of_ok|]. unfold Path_of_str. cbn [parts]. apply Forall_forall.
  intros w [[Hne Hdot] Hw]%list_elem_of_filter. split_and!; [done..|].
  by apply (proj1 (Forall_forall _ _) (split_slash_components s)).
Qed.

Lemma to_Path_PStr_ok s : Path_ok (to_Path (PStr s)).
Proof. apply Path_of_str_ok. Qed.

(** The components joined do not start with a slash. *)
Lemma join_slash_head ws :
  Forall component_ok ws →
  join_slash ws = "" ∨ ∃ c s, join_slash ws = String c s ∧ c ≠ "/"%char.
Proof.
  intros [|w ws' (Hne & _ & Hw) _]; [by left|right].
  destruct w as [|c w]; [done|]. apply split_slash_singleton in Hw as [Hc _].
  exists c. destruct ws'; cbn [join_slash]; rewrite ?app_String; eauto.
Qed.

(** The root is read back from the string of a path. *)
Lemma root_of_join r ws :
  root_ok r → Forall component_ok ws → root_of (r +:+ join_slash ws) = r.
Proof.
  intros Hr [->|(c & s & -> & Hc)]%join_slash_head.
  - by destruct Hr as [->|[->| ->]].
  - destruct Hr as [->|[->| ->]]; unfold root_of;
      rewrite ?app_String, ?app_empty_l; cbn [tail_str starts_slash];
      by rewrite (bool_decide_false (c = _)) by done.
Qed.

Lemma split_slash_root r s :
  root_ok r →
  filter (λ w, w ≠ "" ∧ w ≠ ".") (split_slash (r +:+ s)) =
  filter (λ w, w ≠ "" ∧ w ≠ ".") (split_slash s).
Proof.
  intros [->|[->| ->]]; [done|..]; rewrite ?app_String, ?app_empty_l;
    cbn [split_slash]; rewrite ?decide_True by done;
    by rewrite !filter_cons_False by (by intros [? _]).
Qed.

Lemma Path_parts_of_join ws :
  Forall component_ok ws →
  filter (λ w, w ≠ "" ∧ w ≠ ".") (split_slash (join_slash ws)) = ws.
Proof.
  intros Hws. destruct ws as [|w ws]; [done|].
  rewrite split_join_slash by (done || by apply component_ok_no_slash).
  by apply filter_component_ok.
Qed.

Lemma Forall_removelast {A} (P : A → Prop) (l : list A) :
  Forall P l → Forall P (removelast l).
Proof.
  induction 1 as [|x l Hx Hl IH]; [done|]. cbn [removelast].
  destruct l; by constructor.
Qed.

(** [with_name] keeps a path well formed when the new name is a component. *)
Lemma with_name_ok p nm q :
  Path_ok p → component_ok nm → with_name p nm = Ok q → Path_ok q.
Proof.
  intros [Hr Hp] Hnm [_ ->]%with_name_Ok. split; [done|]. cbn [parts].
  apply Forall_app. split; [by apply Forall_removelast|by apply Forall_singleton].
Qed.

(** The stem of a well-formed path holds no slash. *)
Lemma stem_no_slash p : Path_ok p → split_slash (stem p) = [stem p].
Proof.
  intros [_ Hp]. assert (split_slash (name p) = [name p]) as Hnm.
  { unfold name. destruct (last (parts p)) as [w|] eqn:Hw; [|done].
    apply last_Some_elem_of in Hw.
    by destruct (proj1 (Forall_forall _ _) Hp w Hw) as (_ & _ & ?). }
  unfold stem, split_suffix. destruct (rsplit_dot (name p)) as [[pre suf]|] eqn:Hs; [|done].
  destruct (decide _); [|done]. apply rsplit_dot_app in Hs. rewrite Hs in Hnm.
  by apply split_slash_app in Hnm as [? _].
Qed.

Lemma ensure_png_ok x q : Path_ok (to_Path x) → ensure_png x = Ok q → Path_ok q.
Proof.
  intros Hp. unfold ensure_png. destruct (decide _); [|by intros [= <-]].
  apply with_name_ok; [done|]. split_and!.
  - by intros [_ [=]]%app_eq_empty.
  - destruct (stem (to_Path x)) as [|? [|? ?]]; done.
  - apply split_slash_app. split; [by apply stem_no_slash|done].
Qed.

End path_lemmas.

(** ** Lemmas on [ensure_png] and [is_lossless_image] *)

Section ensure_png_lemmas.
Implicit Types (p q : Path) (x : pathlike).

(** The path returned has the suffix [.png], in some letter case. *)
Lemma ensure_png_suffix x q : ensure_png x = Ok q → lower (suffix q) = ".png".
Proof.
  unfold ensure_png. destruct (decide _) as [Hne|Heq].
  - by intros [-> _]%with_suffix_png.
  - intros [= <-]. by apply dec_stable.
Qed.

(** A path that has the suffix is returned as it is. *)
Lemma ensure_png_id x :
  lower (suffix (to_Path x)) = ".png" → ensure_png x = Ok (to_Path x).
Proof. intros Heq. unfold ensure_png. by rewrite decide_False by (by intros ?). Qed.

(** C31: the path that [ensure_png] returns has the suffix [.png] in some
    letter case, and so passes [is_lossless_image]. *)
Theorem ensure_png_lossless x q :
  ensure_png x = Ok q →
  lower (suffix q) = ".png" ∧ is_lossless_image (PPath q) = true.
Proof.
  intros Hq%ensure_png_suffix. split; [done|]. unfold is_lossless_image.
  cbn [to_Path]. rewrite Hq. by apply bool_decide_eq_true.
Qed.

(** C34: [ensure_png] changes the last component only, and of it only the
    suffix: the root, the directories and the stem are kept. *)
Theorem ensure_png_parent x q :
  ensure_png x = Ok q →
  root q = root (to_Path x)
  ∧ removelast (parts q) = removelast (parts (to_Path x))
  ∧ stem q = stem (to_Path x).
Proof.
  unfold ensure_png. destruct (decide _) as [Hne|Heq]; [|by intros [= <-]].
  intros Hq. destruct (with_suffix_png _ _ Hq) as [_ Hstem].
  apply with_name_Ok in Hq as [_ ->]. cbn [root parts].
  split_and!; [done| |done]. by rewrite removelast_last.
Qed.

(** C32: [ensure_png] returns its argument as it is exactly when the suffix
    is [.png] in some letter case: [out.PNG] is not renamed, every other
    path is changed or refused. *)
Theorem ensure_png_unchanged_iff x :
  ensure_png x = Ok (to_Path x) ↔ lower (suffix (to_Path x)) = ".png".
Proof. split; [apply ensure_png_suffix|apply ensure_png_id]. Qed.

(** [ensure_png] fails exactly on a path without a name, with [ValueError]. *)
Lemma ensure_png_Raise x e :
  ensure_png x = Raise e ↔ e = ValueError ∧ name (to_Path x) = "".
Proof.
  unfold ensure_png, with_suffix, with_name, suffix.
  destruct (decide (name (to_Path x) = "")) as [Hnm|Hnm].
  - rewrite Hnm. cbn. split; [by intros [= <-]|by intros [-> _]].
  - destruct (decide (lower _ ≠ ".png")); split; (done || by intros [_ ?]).
Qed.

(** C33: [ensure_png] returns a path exactly when the path has a name; for
    a path without one, such as [""], ["."] and ["/"], [with_suffix] raises
    [ValueError]. *)
Theorem ensure_png_Ok_iff x :
  (∃ q, ensure_png x = Ok q) ↔ name (to_Path x) ≠ "".
Proof.
  destruct (ensure_png x) as [q|e] eqn:Hx.
  - split; [|by eauto]. intros _ Hnm.
    pose proof (proj2 (ensure_png_Raise x ValueError) (conj eq_refl Hnm)). congruence.
  - apply ensure_png_Raise in Hx as [_ Hnm]. split; [by intros [??]|done].
Qed.

(** A path is a lossless image by its name exactly when its suffix,
    lower-cased, is one of [.png], [.bmp], [.tiff] and [.tif]. *)
Theorem is_lossless_image_spec x :
  is_lossless_image x = true ↔
  lower (suffix (to_Path x)) ∈ [".png"; ".bmp"; ".tiff"; ".tif"].
Proof.
  unfold is_lossless_image, LOSSLESS_EXTS.
  rewrite bool_decide_eq_true, !elem_of_union, !elem_of_singleton, !elem_of_cons,
    elem_of_nil. tauto.
Qed.

End ensure_png_lemmas.

(** ** [str(p)] and [Path(s)] *)

Section path_str_theorems.
Implicit Types (p q : Path) (x : pathlike) (s : string).

(** The string of a well-formed path is not empty. *)
Lemma Path_str_nonempty p : Path_ok p → Path_str p ≠ "".
Proof.
  destruct p as [r ws]. intros [_ Hws]. unfold Path_str. cbn [root parts] in *.
  destruct (decide (r = "")) as [->|Hr]; [|by intros [? _]%app_eq_empty].
  destruct Hws as [|w ws (Hw & _) _]; [done|]. destruct w; [done|]. by destruct ws.
Qed.

(** Building a path from the string of a well-formed path gives the path
    back: [Path(str(p)) == p]. *)
Lemma Path_of_str_str p : Path_ok p → Path_of_str (Path_str p) = p.
Proof.
  destruct p as [r ws]. intros [Hr Hws]. unfold Path_str, Path_of_str.
  cbn [root parts] in *. destruct (decide (r = "")) as [->|Hne].
  - destruct ws as [|w ws]; [done|].
    pose proof (root_of_join "" (w :: ws) Hr Hws) as Hroot.
    rewrite app_empty_l in Hroot. by rewrite Hroot, Path_parts_of_join.
  - by rewrite root_of_join, split_slash_root, Path_parts_of_join.
Qed.

(** The string of the path that [ensure_png] returns for a string names the
    same path, and [ensure_png] leaves it as it is. *)
Lemma ensure_png_str s q :
  ensure_png (PStr s) = Ok q →
  ensure_png (PStr (Path_str q)) = Ok q ∧ Path_of_str (Path_str q) = q.
Proof.
  intros Hq. assert (Path_of_str (Path_str q) = q) as Hstr.
  { apply Path_of_str_str. eapply ensure_png_ok; [|done]. apply to_Path_PStr_ok. }
  split; [|done]. rewrite <- Hstr at 2. apply ensure_png_id. cbn [to_Path].
  rewrite Hstr. by eapply ensure_png_suffix.
Qed.

(** [Path(s)] is normalised: writing it as a string and reading the
    string again gives the same path, for every string [s]. *)
Theorem Path_of_str_normal s : Path_of_str (Path_str (Path_of_str s)) = Path_of_str s.
Proof. apply Path_of_str_str, Path_of_str_ok. Qed.

(** Two well-formed paths with the same string are the same path. *)
Theorem Path_str_inj p q : Path_ok p → Path_ok q → Path_str p = Path_str q → p = q.
Proof.
  intros Hp Hq Hpq. rewrite <- (Path_of_str_str p), <- (Path_of_str_str q) by done.
  by rewrite Hpq.
Qed.

End path_str_theorems.

(** ** Concrete runs *)

Lemma Path_str_inj_witness : MkPath "" ["a"; "b.png"] = Path_of_str "a//b.png".
Proof.
  apply Path_str_inj; [|apply Path_of_str_ok|by vm_compute].
  split; [by left|by repeat constructor].
Defined.

(** Exactly two leading slashes are kept; one, three or more are one. *)
Lemma Path_of_str_slashes :
  Path_str (Path_of_str "//srv/x.png") = "//srv/x.png"
  ∧ Path_str (Path_of_str "///srv//x.png") = "/srv/x.png"
  ∧ Path_str (Path_of_str "/srv/./x.png/") = "/srv/x.png"
  ∧ Path_str (Path_of_str "") = ".".
Proof. by vm_compute. Qed.

Lemma ensure_png_lossless_witness :
  lower (suffix (Path_of_str "a/photo.v2.png")) = ".png"
  ∧ is_lossless_image (PPath (Path_of_str "a/photo.v2.png")) = true.
Proof. apply (ensure_png_lossless (PStr "a/photo.v2.webp")). by vm_compute. Defined.

Lemma ensure_png_parent_witness :
  root (Path_of_str "/tmp/x.png") = root (to_Path (PStr "/tmp/x.bmp"))
  ∧ removelast (parts (Path_of_str "/tmp/x.png"))
    = removelast (parts (to_Path (PStr "/tmp/x.bmp")))
  ∧ stem (Path_of_str "/tmp/x.png") = stem (to_Path (PStr "/tmp/x.bmp")).
Proof. apply (ensure_png_parent (PStr "/tmp/x.bmp")). by vm_compute. Defined.

(** Paths without a name. *)
Lemma ensure_png_no_name :
  ensure_png (PStr "") = Raise ValueError ∧ ensure_png (PStr "/") = Raise ValueError
  ∧ ensure_png (PStr "./") = Raise ValueError.
Proof. by vm_compute. Qed.

(** The letter case of an existing suffix is kept; a name that starts with
    a dot has no suffix and gets one. *)
Lemma ensure_png_examples :
  ensure_png (PStr "out.PNG") = Ok (Path_of_str "out.PNG")
  ∧ ensure_png (PStr "x/y.tar.gz") = Ok (Path_of_str "x/y.tar.png")
  ∧ ensure_png (PStr ".hidden") = Ok (Path_of_str ".hidden.png")
  ∧ ensure_png (PStr "stego") = Ok (Path_of_str "stego.png").
Proof. by vm_compute. Qed.

