(* ===== verification/Core.v ===== *)
(** * core.py: the public functions and the files they touch

    [encode_message_to_image] and [decode_message_from_image] validate
    their arguments, then call either the third-party [stegano.lsb] (when
    the import at the top of the module succeeded) or the fallback codec.
    Which of the two runs is fixed when the module is loaded; here it is
    the section variable [lsb : option LsbBackend].

    The file system is a finite map from paths to what they name: an image
    (the RGBA canvas that [Image.open(p).convert("RGBA")] yields), a file
    PIL cannot read, or a directory.  [Path.exists] is true of all three;
    [Image.open] raises [IsADirectoryError] on a directory.  [img.save(p)]
    stores the canvas at [p]; it is the last effect of every successful
    call, so a call that raises leaves the file system as it was: the
    functions return [result (... * store)].  Saving is total here: that
    the directory of [p] exists and that [p] is no directory is not
    checked.

    In the branch with [stegano.lsb] the library is handed [str(cover)] and
    opens the file itself, and the result is saved under [str(out)]; here
    the backend is given the opened image, and the two strings name the
    paths they were made from ([Utils.Path_of_str_str]).

    [LsbBackend] is the contract the program expects of [stegano.lsb]:
    what [hide] embedded, [reveal] returns.  [fallback_backend] shows that
    the fallback codec meets the same contract. *)

From Stdlib Require Import ZArith Lia ZifyNat String.
From stdpp Require Import base tactics option list strings numbers gmap.
From S2P Require Import Prelude PyBytes Bits Text Image Frame Embed Extract Codec Utils.

#[local] Open Scope Z_scope.

(** ** The file system *)

Inductive file : Type :=
| ImageFile (img : image)
| OtherFile
| Directory.

#[export] Instance file_eq_dec : EqDecision file.
Proof. solve_decision. Defined.

(** [p.exists()]. *)
Definition path_exists (fs : gmap Path file) (p : Path) : bool :=
  bool_decide (is_Some (fs !! p)).

(** [Image.open(p).convert("RGBA")]. *)
Definition image_open (fs : gmap Path file) (p : Path) : result image :=
  match fs !! p with
  | Some (ImageFile img) => Ok img
  | Some OtherFile => Raise UnidentifiedImageError
  | Some Directory => Raise IsADirectoryError
  | None => Raise FileNotFoundError
  end.

(** [img.save(p)]. *)
Definition image_save (fs : gmap Path file) (p : Path) (img : image) : gmap Path file :=
  <[p := ImageFile img]> fs.

(** Every image file holds a well-formed image with 8-bit channels. *)
Definition store_ok (fs : gmap Path file) : Prop :=
  ∀ p img, fs !! p = Some (ImageFile img) → image_ok img.

(** ** The interface of [stegano.lsb] *)

Class LsbBackend := {
  lsb_hide : image → list Z → result image;
  lsb_reveal : image → result (option (list Z));
  lsb_hide_ok img m img' :
    image_ok img → lsb_hide img m = Ok img' → image_ok img';
  lsb_reveal_hide img m img' :
    image_ok img → lsb_hide img m = Ok img' → lsb_reveal img' = Ok (Some m);
}.

(** ** The module *)

Definition cover_not_found (cover : Path) : exn :=
  SteganographyError ("Cover image not found: " +:+ Path_str cover).

Definition empty_message : exn := SteganographyError "Message must not be empty".

Definition image_not_found (img : Path) : exn :=
  SteganographyError ("Image not found: " +:+ Path_str img).

Definition no_message : exn :=
  SteganographyError "No hidden message found or unable to decode.".

Section core.
Context `{!TextCodec} (lsb : option LsbBackend).
Implicit Types (fs : gmap Path file) (message : list Z).

Definition _fallback_encode fs (cover : Path) message (out : Path)
  : result (gmap Path file) :=
  img ← image_open fs cover;
  img' ← encode_image img message;
  Ok (image_save fs out img').

Definition _fallback_decode fs (stego : Path) : result (list Z) :=
  image_open fs stego ≫= decode_image.

Definition encode_message_to_image fs (cover_image : pathlike) message
    (output_path : pathlike) : result (Path * gmap Path file) :=
  let cover := to_Path cover_image in
  if negb (path_exists fs cover) then Raise (cover_not_found cover)
  else if decide (message = []) then Raise empty_message
  else
    out ← ensure_png output_path;
    match lsb with
    | None =>
        fs' ← _fallback_encode fs cover message out;
        Ok (out, fs')
    | Some backend =>
        let _ := is_lossless_image (PPath cover) in
        img ← image_open fs cover;
        secret ← lsb_hide img message;
        Ok (out, image_save fs out secret)
    end.

Definition decode_message_from_image fs (stego_image : pathlike) : result (list Z) :=
  let img := to_Path stego_image in
  if negb (path_exists fs img) then Raise (image_not_found img)
  else
    msg ← match lsb with
          | None => Some <$> _fallback_decode fs img
          | Some backend => image_open fs img ≫= lsb_reveal
          end;
    match msg with
    | None | Some [] => Raise no_message
    | Some m => Ok m
    end.

End core.

(** ** The fallback codec meets the contract of the backend *)

Section fallback_backend.
Context `{!TextCodec}.

Lemma fallback_hide_ok img m img' :
  image_ok img → encode_image img m = Ok img' → image_ok img'.
Proof. apply encode_image_ok. Qed.

Lemma fallback_reveal_hide img m img' :
  image_ok img → encode_image img m = Ok img' →
  Some <$> decode_image img' = Ok (Some m).
Proof.
  intros [Hwf _] (pl & Hpl & Hfit & ->)%encode_image_inv; [|done].
  by erewrite decode_image_embed.
Qed.

Definition fallback_backend : LsbBackend := {|
  lsb_hide := encode_image;
  lsb_reveal img := Some <$> decode_image img;
  lsb_hide_ok := fallback_hide_ok;
  lsb_reveal_hide := fallback_reveal_hide;
|}.

End fallback_backend.

(** The backend that runs: [stegano.lsb], or the fallback codec. *)
Definition the_backend `{!TextCodec} (lsb : option LsbBackend) : LsbBackend :=
  default fallback_backend lsb.

(** *** Data for the concrete runs *)

Definition cover_png : Path := Path_of_str "in/cover.png".
Definition stego_png : Path := Path_of_str "out/stego.png".

(** [Path("")] and [Path(".")]: the directory the program runs in. *)
Definition cwd : Path := Path_of_str "".

(** The directories of the example store. *)
Definition example_dirs : gmap Path file :=
  <[Path_of_str "out" := Directory]>
    (<[Path_of_str "in" := Directory]> (<[cwd := Directory]> ∅)).

(** A store with a cover image, a blank canvas and a text file. *)
Definition example_store : gmap Path file :=
  image_save (image_save (<[Path_of_str "notes.txt" := OtherFile]> example_dirs)
                cover_png cover_8x4)
    (Path_of_str "blank.png") (new_image 16 16 (RGBA 255 255 255 255)).

(** ** Lemmas on the file system *)

Section store_lemmas.
Implicit Types (fs : gmap Path file) (p q : Path) (img : image).

Lemma path_exists_true fs p : path_exists fs p = true ↔ is_Some (fs !! p).
Proof. unfold path_exists. by rewrite bool_decide_eq_true. Qed.

Lemma path_exists_false fs p : path_exists fs p = false ↔ fs !! p = None.
Proof.
  unfold path_exists. by rewrite bool_decide_eq_false, eq_None_not_Some.
Qed.

Lemma image_open_Ok fs p img : image_open fs p = Ok img ↔ fs !! p = Some (ImageFile img).
Proof.
  unfold image_open. destruct (fs !! p) as [[img'| |]|]; split; congruence.
Qed.

Lemma image_open_exists fs p img : image_open fs p = Ok img → path_exists fs p = true.
Proof. intros Hp%image_open_Ok. apply path_exists_true. by rewrite Hp. Qed.

Lemma image_open_save fs p img : image_open (image_save fs p img) p = Ok img.
Proof. apply image_open_Ok. apply lookup_insert_eq. Qed.

Lemma image_open_save_ne fs p q img :
  p ≠ q → image_open (image_save fs p img) q = image_open fs q.
Proof. intros. unfold image_open, image_save. by rewrite lookup_insert_ne. Qed.

Lemma path_exists_save fs p img : path_exists (image_save fs p img) p = true.
Proof. apply path_exists_true. unfold image_save. by rewrite lookup_insert_eq. Qed.

Lemma image_open_ok fs p img : store_ok fs → image_open fs p = Ok img → image_ok img.
Proof. intros Hfs Hp%image_open_Ok. by eapply Hfs. Qed.

Lemma store_ok_save fs p img : store_ok fs → image_ok img → store_ok (image_save fs p img).
Proof.
  intros Hfs Himg q img'. unfold image_save.
  destruct (decide (p = q)) as [->|].
  - rewrite lookup_insert_eq. by intros [= <-].
  - rewrite lookup_insert_ne by done. apply Hfs.
Qed.

Lemma store_ok_empty : store_ok ∅.
Proof. intros p img. by rewrite lookup_empty. Qed.

(** Adding something that is no image keeps the store well formed. *)
Lemma store_ok_insert fs p f :
  store_ok fs → (∀ img, f ≠ ImageFile img) → store_ok (<[p := f]> fs).
Proof.
  intros Hfs Hf q img. destruct (decide (p = q)) as [->|].
  - rewrite lookup_insert_eq. intros [= ->]. by destruct (Hf img).
  - rewrite lookup_insert_ne by done. apply Hfs.
Qed.

End store_lemmas.

(** ** The two branches are one *)

Section one_backend.
Context `{!TextCodec}.
Implicit Types (fs : gmap Path file) (message : list Z).

(** Without [stegano], the functions behave as they would with a backend
    that is the fallback codec. *)
Lemma encode_fallback_as_backend fs cover_image message output_path :
  encode_message_to_image None fs cover_image message output_path =
  encode_message_to_image (Some fallback_backend) fs cover_image message output_path.
Proof.
  unfold encode_message_to_image, _fallback_encode.
  destruct (negb _); [done|]. destruct (decide _); [done|].
  destruct (ensure_png output_path); [|done]. cbn.
  destruct (image_open _ _); [|done]. cbn. by destruct (encode_image _ _).
Qed.

Lemma decode_fallback_as_backend fs stego_image :
  decode_message_from_image None fs stego_image =
  decode_message_from_image (Some fallback_backend) fs stego_image.
Proof.
  unfold decode_message_from_image, _fallback_decode.
  destruct (negb _); [done|]. by destruct (image_open _ _).
Qed.

End one_backend.

Section core_lemmas.
Context `{!TextCodec} (lsb : option LsbBackend).
Implicit Types (fs : gmap Path file) (message : list Z) (out : Path).

Lemma encode_as_the_backend fs cover_image message output_path :
  encode_message_to_image lsb fs cover_image message output_path =
  encode_message_to_image (Some (the_backend lsb)) fs cover_image message output_path.
Proof. destruct lsb; [done|]. apply encode_fallback_as_backend. Qed.

Lemma decode_as_the_backend fs stego_image :
  decode_message_from_image lsb fs stego_image =
  decode_message_from_image (Some (the_backend lsb)) fs stego_image.
Proof. destruct lsb; [done|]. apply decode_fallback_as_backend. Qed.

(** What a successful call did. *)
Lemma encode_message_to_image_inv fs cover_image message output_path out fs' :
  encode_message_to_image lsb fs cover_image message output_path = Ok (out, fs') →
  message ≠ [] ∧ ensure_png output_path = Ok out
  ∧ ∃ img img', image_open fs (to_Path cover_image) = Ok img
                ∧ @lsb_hide (the_backend lsb) img message = Ok img'
                ∧ fs' = image_save fs out img'.
Proof.
  rewrite encode_as_the_backend. unfold encode_message_to_image.
  destruct (negb _); [done|]. destruct (decide _) as [|Hne]; [done|].
  intros (out' & Hout & Henc)%bind_Ok_inv.
  apply bind_Ok_inv in Henc as (img & Himg & Henc).
  apply bind_Ok_inv in Henc as (img' & Hhide & [= <- <-]).
  eauto 10.
Qed.

(** Only the path an argument names matters. *)
Lemma decode_message_to_Path fs x y :
  to_Path x = to_Path y →
  decode_message_from_image lsb fs x = decode_message_from_image lsb fs y.
Proof. intros Hxy. unfold decode_message_from_image. by rewrite Hxy. Qed.

(** Decoding a file that holds what the backend hid. *)
Lemma decode_message_hidden fs x img message img' :
  image_ok img → @lsb_hide (the_backend lsb) img message = Ok img' → message ≠ [] →
  fs !! to_Path x = Some (ImageFile img') →
  decode_message_from_image lsb fs x = Ok message.
Proof.
  intros Himg Hhide Hne Hf. rewrite decode_as_the_backend.
  unfold decode_message_from_image, image_open, path_exists.
  rewrite Hf, bool_decide_true by done. cbn.
  erewrite lsb_reveal_hide by done. cbn. by destruct message.
Qed.

(** What a successful call wrote. *)
Lemma encode_message_to_image_saved fs cover_image message output_path out fs' :
  store_ok fs →
  encode_message_to_image lsb fs cover_image message output_path = Ok (out, fs') →
  lower (suffix out) = ".png"
  ∧ ∃ img', image_ok img' ∧ fs' = image_save fs out img'.
Proof.
  intros Hfs (_ & Hout & img & img' & Hopen & Hhide & ->)%encode_message_to_image_inv.
  split; [by eapply ensure_png_suffix|]. exists img'. split; [|done].
  eapply lsb_hide_ok; eauto using image_open_ok.
Qed.

End core_lemmas.

(** ** The public functions *)

Section core_theorems.
Context `{!TextCodec} (lsb : option LsbBackend).
Implicit Types (fs : gmap Path file) (message : list Z) (out : Path).

(** C1: a message hidden with [encode_message_to_image] is returned by
    [decode_message_from_image] applied to the path the first call returned,
    whichever backend is in use. *)
Theorem decode_encode_message fs cover_image message output_path out fs' :
  store_ok fs →
  encode_message_to_image lsb fs cover_image message output_path = Ok (out, fs') →
  decode_message_from_image lsb fs' (PPath out) = Ok message.
Proof.
  intros Hfs (Hne & _ & img & img' & Hopen & Hhide & ->)%encode_message_to_image_inv.
  eapply decode_message_hidden; eauto using image_open_ok. apply lookup_insert_eq.
Qed.

(** C7: a successful [encode_message_to_image] writes one file, the returned
    path; that path has the suffix [.png]; every other file is as it was and
    every image file is still well formed. *)
Theorem encode_message_writes_one fs cover_image message output_path out fs' :
  store_ok fs →
  encode_message_to_image lsb fs cover_image message output_path = Ok (out, fs') →
  store_ok fs' ∧ lower (suffix out) = ".png"
  ∧ (∃ img', fs' !! out = Some (ImageFile img'))
  ∧ ∀ p, p ≠ out → fs' !! p = fs !! p.
Proof.
  intros Hfs (_ & Hout & img & img' & Hopen & Hhide & ->)%encode_message_to_image_inv.
  split_and!.
  - apply store_ok_save; [done|]. eapply lsb_hide_ok; eauto using image_open_ok.
  - by eapply ensure_png_suffix.
  - exists img'. apply lookup_insert_eq.
  - intros p Hp. by apply lookup_insert_ne.
Qed.

(** C17: the empty message is refused with a [SteganographyError], and
    nothing is written. *)
Theorem encode_message_empty fs cover_image output_path :
  encode_message_to_image lsb fs cover_image [] output_path =
  Raise (if path_exists fs (to_Path cover_image) then empty_message
         else cover_not_found (to_Path cover_image)).
Proof.
  unfold encode_message_to_image. by destruct (path_exists _ _).
Qed.

(** A cover that does not exist is reported before anything else. *)
Lemma encode_message_no_cover fs cover_image message output_path :
  fs !! to_Path cover_image = None →
  encode_message_to_image lsb fs cover_image message output_path =
  Raise (cover_not_found (to_Path cover_image)).
Proof.
  intros Hno%path_exists_false. unfold encode_message_to_image. by rewrite Hno.
Qed.

Lemma decode_message_no_file fs stego_image :
  fs !! to_Path stego_image = None →
  decode_message_from_image lsb fs stego_image =
  Raise (image_not_found (to_Path stego_image)).
Proof.
  intros Hno%path_exists_false. unfold decode_message_from_image. by rewrite Hno.
Qed.

(** A directory passes the existence check, and opening it fails with an
    exception that is no [SteganographyError], whichever backend runs. *)
Lemma encode_message_directory fs cover_image message output_path :
  fs !! to_Path cover_image = Some Directory → message ≠ [] →
  name (to_Path output_path) ≠ "" →
  encode_message_to_image lsb fs cover_image message output_path
  = Raise IsADirectoryError.
Proof.
  intros Hdir Hne Hnm. unfold encode_message_to_image, _fallback_encode, image_open, path_exists.
  rewrite Hdir, bool_decide_true, decide_False by done. cbn [negb].
  destruct (ensure_png output_path) as [out|e] eqn:Hout;
    [|by apply ensure_png_Raise in Hout as [_ ?]].
  by destruct lsb.
Qed.

Lemma decode_message_directory fs stego_image :
  fs !! to_Path stego_image = Some Directory →
  decode_message_from_image lsb fs stego_image = Raise IsADirectoryError.
Proof.
  intros Hdir. unfold decode_message_from_image, _fallback_decode, image_open, path_exists.
  rewrite Hdir, bool_decide_true by done. by destruct lsb.
Qed.

(** [decode_message_from_image] never returns the empty message. *)
Lemma decode_message_nonempty fs stego_image message :
  decode_message_from_image lsb fs stego_image = Ok message → message ≠ [].
Proof.
  unfold decode_message_from_image. destruct (negb _); [done|].
  intros (msg & _ & Hmsg)%bind_Ok_inv. destruct msg as [[|??]|]; try done.
  by intros ->.
Qed.

End core_theorems.

(** ** The exceptions of the fallback path *)

Section fallback_errors.
Context `{!TextCodec}.
Implicit Types (fs : gmap Path file) (message : list Z).

(** C13: with the fallback codec, [decode_message_from_image] raises one of
    four exceptions, each for one kind of thing the path names: the
    [SteganographyError] "Image not found" for nothing, [IsADirectoryError]
    for a directory, [UnidentifiedImageError] for a file that is no image,
    and the [SteganographyError] "No hidden message" for an image.  Only the
    first and the last are [SteganographyError]. *)
Theorem decode_message_raises fs stego_image e :
  store_ok fs → decode_message_from_image None fs stego_image = Raise e →
  (e = image_not_found (to_Path stego_image) ∧ fs !! to_Path stego_image = None)
  ∨ (e = IsADirectoryError ∧ fs !! to_Path stego_image = Some Directory)
  ∨ (e = UnidentifiedImageError ∧ fs !! to_Path stego_image = Some OtherFile)
  ∨ (e = no_message ∧ ∃ img, fs !! to_Path stego_image = Some (ImageFile img)).
Proof.
  intros Hfs. unfold decode_message_from_image, _fallback_decode, image_open.
  destruct (path_exists _ _) eqn:Hex; cbn [negb].
  2:{ apply path_exists_false in Hex. intros [= <-]. auto. }
  apply path_exists_true in Hex as [[img| |] Hf]; rewrite Hf; cbn;
    [|intros [= <-]; auto..].
  destruct (decode_image_total img) as [s ->]; [by eapply Hfs|]. cbn.
  destruct s; intros [= <-]. eauto 10.
Qed.

(** C12: with the fallback codec, the exceptions of
    [encode_message_to_image] and what raises each: the two argument checks
    (no file at the cover path; the empty message), [ValueError] for an
    output path without a name, [IsADirectoryError] for a cover path that
    names a directory, [UnidentifiedImageError] for a cover that is no
    image, and, for a cover that is an image, the two failures of framing
    and the capacity check.  Only the two argument checks and the capacity
    check are [SteganographyError]. *)
Theorem encode_message_raises fs cover_image message output_path e :
  store_ok fs →
  encode_message_to_image None fs cover_image message output_path = Raise e →
  (e = cover_not_found (to_Path cover_image) ∧ fs !! to_Path cover_image = None)
  ∨ (e = empty_message ∧ message = [])
  ∨ (e = ValueError ∧ name (to_Path output_path) = "")
  ∨ (e = IsADirectoryError ∧ fs !! to_Path cover_image = Some Directory)
  ∨ (e = UnidentifiedImageError ∧ fs !! to_Path cover_image = Some OtherFile)
  ∨ ((e = UnicodeEncodeError ∨ e = OverflowError ∨ e = too_large)
     ∧ ∃ img, fs !! to_Path cover_image = Some (ImageFile img)
              ∧ encode_image img message = Raise e).
Proof.
  intros Hfs. unfold encode_message_to_image, _fallback_encode, image_open.
  destruct (path_exists _ _) eqn:Hex; cbn [negb].
  2:{ apply path_exists_false in Hex. intros [= <-]. auto. }
  destruct (decide _); [intros [= <-]; auto|].
  destruct (ensure_png output_path) as [out|e'] eqn:Hout; cbn.
  2:{ apply ensure_png_Raise in Hout as [-> ?]. intros [= <-]; auto. }
  apply path_exists_true in Hex as [[img| |] Hf]; rewrite Hf; cbn;
    [|intros [= <-]; auto 10..].
  destruct (encode_image img message) as [img'|e'] eqn:Henc; cbn; [done|].
  intros [= <-]. do 5 right. split; [|by eauto].
  apply encode_image_raises in Henc; [done|]. by eapply Hfs.
Qed.

End fallback_errors.

(** ** More on the fallback path *)

Section fallback_theorems.
Context `{!TextCodec}.
Implicit Types (fs : gmap Path file) (message : list Z).

(** The fallback path once the two argument checks have passed. *)
Lemma encode_message_fallback fs cover_image message output_path img :
  fs !! to_Path cover_image = Some (ImageFile img) → message ≠ [] →
  encode_message_to_image None fs cover_image message output_path =
  out ← ensure_png output_path;
  img' ← encode_image img message;
  Ok (out, image_save fs out img').
Proof.
  intros Hcover Hne.
  unfold encode_message_to_image, _fallback_encode, image_open, path_exists.
  rewrite Hcover, bool_decide_true by done. cbn [negb].
  rewrite decide_False by done. destruct (ensure_png output_path); [|done]. cbn.
  by destruct (encode_image img message).
Qed.

Lemma encode_message_fallback_Ok fs cover_image message output_path img out img' :
  fs !! to_Path cover_image = Some (ImageFile img) → message ≠ [] →
  ensure_png output_path = Ok out → encode_image img message = Ok img' →
  encode_message_to_image None fs cover_image message output_path
  = Ok (out, image_save fs out img').
Proof.
  intros Hcover Hne Hout Henc.
  by rewrite (encode_message_fallback _ _ _ _ img), Hout, Henc.
Qed.

Lemma decode_message_not_image fs stego_image :
  fs !! to_Path stego_image = Some OtherFile →
  decode_message_from_image None fs stego_image = Raise UnidentifiedImageError.
Proof.
  intros Hf. unfold decode_message_from_image, _fallback_decode, image_open, path_exists.
  by rewrite Hf, bool_decide_true by done.
Qed.

Lemma decode_message_fallback fs stego_image img :
  fs !! to_Path stego_image = Some (ImageFile img) →
  decode_message_from_image None fs stego_image =
  msg ← Some <$> decode_image img;
  match msg with
  | None | Some [] => Raise no_message
  | Some m => Ok m
  end.
Proof.
  intros Hf. unfold decode_message_from_image, _fallback_decode, image_open, path_exists.
  by rewrite Hf, bool_decide_true by done.
Qed.

(** C18: with the fallback codec, [encode_message_to_image] succeeds
    whenever the cover is an image file, the message is not empty, the
    output path has a name and the frame fits the cover; it then returns the
    normalised output path and stores the encoded image there. *)
Theorem encode_message_succeeds fs cover_image message output_path img pl :
  store_ok fs → fs !! to_Path cover_image = Some (ImageFile img) →
  message ≠ [] → name (to_Path output_path) ≠ "" →
  payload message = Ok pl → (length pl * 8 ≤ capacity img)%nat →
  ∃ out img', ensure_png output_path = Ok out
    ∧ encode_image img message = Ok img'
    ∧ encode_message_to_image None fs cover_image message output_path
      = Ok (out, image_save fs out img').
Proof.
  intros Hfs Hcover Hne Hnm Hpl Hfit.
  destruct (ensure_png output_path) as [out|e] eqn:Hout;
    [|by apply ensure_png_Raise in Hout as [_ ?]].
  assert (image_wf img) as Hwf by by eapply Hfs.
  exists out. eexists. split; [done|]. split; [by apply encode_image_fits|].
  apply (encode_message_fallback_Ok _ _ _ _ img); [done..|]. by apply encode_image_fits.
Qed.

(** C19: a file that holds an image of one colour, such as a new canvas,
    decodes to the error "no hidden message". *)
Theorem decode_message_blank fs stego_image w h p :
  fs !! to_Path stego_image = Some (ImageFile (new_image w h p)) →
  decode_message_from_image None fs stego_image = Raise no_message.
Proof.
  intros Hf. by rewrite (decode_message_fallback _ _ _ Hf), decode_image_uniform.
Qed.

End fallback_theorems.

(** ** Concrete runs, with UTF-8 *)

Lemma example_store_ok : store_ok example_store.
Proof.
  repeat apply store_ok_save; try by apply new_image_ok.
  repeat (apply store_ok_insert; [|done]). apply store_ok_empty.
Qed.

Lemma example_store_cover : example_store !! cover_png = Some (ImageFile cover_8x4).
Proof.
  unfold example_store, image_save.
  rewrite lookup_insert_ne by compute_done. apply lookup_insert_eq.
Qed.

Lemma example_store_blank :
  example_store !! Path_of_str "blank.png"
  = Some (ImageFile (new_image 16 16 (RGBA 255 255 255 255))).
Proof. apply lookup_insert_eq. Qed.

Lemma example_store_notes : example_store !! Path_of_str "notes.txt" = Some OtherFile.
Proof.
  unfold example_store, example_dirs, image_save.
  rewrite !lookup_insert_ne by compute_done. apply lookup_insert_eq.
Qed.

(** The run the witnesses below start from. *)
Lemma example_encode :
  encode_message_to_image None example_store (PStr "in/cover.png") abc
    (PStr "out/stego.jpeg")
  = Ok (stego_png, image_save example_store stego_png stego_8x4).
Proof.
  apply (encode_message_fallback_Ok _ _ _ _ cover_8x4);
    [apply example_store_cover | done | by vm_compute | by vm_compute].
Qed.

Lemma decode_encode_message_witness :
  decode_message_from_image None (image_save example_store stego_png stego_8x4)
    (PPath stego_png) = Ok abc.
Proof.
  apply (decode_encode_message None example_store (PStr "in/cover.png") abc
           (PStr "out/stego.jpeg")); [apply example_store_ok | apply example_encode].
Defined.

Lemma encode_message_writes_one_witness :
  let fs' := image_save example_store stego_png stego_8x4 in
  store_ok fs' ∧ lower (suffix stego_png) = ".png"
  ∧ (∃ img', fs' !! stego_png = Some (ImageFile img'))
  ∧ ∀ p, p ≠ stego_png → fs' !! p = example_store !! p.
Proof.
  apply (encode_message_writes_one None example_store (PStr "in/cover.png") abc
           (PStr "out/stego.jpeg")); [apply example_store_ok | apply example_encode].
Defined.

Lemma example_store_cwd : example_store !! cwd = Some Directory.
Proof.
  unfold example_store, example_dirs, image_save.
  rewrite !lookup_insert_ne by compute_done. apply lookup_insert_eq.
Qed.

Lemma decode_message_raises_witness :
  let e := UnidentifiedImageError in
  let p := to_Path (PStr "notes.txt") in
  (e = image_not_found p ∧ example_store !! p = None)
  ∨ (e = IsADirectoryError ∧ example_store !! p = Some Directory)
  ∨ (e = UnidentifiedImageError ∧ example_store !! p = Some OtherFile)
  ∨ (e = no_message ∧ ∃ img, example_store !! p = Some (ImageFile img)).
Proof.
  apply (decode_message_raises example_store (PStr "notes.txt"));
    [apply example_store_ok | apply decode_message_not_image, example_store_notes].
Defined.

Lemma encode_message_raises_witness :
  let e := too_large in
  let message := [97; 98; 99; 100] in
  (e = cover_not_found cover_png ∧ example_store !! cover_png = None)
  ∨ (e = empty_message ∧ message = [])
  ∨ (e = ValueError ∧ name (to_Path (PStr "out.png")) = "")
  ∨ (e = IsADirectoryError ∧ example_store !! cover_png = Some Directory)
  ∨ (e = UnidentifiedImageError ∧ example_store !! cover_png = Some OtherFile)
  ∨ ((e = UnicodeEncodeError ∨ e = OverflowError ∨ e = too_large)
     ∧ ∃ img, example_store !! cover_png = Some (ImageFile img)
              ∧ encode_image img message = Raise e).
Proof.
  apply (encode_message_raises example_store (PPath cover_png) [97; 98; 99; 100]
           (PStr "out.png")); [apply example_store_ok|].
  rewrite (encode_message_fallback _ _ _ _ cover_8x4) by (apply example_store_cover || done).
  by rewrite encode_image_one_byte_more.
Defined.

Lemma encode_message_succeeds_witness :
  ∃ out img', ensure_png (PStr "stego") = Ok out
    ∧ encode_image cover_8x4 abc = Ok img'
    ∧ encode_message_to_image None example_store (PPath cover_png) abc (PStr "stego")
      = Ok (out, image_save example_store out img').
Proof.
  apply (encode_message_succeeds example_store (PPath cover_png) abc (PStr "stego")
           cover_8x4 (_HEADER ++ [0; 0; 0; 3] ++ abc));
    [apply example_store_ok | apply example_store_cover | done | by vm_compute
    | by vm_compute | by vm_compute].
Defined.

Lemma decode_message_blank_witness :
  decode_message_from_image None example_store (PStr "blank.png") = Raise no_message.
Proof.
  apply (decode_message_blank _ _ 16 16 (RGBA 255 255 255 255)), example_store_blank.
Defined.

(** The order of the argument checks: a missing cover is reported even when
    the message is empty; a bad output path only after both. *)
Lemma encode_message_check_order :
  encode_message_to_image None example_store (PStr "nowhere.png") [] (PStr "")
  = Raise (cover_not_found (Path_of_str "nowhere.png"))
  ∧ encode_message_to_image None example_store (PPath cover_png) [] (PStr "")
    = Raise empty_message
  ∧ encode_message_to_image None example_store (PPath cover_png) abc (PStr "")
    = Raise ValueError.
Proof.
  split_and!.
  - apply encode_message_no_cover. unfold example_store, example_dirs, image_save.
    rewrite !lookup_insert_ne by compute_done. apply lookup_empty.
  - unfold encode_message_to_image, path_exists. cbn [to_Path].
    by rewrite bool_decide_true by (rewrite example_store_cover; eauto).
  - by rewrite (encode_message_fallback _ _ _ _ cover_8x4)
      by (apply example_store_cover || done).
Qed.
