(* ===== verification/Gui.v ===== *)
(** * main.py: the Tkinter application

    [App] is the window.  Its attributes are the three [StringVar]s of the
    path entries, the two [Text] boxes and the [StringVar] of the status
    bar; they are created by [_build_encode_tab], [_build_decode_tab] and
    [_build_ui], which also create the labels and the five buttons and bind
    each button to its callback.  [__init__] sets the title and the size
    before it calls [_build_ui].  Where a widget is placed ([grid],
    [columnconfigure], [rowconfigure], padding) and the height and wrapping
    of the text boxes are not modelled: no callback reads them.

    The world a callback runs in holds the window, the file system, the
    dialogs shown so far (file dialogs and message boxes, oldest first) and
    the exceptions that left a callback: Tk catches those, reports them and
    goes on.  What the user answers in a file dialog is an argument of the
    press: the path chosen, or [""] when the dialog is cancelled.

    [mainloop] runs a sequence of user actions; [main] is [App().mainloop()]
    on a given file system. *)

From Stdlib Require Import ZArith Lia ZifyNat Ascii String.
From stdpp Require Import base tactics option list strings numbers gmap.
From S2P Require Import Prelude Text Image Frame Embed Extract Codec Utils Core.

#[local] Open Scope string_scope.

(** ** Tk and [str] *)

(** The [state] option of a [tk.Text]. *)
Inductive text_state : Type := normal | disabled.

#[export] Instance text_state_eq_dec : EqDecision text_state.
Proof. solve_decision. Defined.

(** A [tk.Text]: its characters, without the newline Tk keeps at the end,
    and its state. *)
Record TextBox : Type := MkText { content : list Z; state : text_state }.

(** [t.configure(state=s)]. *)
Definition text_configure (s : text_state) (t : TextBox) : TextBox :=
  MkText (content t) s.

(** [t.delete("1.0", "end")]; a disabled box ignores it. *)
Definition text_delete (t : TextBox) : TextBox :=
  match state t with
  | normal => MkText [] normal
  | disabled => t
  end.

(** [t.insert("1.0", s)]; a disabled box ignores it. *)
Definition text_insert (s : list Z) (t : TextBox) : TextBox :=
  match state t with
  | normal => MkText (s ++ content t) normal
  | disabled => t
  end.

(** [t.get("1.0", "end")]: the characters and the final newline. *)
Definition text_get (t : TextBox) : list Z := content t ++ [10%Z].

(** [c.isspace()] for a code point. *)
Definition isspace (c : Z) : bool :=
  bool_decide ((9 ≤ c ≤ 13)%Z ∨ (28 ≤ c ≤ 32)%Z ∨ c = 133%Z ∨ c = 160%Z
               ∨ c = 5760%Z ∨ (8192 ≤ c ≤ 8202)%Z ∨ c = 8232%Z ∨ c = 8233%Z
               ∨ c = 8239%Z ∨ c = 8287%Z ∨ c = 12288%Z).

(** [s.lstrip()], [s.rstrip()] and [s.strip()]. *)
Fixpoint lstrip (s : list Z) : list Z :=
  match s with
  | c :: s' => if isspace c then lstrip s' else s
  | [] => []
  end.

Definition rstrip (s : list Z) : list Z := reverse (lstrip (reverse s)).

Definition strip (s : list Z) : list Z := rstrip (lstrip s).

(** ** The window *)

(** The callbacks a button can be bound to. *)
Inductive callback : Type :=
| browse_cover | browse_output | browse_stego | on_encode | on_decode.

#[export] Instance callback_eq_dec : EqDecision callback.
Proof. solve_decision. Defined.

(** A [ttk.Button]: its text and its command. *)
Record Button : Type := MkButton { text : string; command : callback }.

#[export] Instance Button_eq_dec : EqDecision Button.
Proof. solve_decision. Defined.

(** What [_build_encode_tab] creates: the labels, the variables of the two
    entries, the message box and the buttons. *)
Record encode_widgets : Type := EncodeTab {
  encode_labels : list string;
  cover_path : string;
  message_txt : TextBox;
  output_path : string;
  encode_buttons : list Button;
}.

(** What [_build_decode_tab] creates. *)
Record decode_widgets : Type := DecodeTab {
  decode_labels : list string;
  stego_path : string;
  decoded_txt : TextBox;
  decode_buttons : list Button;
}.

(** The [tk.Tk] that [App] extends: what [title] and [geometry] set. *)
Record Tk : Type := MkTk { title : string; geometry : string }.

(** The window: the texts of the notebook's tabs, the two tabs and the
    variable of the status bar. *)
Record App : Type := MkApp {
  window : Tk;
  tabs : list string;
  encode_tab : encode_widgets;
  decode_tab : decode_widgets;
  status_var : string;
}.

Definition _build_encode_tab : encode_widgets := {|
  encode_labels := ["Cover Image (PNG recommended):"; "Secret Message:";
                    "Output Image (PNG):"];
  cover_path := "";
  message_txt := MkText [] normal;
  output_path := "";
  encode_buttons := [MkButton "Browse..." browse_cover;
                     MkButton "Save As..." browse_output;
                     MkButton "Encode" on_encode];
|}.

Definition _build_decode_tab : decode_widgets := {|
  decode_labels := ["Stego Image:"; "Decoded Message:"];
  stego_path := "";
  decoded_txt := MkText [] disabled;
  decode_buttons := [MkButton "Browse..." browse_stego;
                     MkButton "Decode" on_decode];
|}.

(** [self._build_ui()] on the window [self]. *)
Definition _build_ui (self : Tk) : App := {|
  window := self;
  tabs := ["Encode"; "Decode"];
  encode_tab := _build_encode_tab;
  decode_tab := _build_decode_tab;
  status_var := "Ready.";
|}.

(** [App()]: [__init__] sets the title and the size and builds the
    widgets.  The title is the string of the source, byte for byte. *)
Definition App_init : App :=
  _build_ui (MkTk "Image Steganography â€” LSB (Mobin Yousefi)" "720x520").

(** ** The world *)

Inductive dialog : Type :=
| askopenfilename (title : string)
| asksaveasfilename (title initialfile : string)
| showerror (title : string) (e : exn)
| showwarning (title : string) (e : exn)
| showinfo (title message : string).

Record world : Type := World {
  app : App;
  files : gmap Path file;
  dialogs : list dialog;
  reported : list exn;
}.

Section setters.
Implicit Types (w : world) (s : string).

Definition set_cover_path s w : world :=
  let a := app w in
  let e := encode_tab a in
  World (MkApp (window a) (tabs a)
               (EncodeTab (encode_labels e) s (message_txt e) (output_path e)
                          (encode_buttons e))
               (decode_tab a) (status_var a))
        (files w) (dialogs w) (reported w).

Definition set_message_txt (t : TextBox) w : world :=
  let a := app w in
  let e := encode_tab a in
  World (MkApp (window a) (tabs a)
               (EncodeTab (encode_labels e) (cover_path e) t (output_path e)
                          (encode_buttons e))
               (decode_tab a) (status_var a))
        (files w) (dialogs w) (reported w).

Definition set_output_path s w : world :=
  let a := app w in
  let e := encode_tab a in
  World (MkApp (window a) (tabs a)
               (EncodeTab (encode_labels e) (cover_path e) (message_txt e) s
                          (encode_buttons e))
               (decode_tab a) (status_var a))
        (files w) (dialogs w) (reported w).

Definition set_stego_path s w : world :=
  let a := app w in
  let d := decode_tab a in
  World (MkApp (window a) (tabs a) (encode_tab a)
               (DecodeTab (decode_labels d) s (decoded_txt d) (decode_buttons d))
               (status_var a))
        (files w) (dialogs w) (reported w).

Definition set_decoded_txt (t : TextBox) w : world :=
  let a := app w in
  let d := decode_tab a in
  World (MkApp (window a) (tabs a) (encode_tab a)
               (DecodeTab (decode_labels d) (stego_path d) t (decode_buttons d))
               (status_var a))
        (files w) (dialogs w) (reported w).

Definition set_status s w : world :=
  let a := app w in
  World (MkApp (window a) (tabs a) (encode_tab a) (decode_tab a) s)
        (files w) (dialogs w) (reported w).

Definition set_files (fs : gmap Path file) w : world :=
  World (app w) fs (dialogs w) (reported w).

(** A dialog opens and is closed. *)
Definition show (d : dialog) w : world :=
  World (app w) (files w) (dialogs w ++ [d]) (reported w).

(** An exception leaves a callback: Tk reports it. *)
Definition report (e : exn) w : world :=
  World (app w) (files w) (dialogs w) (reported w ++ [e]).

End setters.

(** [f"Stego image saved to:\n{out}"]. *)
Definition saved_to (out : Path) : string :=
  "Stego image saved to:" +:+ String "010"%char (Path_str out).

(** ** The callbacks *)

Section callbacks.
Context `{!TextCodec} (lsb : option LsbBackend).
Implicit Types (w : world) (answer : string).

Definition _browse_cover answer w : world :=
  let w := show (askopenfilename "Select cover image") w in
  if decide (answer ≠ "") then set_cover_path answer w else w.

Definition _browse_output answer w : world :=
  let cover := cover_path (encode_tab (app w)) in
  match (if decide (cover ≠ "") then with_name (Path_of_str cover) "stego.png"
         else Ok (Path_of_str "stego.png")) with
  | Raise e => report e w
  | Ok initial =>
      let w := show (asksaveasfilename "Save stego image as" (name initial)) w in
      if decide (answer ≠ "") then
        match ensure_png (PStr answer) with
        | Raise e => report e w
        | Ok p => set_output_path (Path_str p) w
        end
      else w
  end.

Definition _browse_stego answer w : world :=
  let w := show (askopenfilename "Select stego image") w in
  if decide (answer ≠ "") then set_stego_path answer w else w.

(** The call of [_on_encode], with its arguments read from the widgets. *)
Definition encode_call w : result (Path * gmap Path file) :=
  let e := encode_tab (app w) in
  let output := if decide (output_path e ≠ "") then output_path e else "stego.png" in
  encode_message_to_image lsb (files w) (PStr (cover_path e))
    (strip (text_get (message_txt e))) (PStr output).

Definition _on_encode w : world :=
  match encode_call w with
  | Raise err =>
      if is_stego_error err
      then set_status "Encode failed." (show (showerror "Encode failed" err) w)
      else set_status "Unexpected error." (show (showerror "Unexpected error" err) w)
  | Ok (out, fs) =>
      set_status ("Encoded -> " +:+ Path_str out)
        (show (showinfo "Success" (saved_to out)) (set_files fs w))
  end.

(** The call of [_on_decode]. *)
Definition decode_call w : result (list Z) :=
  decode_message_from_image lsb (files w) (PStr (stego_path (decode_tab (app w)))).

Definition _on_decode w : world :=
  match decode_call w with
  | Raise err =>
      if is_stego_error err
      then set_status "Decode failed." (show (showwarning "No message" err) w)
      else set_status "Unexpected error." (show (showerror "Unexpected error" err) w)
  | Ok msg =>
      let t := decoded_txt (decode_tab (app w)) in
      let t := text_configure normal t in
      let t := text_delete t in
      let t := text_insert msg t in
      let t := text_configure disabled t in
      set_status "Decoded message displayed." (set_decoded_txt t w)
  end.

(** The function a callback names. *)
Definition run_callback (c : callback) answer w : world :=
  match c with
  | browse_cover => _browse_cover answer w
  | browse_output => _browse_output answer w
  | browse_stego => _browse_stego answer w
  | on_encode => _on_encode w
  | on_decode => _on_decode w
  end.

(** ** The main loop *)

(** What the user does: types in an entry or in the message box, or presses
    a button and answers the file dialog it may open. *)
Inductive event : Type :=
| type_cover_path (s : string)
| type_message (m : list Z)
| type_output_path (s : string)
| type_stego_path (s : string)
| press (b : Button) (answer : string).

Definition buttons (a : App) : list Button :=
  encode_buttons (encode_tab a) ++ decode_buttons (decode_tab a).

(** One event; a press counts when the window has the button. *)
Definition dispatch w (ev : event) : world :=
  match ev with
  | type_cover_path s => set_cover_path s w
  | type_message m => set_message_txt (MkText m normal) w
  | type_output_path s => set_output_path s w
  | type_stego_path s => set_stego_path s w
  | press b answer =>
      if decide (b ∈ buttons (app w)) then run_callback (command b) answer w else w
  end.

Definition mainloop (evs : list event) w : world := foldl dispatch w evs.

(** [App().mainloop()] on the file system [fs]. *)
Definition main (fs : gmap Path file) (evs : list event) : world :=
  mainloop evs (World App_init fs [] []).

(** The main loop as a labelled transition system: the user's actions are
    the labels, and a press is enabled when the window has the button. *)
Inductive step : world → event → world → Prop :=
| step_type_cover w s : step w (type_cover_path s) (set_cover_path s w)
| step_type_message w m :
    step w (type_message m) (set_message_txt (MkText m normal) w)
| step_type_output w s : step w (type_output_path s) (set_output_path s w)
| step_type_stego w s : step w (type_stego_path s) (set_stego_path s w)
| step_press w b answer :
    b ∈ buttons (app w) →
    step w (press b answer) (run_callback (command b) answer w).

Inductive run : world → list event → world → Prop :=
| run_nil w : run w [] w
| run_cons w ev w' evs w'' : step w ev w' → run w' evs w'' → run w (ev :: evs) w''.

(** The worlds the program can be in when started on [fs]. *)
Definition reachable (fs : gmap Path file) w : Prop :=
  ∃ evs, run (World App_init fs [] []) evs w.

End callbacks.

(** The buttons by name. *)
Definition Browse_cover : Button := MkButton "Browse..." browse_cover.
Definition Save_as : Button := MkButton "Save As..." browse_output.
Definition Encode : Button := MkButton "Encode" on_encode.
Definition Browse_stego : Button := MkButton "Browse..." browse_stego.
Definition Decode : Button := MkButton "Decode" on_decode.

(** ** The invariant of the window *)

(** The title, the size, the tabs, the labels and the buttons are those the
    builders made, the message box can be typed in, and the box of the
    decoded message cannot. *)
Definition App_ok (a : App) : Prop :=
  encode_buttons (encode_tab a) = encode_buttons _build_encode_tab
  ∧ decode_buttons (decode_tab a) = decode_buttons _build_decode_tab
  ∧ state (message_txt (encode_tab a)) = normal
  ∧ state (decoded_txt (decode_tab a)) = disabled
  ∧ window a = window App_init ∧ tabs a = tabs App_init
  ∧ encode_labels (encode_tab a) = encode_labels _build_encode_tab
  ∧ decode_labels (decode_tab a) = decode_labels _build_decode_tab.

(** The files written since the program found [fs0] are images with the
    suffix [.png]. *)
Definition only_png_written (fs0 fs : gmap Path file) : Prop :=
  ∀ p, fs !! p ≠ fs0 !! p →
       lower (suffix p) = ".png" ∧ ∃ img, fs !! p = Some (ImageFile img).

(** The world against the file system the program was started on. *)
Definition world_ok (fs0 : gmap Path file) (w : world) : Prop :=
  App_ok (app w) ∧ store_ok (files w) ∧ only_png_written fs0 (files w).

(** *** Data for the concrete runs *)

(** The window on the example store, as the program starts. *)
Definition fresh_world : world := World App_init example_store [] [].

(** The user has typed a cover, the message [" abc"] and an output path. *)
Definition typed_world : world :=
  set_output_path "out/stego.jpeg"
    (set_message_txt (MkText [32; 97; 98; 99]%Z normal)
       (set_cover_path "in/cover.png" fresh_world)).

(** Encode was pressed, and the decode tab points at the file written. *)
Definition encoded_world : world :=
  set_stego_path "out/stego.png"
    (set_files (image_save example_store stego_png stego_8x4) typed_world).

(** Projections of a world after the setters. *)
Ltac world_simpl :=
  cbn [app files dialogs reported window tabs encode_tab decode_tab status_var
       encode_labels decode_labels cover_path
       message_txt output_path encode_buttons stego_path decoded_txt
       decode_buttons set_cover_path set_message_txt set_output_path
       set_stego_path set_decoded_txt set_status set_files show report
       content state text_configure text_delete text_insert] in *.

(** ** [str.strip] *)

Section strip_lemmas.
Implicit Types (s : list Z) (c : Z).

Lemma lstrip_spaces s : Forall (λ c, isspace c = true) s → lstrip s = [].
Proof. induction 1 as [|c s Hc _ IH]; [done|]. cbn [lstrip]. by rewrite Hc. Qed.

Lemma strip_spaces s : Forall (λ c, isspace c = true) s → strip s = [].
Proof. intros Hs. unfold strip. by rewrite lstrip_spaces. Qed.

Lemma lstrip_head c s : isspace c = false → lstrip (c :: s) = c :: s.
Proof. intros Hc. cbn [lstrip]. by rewrite Hc. Qed.

(** A text that neither starts nor ends with white space comes back from
    the box as it is: [strip] removes the newline that [get] adds. *)
Lemma strip_text_get c s c' :
  isspace c = false → last (c :: s) = Some c' → isspace c' = false →
  strip (text_get (MkText (c :: s) normal)) = c :: s.
Proof.
  intros Hc Hlast Hc'. unfold strip, text_get, rstrip. cbn [content].
  rewrite <- app_comm_cons, lstrip_head, app_comm_cons, reverse_snoc by done.
  cbn [lstrip]. change (isspace 10) with true. cbn match.
  rewrite <- head_reverse in Hlast.
  destruct (reverse (c :: s)) as [|d r] eqn:Hr; [done|].
  injection Hlast as ->. by rewrite lstrip_head, <- Hr, reverse_involutive.
Qed.

End strip_lemmas.

(** ** The invariant is kept *)

Section invariant_lemmas.
Context `{!TextCodec} (lsb : option LsbBackend).
Implicit Types (w : world) (fs : gmap Path file) (answer : string).

Lemma only_png_written_refl fs : only_png_written fs fs.
Proof. by intros p. Qed.

Lemma only_png_written_save fs0 fs out img :
  only_png_written fs0 fs → lower (suffix out) = ".png" →
  only_png_written fs0 (image_save fs out img).
Proof.
  intros Hfs Hout p. unfold image_save. destruct (decide (out = p)) as [<-|Hne].
  - rewrite lookup_insert_eq. eauto.
  - rewrite lookup_insert_ne by done. apply Hfs.
Qed.

(** A step that leaves the files alone keeps the invariant if it keeps the
    window well formed. *)
Lemma world_ok_frame fs0 w w' :
  world_ok fs0 w → files w' = files w → App_ok (app w') → world_ok fs0 w'.
Proof. intros (_ & Hfs & Hnew) Hf Ha. unfold world_ok. by rewrite Hf. Qed.

Lemma world_ok_init fs : store_ok fs → world_ok fs (World App_init fs [] []).
Proof. intros Hfs. split_and!; [done..|apply only_png_written_refl]. Qed.

Lemma browse_cover_ok fs0 answer w : world_ok fs0 w → world_ok fs0 (_browse_cover answer w).
Proof.
  intros Hw. eapply world_ok_frame; [done|..]; unfold _browse_cover;
    destruct (decide _); world_simpl; (done || apply Hw).
Qed.

Lemma browse_stego_ok fs0 answer w : world_ok fs0 w → world_ok fs0 (_browse_stego answer w).
Proof.
  intros Hw. eapply world_ok_frame; [done|..]; unfold _browse_stego;
    destruct (decide _); world_simpl; (done || apply Hw).
Qed.

Lemma browse_output_ok fs0 answer w : world_ok fs0 w → world_ok fs0 (_browse_output answer w).
Proof.
  intros Hw. eapply world_ok_frame; [done|..]; unfold _browse_output;
    repeat case_match; world_simpl; (done || apply Hw).
Qed.

Lemma on_encode_ok fs0 w : world_ok fs0 w → world_ok fs0 (_on_encode lsb w).
Proof.
  intros (Ha & Hfs & Hnew). unfold _on_encode.
  destruct (encode_call lsb w) as [[out fs']|e] eqn:Hcall.
  - apply encode_message_to_image_saved in Hcall as (Hout & img' & Himg & ->); [|done].
    split_and!; world_simpl; [done|by apply store_ok_save|].
    by apply only_png_written_save.
  - destruct (is_stego_error e); by split_and!.
Qed.

Lemma on_decode_ok fs0 w : world_ok fs0 w → world_ok fs0 (_on_decode lsb w).
Proof.
  intros Hw. eapply world_ok_frame; [done|..]; unfold _on_decode;
    repeat case_match; world_simpl; try done;
    destruct Hw as ((? & ? & ? & ? & ? & ? & ? & ?) & _); by split_and!.
Qed.

Lemma dispatch_ok fs0 w ev : world_ok fs0 w → world_ok fs0 (dispatch lsb w ev).
Proof.
  intros Hw. destruct ev as [s|m|s|s|b answer]; cbn [dispatch].
  1-4: eapply world_ok_frame; [done..|];
    destruct Hw as ((? & ? & ? & ? & ? & ? & ? & ?) & _); by split_and!.
  destruct (decide _); [|done].
  destruct (command b); cbn [run_callback];
    auto using browse_cover_ok, browse_output_ok, browse_stego_ok, on_encode_ok,
      on_decode_ok.
Qed.

Lemma mainloop_ok fs0 evs : ∀ w, world_ok fs0 w → world_ok fs0 (mainloop lsb evs w).
Proof.
  induction evs as [|ev evs IH]; intros w Hw; [done|].
  apply IH. by apply dispatch_ok.
Qed.

(** The window stays well formed, whatever the files hold. *)
Lemma dispatch_App_ok w ev : App_ok (app w) → App_ok (app (dispatch lsb w ev)).
Proof.
  intros (? & ? & ? & ? & ? & ? & ? & ?). destruct ev as [s|m|s|s|b answer]; cbn [dispatch];
    try by split_and!.
  destruct (decide _); [|by split_and!].
  destruct (command b); cbn [run_callback];
    unfold _browse_cover, _browse_output, _browse_stego, _on_encode, _on_decode;
    repeat case_match; by split_and!.
Qed.

(** A transition is what [dispatch] does. *)
Lemma step_dispatch w ev w' : step lsb w ev w' → dispatch lsb w ev = w'.
Proof. destruct 1; cbn [dispatch]; [done..|]. by rewrite decide_True. Qed.

Lemma run_mainloop w evs w' : run lsb w evs w' → mainloop lsb evs w = w'.
Proof.
  induction 1 as [|w ev w1 evs w2 Hstep _ IH]; [done|].
  cbn [mainloop foldl]. by rewrite (step_dispatch _ _ _ Hstep).
Qed.

(** Every transition keeps the invariant. *)
Lemma step_ok fs0 w ev w' : world_ok fs0 w → step lsb w ev w' → world_ok fs0 w'.
Proof. intros Hw <-%step_dispatch. by apply dispatch_ok. Qed.

(** The invariant holds in every reachable world, by induction on the
    run. *)
Lemma reachable_ok fs w : store_ok fs → reachable lsb fs w → world_ok fs w.
Proof.
  intros Hfs [evs Hrun]. apply world_ok_init in Hfs.
  induction Hrun as [|w ev w1 evs w2 Hstep _ IH]; [done|].
  eauto using step_ok.
Qed.

(** The worlds [main] computes are reachable, when every press is on a
    button of the window. *)
Lemma run_main w evs :
  App_ok (app w) →
  Forall (λ ev, ∀ b answer, ev = press b answer → b ∈ buttons App_init) evs →
  run lsb w evs (mainloop lsb evs w).
Proof.
  intros Ha Hevs. revert w Ha.
  induction Hevs as [|ev evs Hev _ IH]; intros w Ha; [constructor|].
  assert (buttons (app w) = buttons App_init) as Hb.
  { destruct Ha as (He & Hd & _). unfold buttons. by rewrite He, Hd. }
  assert (step lsb w ev (dispatch lsb w ev)) as Hstep.
  { destruct ev as [s|m|s|s|b answer]; cbn [dispatch]; try by constructor.
    rewrite decide_True by (rewrite Hb; eauto). constructor. rewrite Hb. eauto. }
  econstructor; [done|]. by apply IH, dispatch_App_ok.
Qed.

End invariant_lemmas.

(** ** What the callbacks do *)

Section callback_lemmas.
Context `{!TextCodec} (lsb : option LsbBackend).
Implicit Types (w : world) (answer : string) (out : Path).

(** The four calls on the box of the decoded message replace its text,
    whatever state it was in. *)
Lemma text_replace (t : TextBox) msg :
  text_configure disabled (text_insert msg (text_delete (text_configure normal t)))
  = MkText msg disabled.
Proof. unfold text_configure, text_insert, text_delete. cbn. by rewrite app_nil_r. Qed.

(** After a successful [_on_encode], a decode call on the string of the
    path it returned finds the message. *)
Lemma decode_call_after_encode w out fs' w' :
  store_ok (files w) → encode_call lsb w = Ok (out, fs') →
  files w' = fs' → stego_path (decode_tab (app w')) = Path_str out →
  decode_call lsb w' = Ok (strip (text_get (message_txt (encode_tab (app w))))).
Proof.
  intros Hfs Hcall Hfiles Hstego. unfold decode_call. rewrite Hfiles, Hstego.
  apply encode_message_to_image_inv in Hcall
    as (Hne & [_ Hout]%ensure_png_str & img & img' & Hopen & Hhide & ->).
  eapply decode_message_hidden; eauto using image_open_ok.
  cbn [to_Path]. rewrite Hout. apply lookup_insert_eq.
Qed.

(** A message box that holds white space only sends the empty message. *)
Lemma encode_call_blank w :
  Forall (λ c, isspace c = true) (content (message_txt (encode_tab (app w)))) →
  encode_call lsb w = Raise empty_message
  ∨ encode_call lsb w
    = Raise (cover_not_found (Path_of_str (cover_path (encode_tab (app w))))).
Proof.
  intros Hblank. unfold encode_call, encode_message_to_image, text_get.
  rewrite strip_spaces by (apply Forall_app; split; [done|by repeat constructor]).
  cbn [to_Path]. destruct (path_exists _ _); cbn [negb]; auto.
Qed.

End callback_lemmas.

Section callback_theorems.
Context `{!TextCodec} (lsb : option LsbBackend).
Implicit Types (w : world) (answer : string) (out : Path).

(** C10: whatever the user does, in any order, the window keeps its
    buttons, the box of the decoded message stays read-only, the image
    files stay well formed, and the only files that differ from those the
    program found at its start are images with the suffix [.png]. *)
Theorem main_world_ok fs evs : store_ok fs → world_ok fs (main lsb fs evs).
Proof. intros Hfs. by apply mainloop_ok, world_ok_init. Qed.

(** C9: after a successful Encode, pointing the decode tab at the path the
    status bar names and pressing Decode displays the message that was
    sent: the text of the message box without the white space around
    it. *)
Theorem decode_after_encode w out fs' :
  store_ok (files w) → encode_call lsb w = Ok (out, fs') →
  let w1 := _on_encode lsb w in
  let w2 := _on_decode lsb (set_stego_path (Path_str out) w1) in
  files w1 = fs'
  ∧ decoded_txt (decode_tab (app w2))
    = MkText (strip (text_get (message_txt (encode_tab (app w))))) disabled
  ∧ status_var (app w2) = "Decoded message displayed.".
Proof.
  intros Hfs Hcall w1 w2. subst w1 w2. unfold _on_encode, _on_decode.
  rewrite Hcall. erewrite decode_call_after_encode by done. cbv zeta.
  by rewrite text_replace.
Qed.

(** C35: a failed Encode writes no file and changes no entry; it shows one
    error dialog with the exception, titled "Encode failed" for a
    [SteganographyError] and "Unexpected error" for any other, and sets the
    status bar accordingly. *)
Theorem on_encode_failure w e :
  encode_call lsb w = Raise e →
  let w' := _on_encode lsb w in
  files w' = files w ∧ encode_tab (app w') = encode_tab (app w)
  ∧ decode_tab (app w') = decode_tab (app w) ∧ reported w' = reported w
  ∧ dialogs w'
    = (dialogs w ++ [showerror (if is_stego_error e then "Encode failed"
                               else "Unexpected error") e])%list
  ∧ status_var (app w')
    = if is_stego_error e then "Encode failed." else "Unexpected error.".
Proof.
  intros Hcall w'. subst w'. unfold _on_encode. rewrite Hcall.
  by destruct (is_stego_error e).
Qed.

(** C36: with a message box that holds nothing but white space, Encode
    fails with a [SteganographyError]: no file is written and the dialog
    names the empty message, or the cover when that is missing too. *)
Theorem on_encode_blank_message w :
  Forall (λ c, isspace c = true) (content (message_txt (encode_tab (app w)))) →
  let w' := _on_encode lsb w in
  files w' = files w ∧ status_var (app w') = "Encode failed."
  ∧ ∃ e, dialogs w' = (dialogs w ++ [showerror "Encode failed" e])%list
         ∧ (e = empty_message
            ∨ e = cover_not_found (Path_of_str (cover_path (encode_tab (app w))))).
Proof.
  intros Hblank w'. subst w'. unfold _on_encode.
  destruct (encode_call_blank lsb w Hblank) as [-> | ->]; cbn [is_stego_error];
    world_simpl; eauto 6.
Qed.

(** C37: a successful Decode replaces what the box of the decoded message
    showed by the message, which is not empty, and leaves the box
    read-only; it shows no dialog and touches no file. *)
Theorem on_decode_displays w msg :
  decode_call lsb w = Ok msg →
  let w' := _on_decode lsb w in
  decoded_txt (decode_tab (app w')) = MkText msg disabled ∧ msg ≠ []
  ∧ status_var (app w') = "Decoded message displayed."
  ∧ dialogs w' = dialogs w ∧ files w' = files w.
Proof.
  intros Hcall w'. subst w'. unfold _on_decode. rewrite Hcall. cbv zeta.
  rewrite text_replace. split_and!; try done. by eapply decode_message_nonempty.
Qed.

(** C38: a failed Decode leaves the box of the decoded message as it was,
    so a message decoded earlier stays on display; it shows a warning for a
    [SteganographyError] and an error dialog for any other exception. *)
Theorem on_decode_failure w e :
  decode_call lsb w = Raise e →
  let w' := _on_decode lsb w in
  decode_tab (app w') = decode_tab (app w) ∧ files w' = files w
  ∧ dialogs w'
    = (dialogs w ++ [if is_stego_error e then showwarning "No message" e
                    else showerror "Unexpected error" e])%list
  ∧ status_var (app w')
    = if is_stego_error e then "Decode failed." else "Unexpected error.".
Proof.
  intros Hcall w'. subst w'. unfold _on_decode. rewrite Hcall.
  by destruct (is_stego_error e).
Qed.

(** C16: an entry left empty names the directory the program runs in, and
    that exists.  Decode with an empty path entry, and Encode with an empty
    cover entry and a message, therefore do not report a missing file:
    opening the directory raises [IsADirectoryError], and the dialog is the
    one titled "Unexpected error". *)
Theorem empty_entry_unexpected w :
  files w !! cwd = Some Directory →
  let unexpected :=
    set_status "Unexpected error."
      (show (showerror "Unexpected error" IsADirectoryError) w) in
  (stego_path (decode_tab (app w)) = "" → _on_decode lsb w = unexpected)
  ∧ (cover_path (encode_tab (app w)) = "" →
     strip (text_get (message_txt (encode_tab (app w)))) ≠ [] →
     output_path (encode_tab (app w)) = ""
     ∨ name (Path_of_str (output_path (encode_tab (app w)))) ≠ "" →
     _on_encode lsb w = unexpected).
Proof.
  intros Hdir unexpected. subst unexpected. split.
  - intros Hstego. unfold _on_decode, decode_call. rewrite Hstego.
    by rewrite (decode_message_directory lsb _ (PStr "")).
  - intros Hcover Hmsg Hout. unfold _on_encode, encode_call. rewrite Hcover.
    rewrite (encode_message_directory lsb _ (PStr "")); [done..|].
    cbn [to_Path]. destruct (decide _); [by destruct Hout|done].
Qed.

End callback_theorems.

Section browse_theorems.
Implicit Types (w : world) (answer : string) (q : Path).

(** C39: after Save As with a file name, the output entry holds the string
    of the chosen path with its suffix made [.png], it is not empty, and
    [ensure_png] maps it to that path again: Encode writes where the dialog
    said. *)
Theorem browse_output_sets_png answer w q :
  let cover := cover_path (encode_tab (app w)) in
  cover = "" ∨ name (Path_of_str cover) ≠ "" →
  answer ≠ "" → ensure_png (PStr answer) = Ok q →
  let w' := _browse_output answer w in
  output_path (encode_tab (app w')) = Path_str q
  ∧ output_path (encode_tab (app w')) ≠ ""
  ∧ ensure_png (PStr (output_path (encode_tab (app w')))) = Ok q
  ∧ files w' = files w ∧ reported w' = reported w.
Proof.
  intros cover Hcover Hanswer Hq w'. subst w' cover. unfold _browse_output.
  assert (Path_ok q) by (eapply ensure_png_ok; [apply to_Path_PStr_ok|done]).
  destruct (decide (cover_path _ ≠ "")) as [Hne|_]; [unfold with_name|];
    [rewrite decide_False by by destruct Hcover|];
    rewrite Hq, (decide_True _ _ Hanswer); world_simpl;
    split_and!; auto using Path_str_nonempty; by apply ensure_png_str in Hq as [? _].
Qed.

(** C40: when the cover entry holds a path without a name, such as ["/"],
    Save As opens no dialog: [with_name] raises [ValueError], which leaves
    the callback. *)
Theorem browse_output_unnamed_cover answer w :
  let cover := cover_path (encode_tab (app w)) in
  cover ≠ "" → name (Path_of_str cover) = "" →
  _browse_output answer w = report ValueError w.
Proof.
  intros cover Hne Hnm. subst cover. unfold _browse_output, with_name.
  by rewrite (decide_True _ _ Hne), (decide_True _ _ Hnm).
Qed.

End browse_theorems.

(** ** A session: Save As, Encode, Decode *)

Section session.
Context `{!TextCodec}.
Implicit Types (w : world) (answer cover : string) (q : Path).

Lemma mainloop_cons lsb ev evs w :
  mainloop lsb (ev :: evs) w = mainloop lsb evs (dispatch lsb w ev).
Proof. reflexivity. Qed.

(** A press on a button of the window runs its command. *)
Lemma dispatch_press lsb w b answer :
  App_ok (app w) → b ∈ buttons App_init →
  dispatch lsb w (press b answer) = run_callback lsb (command b) answer w.
Proof.
  intros (He & Hd & _) Hb. cbn [dispatch]. rewrite decide_True; [done|].
  unfold buttons. by rewrite He, Hd.
Qed.

(** Save As with a usable cover entry and a file name. *)
Lemma browse_output_Ok answer w q :
  let cover := cover_path (encode_tab (app w)) in
  cover = "" ∨ name (Path_of_str cover) ≠ "" →
  answer ≠ "" → ensure_png (PStr answer) = Ok q →
  _browse_output answer w
  = set_output_path (Path_str q)
      (show (asksaveasfilename "Save stego image as" "stego.png") w).
Proof.
  intros cover Hcover Hanswer Hq. subst cover. unfold _browse_output.
  destruct (decide (cover_path _ ≠ "")) as [Hne|_]; [unfold with_name|];
    [rewrite decide_False by by destruct Hcover|];
    rewrite ?name_snoc, Hq, (decide_True _ _ Hanswer); done.
Qed.

(** Encode with the fallback codec, when everything fits. *)
Lemma encode_call_fits w img pl :
  let e := encode_tab (app w) in
  let msg := strip (text_get (message_txt e)) in
  store_ok (files w) →
  files w !! Path_of_str (cover_path e) = Some (ImageFile img) →
  output_path e ≠ "" → msg ≠ [] →
  payload msg = Ok pl → (length pl * 8 ≤ capacity img)%nat →
  ∀ q, ensure_png (PStr (output_path e)) = Ok q →
  ∃ img', encode_call None w = Ok (q, image_save (files w) q img').
Proof.
  intros e msg Hfs Hcover Hout Hmsg Hpl Hfit q Hq. subst e msg.
  eexists. unfold encode_call. rewrite (decide_True _ _ Hout).
  eapply encode_message_fallback_Ok; [done..|].
  apply encode_image_fits; [by eapply Hfs|done..].
Qed.

(** C11: started on a file system with a cover that can hold the message,
    the session "type the cover and the message, Save As, Encode, type the
    path written into the decode tab, Decode" ends with the stripped
    message on display; one file has been written, the one chosen in the
    dialog with its suffix made [.png]; two dialogs were shown and no
    exception was reported. *)
Theorem main_session fs cover m answer q img pl :
  let msg := strip (text_get (MkText m normal)) in
  store_ok fs → fs !! Path_of_str cover = Some (ImageFile img) →
  cover = "" ∨ name (Path_of_str cover) ≠ "" →
  answer ≠ "" → ensure_png (PStr answer) = Ok q →
  msg ≠ [] → payload msg = Ok pl → (length pl * 8 ≤ capacity img)%nat →
  let w := main None fs [type_cover_path cover; type_message m;
                         press Save_as answer; press Encode "";
                         type_stego_path (Path_str q); press Decode ""] in
  decoded_txt (decode_tab (app w)) = MkText msg disabled
  ∧ status_var (app w) = "Decoded message displayed."
  ∧ reported w = []
  ∧ dialogs w = [asksaveasfilename "Save stego image as" "stego.png";
                 showinfo "Success" (saved_to q)]
  ∧ ∃ img', files w = image_save fs q img'.
Proof.
  intros msg Hfs Hcover Hnm Hanswer Hq Hmsg Hpl Hfit w. subst w.
  unfold main. do 2 rewrite mainloop_cons. cbn [dispatch].
  set (w2 := set_message_txt _ _).
  rewrite mainloop_cons, (dispatch_press None w2) by (done || compute_done).
  cbn [run_callback command Save_as]. rewrite (browse_output_Ok answer w2 q) by done.
  set (w3 := set_output_path _ _).
  assert (Path_ok q) as Hqok by (eapply ensure_png_ok; [apply to_Path_PStr_ok|done]).
  destruct (encode_call_fits w3 img pl) with (q := q) as [img' Hcall];
    [done|done|by apply Path_str_nonempty|done|done|done
    |by apply ensure_png_str in Hq as [? _]|].
  rewrite mainloop_cons, (dispatch_press None w3) by (done || compute_done).
  cbn [run_callback command Encode]. unfold _on_encode. rewrite Hcall.
  rewrite mainloop_cons. cbn [dispatch]. set (w5 := set_stego_path _ _).
  rewrite mainloop_cons, (dispatch_press None w5) by (done || compute_done).
  cbn [run_callback command Decode mainloop foldl]. unfold _on_decode.
  rewrite (decode_call_after_encode None w3 q _ w5 Hfs Hcall) by done.
  cbv zeta. rewrite text_replace. split_and!; try done. by exists img'.
Qed.

End session.

(** ** Concrete runs, with UTF-8 and the fallback codec *)

(** The user has typed a message and no cover. *)
Lemma message_only_encode :
  encode_call None (set_message_txt (MkText abc normal) fresh_world)
  = Raise IsADirectoryError.
Proof.
  apply (encode_message_directory None example_store (PStr ""));
    [apply example_store_cwd | by vm_compute | by vm_compute].
Qed.

Lemma typed_world_encode :
  encode_call None typed_world
  = Ok (stego_png, image_save example_store stego_png stego_8x4).
Proof. apply example_encode. Qed.

Lemma encoded_world_decode : decode_call None encoded_world = Ok abc.
Proof.
  apply (decode_call_after_encode None typed_world stego_png
           (image_save example_store stego_png stego_8x4) encoded_world);
    [apply example_store_ok | apply typed_world_encode | reflexivity | reflexivity].
Qed.

(** The decode tab points at the blank canvas. *)
Lemma encoded_world_blank :
  decode_call None (set_stego_path "blank.png" encoded_world) = Raise no_message.
Proof.
  unfold decode_call. erewrite decode_message_fallback.
  - by rewrite decode_image_uniform.
  - unfold encoded_world, typed_world, fresh_world. world_simpl. unfold image_save.
    rewrite lookup_insert_ne by compute_done. apply example_store_blank.
Qed.

Lemma main_world_ok_witness :
  world_ok example_store
    (main None example_store
       [type_cover_path "in/cover.png"; type_message [32; 97; 98; 99]%Z;
        press Save_as "out/stego.jpeg"; press Encode "";
        press Browse_stego "out/stego.png"; press Decode ""]).
Proof. apply main_world_ok, example_store_ok. Defined.

Lemma decode_after_encode_witness :
  let w1 := _on_encode None typed_world in
  let w2 := _on_decode None (set_stego_path (Path_str stego_png) w1) in
  files w1 = image_save example_store stego_png stego_8x4
  ∧ decoded_txt (decode_tab (app w2))
    = MkText (strip (text_get (message_txt (encode_tab (app typed_world))))) disabled
  ∧ status_var (app w2) = "Decoded message displayed.".
Proof.
  apply (decode_after_encode None typed_world stego_png);
    [apply example_store_ok | apply typed_world_encode].
Defined.

Lemma on_encode_failure_witness :
  let e := IsADirectoryError in
  let w := set_message_txt (MkText abc normal) fresh_world in
  let w' := _on_encode None w in
  files w' = files w ∧ encode_tab (app w') = encode_tab (app w)
  ∧ decode_tab (app w') = decode_tab (app w)
  ∧ reported w' = reported w
  ∧ dialogs w'
    = (dialogs w
       ++ [showerror (if is_stego_error e then "Encode failed"
                      else "Unexpected error") e])%list
  ∧ status_var (app w')
    = if is_stego_error e then "Encode failed." else "Unexpected error.".
Proof.
  apply (on_encode_failure None (set_message_txt (MkText abc normal) fresh_world)).
  apply message_only_encode.
Defined.

Lemma on_encode_blank_message_witness :
  let w := set_message_txt (MkText [32; 9]%Z normal) typed_world in
  let w' := _on_encode None w in
  files w' = files w ∧ status_var (app w') = "Encode failed."
  ∧ ∃ e, dialogs w' = (dialogs w ++ [showerror "Encode failed" e])%list
         ∧ (e = empty_message
            ∨ e = cover_not_found (Path_of_str (cover_path (encode_tab (app w))))).
Proof.
  apply (on_encode_blank_message None
           (set_message_txt (MkText [32; 9]%Z normal) typed_world)).
  by repeat constructor.
Defined.

Lemma on_decode_displays_witness :
  let w' := _on_decode None encoded_world in
  decoded_txt (decode_tab (app w')) = MkText abc disabled ∧ abc ≠ []
  ∧ status_var (app w') = "Decoded message displayed."
  ∧ dialogs w' = dialogs encoded_world ∧ files w' = files encoded_world.
Proof. apply (on_decode_displays None encoded_world), encoded_world_decode. Defined.

Lemma on_decode_failure_witness :
  let e := no_message in
  let w := set_stego_path "blank.png" encoded_world in
  let w' := _on_decode None w in
  decode_tab (app w') = decode_tab (app w) ∧ files w' = files w
  ∧ dialogs w'
    = (dialogs w
       ++ [if is_stego_error e then showwarning "No message" e
           else showerror "Unexpected error" e])%list
  ∧ status_var (app w')
    = if is_stego_error e then "Decode failed." else "Unexpected error.".
Proof.
  apply (on_decode_failure None (set_stego_path "blank.png" encoded_world)).
  apply encoded_world_blank.
Defined.

Lemma empty_entry_unexpected_witness :
  let w := set_message_txt (MkText abc normal) fresh_world in
  let unexpected :=
    set_status "Unexpected error."
      (show (showerror "Unexpected error" IsADirectoryError) w) in
  _on_decode None w = unexpected ∧ _on_encode None w = unexpected.
Proof.
  intros w unexpected.
  destruct (empty_entry_unexpected None w example_store_cwd) as [Hdecode Hencode].
  split; [by apply Hdecode|]. apply Hencode; [done|by vm_compute|by left].
Defined.

Lemma browse_output_sets_png_witness :
  let w' := _browse_output "out/stego.jpeg" fresh_world in
  output_path (encode_tab (app w')) = Path_str stego_png
  ∧ output_path (encode_tab (app w')) ≠ ""
  ∧ ensure_png (PStr (output_path (encode_tab (app w')))) = Ok stego_png
  ∧ files w' = files fresh_world ∧ reported w' = reported fresh_world.
Proof.
  apply (browse_output_sets_png "out/stego.jpeg" fresh_world stego_png);
    [by left | done | by vm_compute].
Defined.

Lemma browse_output_unnamed_cover_witness :
  _browse_output "out.png" (set_cover_path "/" fresh_world)
  = report ValueError (set_cover_path "/" fresh_world).
Proof.
  apply (browse_output_unnamed_cover "out.png" (set_cover_path "/" fresh_world));
    [done | reflexivity].
Defined.

Lemma main_session_witness :
  let msg := strip (text_get (MkText [32; 97; 98; 99]%Z normal)) in
  let w := main None example_store
             [type_cover_path "in/cover.png"; type_message [32; 97; 98; 99]%Z;
              press Save_as "out/stego.jpeg"; press Encode "";
              type_stego_path (Path_str stego_png); press Decode ""] in
  decoded_txt (decode_tab (app w)) = MkText msg disabled
  ∧ status_var (app w) = "Decoded message displayed."
  ∧ reported w = []
  ∧ dialogs w = [asksaveasfilename "Save stego image as" "stego.png";
                 showinfo "Success" (saved_to stego_png)]
  ∧ ∃ img', files w = image_save example_store stego_png img'.
Proof.
  apply (main_session example_store "in/cover.png" [32; 97; 98; 99]%Z
           "out/stego.jpeg" stego_png cover_8x4 (_HEADER ++ [0; 0; 0; 3]%Z ++ abc));
    [apply example_store_ok | apply example_store_cover | by right | done
    | by vm_compute | by vm_compute | by vm_compute | compute_done].
Defined.
