(* ===== verification/Tests.v ===== *)
(** * tests/test_core.py: the test suite, run on the model

    The two tests of the repository, as functions on the file system they
    run in and the temporary directory pytest hands them.  A test returns
    [Ok tt] when it passes and raises [AssertionError] when an assertion
    fails.  The theorems show that both pass with the fallback codec, on
    every file system and in every directory. *)

From Stdlib Require Import ZArith Lia ZifyNat String.
From stdpp Require Import base tactics option list strings numbers gmap.
From S2P Require Import Prelude Text Image Frame Embed Extract Codec Utils Core.

#[local] Open Scope string_scope.

(** ** Definitions *)

(** [p / s] for a relative [s]. *)
Definition Path_div (p : Path) (s : string) : Path :=
  MkPath (root p) (parts p ++ parts (Path_of_str s)).

(** [assert c]. *)
Definition assert_ (c : bool) : result unit :=
  if c then Ok tt else Raise (AssertionError "").

(** The message of the round-trip test: a sentence and four characters
    outside ASCII. *)
Definition secret : list Z :=
  [84; 104; 101; 32; 113; 117; 105; 99; 107; 32; 98; 114; 111; 119; 110; 32;
   102; 111; 120; 32; 106; 117; 109; 112; 115; 32; 111; 118; 101; 114; 32;
   49; 51; 32; 108; 97; 122; 121; 32; 100; 111; 103; 115; 46; 32; 240; 376;
   166; 352]%Z.

Section tests.
Context `{!TextCodec} (lsb : option LsbBackend).
Implicit Types (fs : gmap Path file) (tmp_path : Path).

Definition _make_cover fs tmp_path : Path * gmap Path file :=
  let img := new_image 128 128 (RGBA 20 40 60 255) in
  let p := Path_div tmp_path "cover.png" in
  (p, image_save fs p img).

Definition test_encode_decode_roundtrip fs tmp_path : result unit :=
  let '(cover, fs) := _make_cover fs tmp_path in
  let out := Path_div tmp_path "stego.png" in
  match encode_message_to_image lsb fs (PPath cover) secret (PPath out) with
  | Raise e => Raise e
  | Ok (stego_path, fs) =>
      _ ← assert_ (path_exists fs stego_path);
      revealed ← decode_message_from_image lsb fs (PPath stego_path);
      assert_ (bool_decide (revealed = secret))
  end.

Definition test_decode_missing fs tmp_path : result unit :=
  let img := new_image 64 64 (RGBA 0 0 0 255) in
  let p := Path_div tmp_path "blank.png" in
  let fs := image_save fs p img in
  match decode_message_from_image lsb fs (PPath p) with
  | Raise e => if is_stego_error e then Ok tt else Raise e
  | Ok _ =>
      Raise (AssertionError "Expected SteganographyError for image without message")
  end.

End tests.

(** ** The tests pass *)

Section tests_pass.
Implicit Types (fs : gmap Path file) (tmp_path : Path).

(** A file name with the suffix [.png] in a directory is left as it is. *)
Lemma ensure_png_div tmp_path :
  ensure_png (PPath (Path_div tmp_path "stego.png")) = Ok (Path_div tmp_path "stego.png").
Proof.
  apply (ensure_png_id (PPath _)). cbn [to_Path]. unfold suffix, Path_div.
  change (parts (Path_of_str "stego.png")) with ["stego.png"].
  rewrite name_snoc. by vm_compute.
Qed.

Lemma secret_nonempty : secret ≠ [].
Proof. done. Qed.

(** The frame of [secret] has 62 bytes. *)
Lemma payload_secret : ∃ pl, payload secret = Ok pl ∧ length pl = 62%nat.
Proof. eexists. split; by vm_compute. Qed.

(** [test_encode_decode_roundtrip] passes with the fallback codec. *)
Theorem test_encode_decode_roundtrip_passes fs tmp_path :
  test_encode_decode_roundtrip None fs tmp_path = Ok tt.
Proof.
  destruct payload_secret as (pl & Hpl & Hlen).
  unfold test_encode_decode_roundtrip, _make_cover.
  set (img := new_image 128 128 (RGBA 20 40 60 255)).
  assert (image_ok img) as Hok by by apply new_image_ok.
  assert (length pl * 8 ≤ capacity img)%nat as Hfit by (rewrite Hlen; compute_done).
  clearbody img.
  pose proof (encode_image_fits img secret pl (proj1 Hok) Hpl Hfit) as Henc.
  cbv beta iota zeta. unfold image_save at 1.
  rewrite (encode_message_fallback_Ok _ (PPath (Path_div tmp_path "cover.png")) _ _ img _ _
             (lookup_insert_eq _ _ _) secret_nonempty (ensure_png_div tmp_path) Henc).
  rewrite path_exists_save. cbn [assert_ mbind result_bind].
  rewrite (decode_message_hidden None _ (PPath _) img secret _ Hok Henc)
    by (apply secret_nonempty || apply lookup_insert_eq).
  cbn [mbind result_bind]. by rewrite bool_decide_true.
Qed.

(** [test_decode_missing] passes with the fallback codec. *)
Theorem test_decode_missing_passes fs tmp_path :
  test_decode_missing None fs tmp_path = Ok tt.
Proof.
  unfold test_decode_missing.
  rewrite (decode_message_fallback _ (PPath _) (new_image 64 64 (RGBA 0 0 0 255)))
    by apply lookup_insert_eq.
  by rewrite decode_image_uniform.
Qed.

End tests_pass.
